(** * TACO playground: block tree, editor operations and condition compilers

    A shallow embedding of the block tree handled by [DraggableBlock]
    (the drop, value, remove and add-parameter handlers), of the two
    compilers from block trees to TACO conditions ([blockToJson] and
    [processBlock], each behind its own [blocksToJson]) and of the chain
    check of the encryption panel ([getValidChainId]).

    Conventions of the embedding.
    - JavaScript strings are [string]s of ASCII characters.
    - A JavaScript number that the code obtains from [parseInt], from a
      counter or from a length is an integer, modelled exactly as a [Z]
      (the double of the source is exact on the safe integer range);
      [NaN] is a value of its own and [-0] is identified with [0].
    - An optional field ([x?: T], or a field that holds [undefined]) is an
      [option]; a test [if (x)] is the truthiness of the value.
    - [JSON.parse(JSON.stringify(block))] is the identity on the model:
      values are immutable, so every handler already works on a copy. *)

From Stdlib Require Import List String Ascii ZArith Lia Bool Arith.
From Stdlib Require Import DecimalString DecimalNat DecimalZ.
Import ListNotations.
Local Open Scope string_scope.
Local Open Scope list_scope.
Local Open Scope Z_scope.

Set Implicit Arguments.
Set Warnings "-register-all".

(** ** JavaScript primitives *)

Module JS.

(** The result of [parseInt]: [NaN] or an integer. *)
Inductive number : Type :=
| NaN
| Num (z : Z).

(** Truthiness of a string: non-empty. *)
Definition truthy_string (s : string) : bool :=
  match s with
  | EmptyString => false
  | String _ _ => true
  end.

(** Truthiness of an optional string ([undefined] is falsy). *)
Definition truthy (v : option string) : bool :=
  match v with
  | Some s => truthy_string s
  | None => false
  end.

(** [a || b] on optional strings. *)
Definition or_else (v : option string) (d : string) : string :=
  match v with
  | Some s => if truthy_string s then s else d
  | None => d
  end.

(** Truthiness of a number: neither [0] nor [NaN]. *)
Definition truthy_Z (z : Z) : bool := negb (z =? 0).

(** White space skipped by [parseInt] and removed by [trim] (ASCII). *)
Definition is_ws (c : ascii) : bool :=
  let n := nat_of_ascii c in
  ((n =? 9) || (n =? 10) || (n =? 11) || (n =? 12) || (n =? 13) || (n =? 32))%nat.

Fixpoint trimStart (s : string) : string :=
  match s with
  | String c r => if is_ws c then trimStart r else s
  | EmptyString => EmptyString
  end.

(** [trimEnd], by one pass from the right: a character is kept when it
    is no white space or when something is kept after it. *)
Fixpoint trimEnd (s : string) : string :=
  match s with
  | EmptyString => EmptyString
  | String c r =>
      match trimEnd r with
      | EmptyString => if is_ws c then EmptyString else String c EmptyString
      | r' => String c r'
      end
  end.

Definition trim (s : string) : string := trimEnd (trimStart s).

(** Value of a character as a digit, up to radix 16. *)
Definition digit_value (c : ascii) : option Z :=
  let n := Z.of_nat (nat_of_ascii c) in
  if (48 <=? n) && (n <=? 57) then Some (n - 48)
  else if (97 <=? n) && (n <=? 102) then Some (n - 87)
  else if (65 <=? n) && (n <=? 70) then Some (n - 55)
  else None.

Definition digit_in (radix : Z) (c : ascii) : option Z :=
  match digit_value c with
  | Some d => if d <? radix then Some d else None
  | None => None
  end.

(** The longest prefix of digits of the radix, read from the left;
    [acc] is [None] as long as no digit was read. *)
Fixpoint parse_digits (radix : Z) (s : string) (acc : option Z) : option Z :=
  match s with
  | EmptyString => acc
  | String c r =>
      match digit_in radix c with
      | Some d =>
          parse_digits radix r
            (Some (match acc with Some a => a * radix + d | None => d end))
      | None => acc
      end
  end.

(** [0x] or [0X] in front selects radix 16. *)
Definition strip_hex (s : string) : Z * string :=
  match s with
  | String "0" (String "x" r) => (16, r)
  | String "0" (String "X" r) => (16, r)
  | _ => (10, s)
  end.

(** [parseInt(s)] with no radix argument. *)
Definition parseInt (s : string) : number :=
  let t := trimStart s in
  let '(sign, u) :=
    match t with
    | String "-" r => (-1, r)
    | String "+" r => (1, r)
    | _ => (1, t)
    end in
  let '(radix, v) := strip_hex u in
  match parse_digits radix v None with
  | Some m => Num (sign * m)
  | None => NaN
  end.

(** [`${n}`] for an integer. *)
Definition string_of_Z (z : Z) : string := NilZero.string_of_int (Z.to_int z).

(** [s.startsWith(p)]. *)
Definition startsWith (p s : string) : bool := String.prefix p s.

(** [s.split('_')]: the pieces of [s] between underscores. *)
Fixpoint split_underscore (s : string) : list string :=
  match s with
  | EmptyString => [EmptyString]
  | String c r =>
      let pieces := split_underscore r in
      if Ascii.eqb c "_" then EmptyString :: pieces
      else match pieces with
           | p :: ps => String c p :: ps
           | [] => [String c EmptyString]
           end
  end.

End JS.

(** ** The block tree (BlockTypes) *)

(** Modelled from the spec: the declaration of [Block.type] in
    ./BlockTypes, which is not among the sources; the kinds are those of
    section 3 of the specification, and those the handlers compare with. *)
Inductive BlockKind : Type :=
| condition
| operator
| value.

Definition BlockKind_eqb (a b : BlockKind) : bool :=
  match a, b with
  | condition, condition | operator, operator | value, value => true
  | _, _ => false
  end.

(** JSON values, for [properties.parameters] and for what [JSON.parse]
    returns. Numbers are integers. *)
Inductive Json : Type :=
| JNull
| JBool (b : bool)
| JNum (z : Z)
| JStr (s : string)
| JArr (items : list Json)
| JObj (fields : list (string * Json)).

(** Truthiness of a JSON value. *)
Definition Json_truthy (j : Json) : bool :=
  match j with
  | JNull => false
  | JBool b => b
  | JNum z => JS.truthy_Z z
  | JStr s => JS.truthy_string s
  | JArr _ | JObj _ => true
  end.

(** Modelled from the spec: the declaration of [ReturnValueTest] in
    ../../types/taco, which is not among the sources. Its value is what
    the compilers put there: a number (the time condition's default [0],
    or the result of [parseInt], which may be [NaN]), a string (the
    default ['0'] of the rpc and contract conditions), or the double
    returned by [parseFloat], kept as the text it was read from. *)
Inductive RvValue : Type :=
| RvNum (n : JS.number)
| RvStr (s : string)
| RvFloat (text : string).

Record ReturnValueTest : Type := mkReturnValueTest {
  rv_comparator : string;
  rv_value : RvValue
}.

(** Modelled from the spec: the declaration of [Block.properties] in
    ./BlockTypes, which is not among the sources. The entries are those
    the compilers and handlers read or write, with the types that their
    casts give them. *)
Record Properties : Type := mkProperties {
  prop_operator : option string;
  prop_conditionType : option string;
  prop_method : option string;
  prop_parameters : option (list Json);
  prop_standardContractType : option string;
  prop_returnValueTest : option ReturnValueTest;
  prop_maxInputs : option Z;
  prop_parameterCount : option Z;
  prop_canAddParameters : option bool
}.

(** The empty object [{}]. *)
Definition no_properties : Properties :=
  mkProperties None None None None None None None None None.

(** Modelled from the spec: the declarations of [Block] and [BlockInput]
    in ./BlockTypes, which is not among the sources. The fields are those
    of section 3 of the specification and of the objects the handlers
    build; a slot owns its connected block. *)
Inductive Block : Type :=
| mkBlock (id : string) (type : BlockKind) (category : option string)
          (label : option string) (inputs : option (list BlockInput))
          (properties : option Properties) (value : option string)
          (isTemplate : option bool)
with BlockInput : Type :=
| mkInput (id : string) (type : list BlockKind) (label : option string)
          (value : option string) (comparator : option string)
          (inputType : option string) (connected : option Block).

Definition block_id (b : Block) : string :=
  let '(mkBlock id _ _ _ _ _ _ _) := b in id.
Definition block_type (b : Block) : BlockKind :=
  let '(mkBlock _ t _ _ _ _ _ _) := b in t.
Definition block_category (b : Block) : option string :=
  let '(mkBlock _ _ c _ _ _ _ _) := b in c.
Definition block_label (b : Block) : option string :=
  let '(mkBlock _ _ _ l _ _ _ _) := b in l.
Definition block_inputs (b : Block) : option (list BlockInput) :=
  let '(mkBlock _ _ _ _ i _ _ _) := b in i.
Definition block_properties (b : Block) : option Properties :=
  let '(mkBlock _ _ _ _ _ p _ _) := b in p.
Definition block_value (b : Block) : option string :=
  let '(mkBlock _ _ _ _ _ _ v _) := b in v.
Definition block_isTemplate (b : Block) : option bool :=
  let '(mkBlock _ _ _ _ _ _ _ t) := b in t.

Definition input_id (i : BlockInput) : string :=
  let '(mkInput id _ _ _ _ _ _) := i in id.
Definition input_type (i : BlockInput) : list BlockKind :=
  let '(mkInput _ t _ _ _ _ _) := i in t.
Definition input_label (i : BlockInput) : option string :=
  let '(mkInput _ _ l _ _ _ _) := i in l.
Definition input_value (i : BlockInput) : option string :=
  let '(mkInput _ _ _ v _ _ _) := i in v.
Definition input_comparator (i : BlockInput) : option string :=
  let '(mkInput _ _ _ _ c _ _) := i in c.
Definition input_inputType (i : BlockInput) : option string :=
  let '(mkInput _ _ _ _ _ t _) := i in t.
Definition input_connected (i : BlockInput) : option Block :=
  let '(mkInput _ _ _ _ _ _ c) := i in c.

(** Field updates ([x.f = v] on the copy). *)
Definition set_inputs (b : Block) (l : option (list BlockInput)) : Block :=
  let '(mkBlock id t c lb _ p v tp) := b in mkBlock id t c lb l p v tp.
Definition set_properties (b : Block) (p : option Properties) : Block :=
  let '(mkBlock id t c lb i _ v tp) := b in mkBlock id t c lb i p v tp.
Definition set_isTemplate (b : Block) (tp : option bool) : Block :=
  let '(mkBlock id t c lb i p v _) := b in mkBlock id t c lb i p v tp.

Definition set_value (i : BlockInput) (v : option string) : BlockInput :=
  let '(mkInput id t l _ c it cn) := i in mkInput id t l v c it cn.
Definition set_label (i : BlockInput) (l : option string) : BlockInput :=
  let '(mkInput id t _ v c it cn) := i in mkInput id t l v c it cn.
Definition set_comparator (i : BlockInput) (c : option string) : BlockInput :=
  let '(mkInput id t l v _ it cn) := i in mkInput id t l v c it cn.
Definition set_inputType (i : BlockInput) (it : option string) : BlockInput :=
  let '(mkInput id t l v c _ cn) := i in mkInput id t l v c it cn.
Definition set_connected (i : BlockInput) (cn : option Block) : BlockInput :=
  let '(mkInput id t l v c it _) := i in mkInput id t l v c it cn.

(** [block.inputs?.…]: an absent list behaves as the empty one wherever
    the source chains with [?.]. *)
Definition inputs_of (b : Block) : list BlockInput :=
  match block_inputs b with
  | Some l => l
  | None => []
  end.

(** [block.properties?.f]. *)
Definition prop {A : Type} (f : Properties -> option A) (b : Block) : option A :=
  match block_properties b with
  | Some p => f p
  | None => None
  end.

(** [inputs.find(input => input.id === id)]: the first slot of that id. *)
Definition has_id (id : string) (i : BlockInput) : bool :=
  String.eqb (input_id i) id.

Definition find_input (id : string) (l : list BlockInput) : option BlockInput :=
  find (has_id id) l.

(** The mutation of the object returned by [find], seen on the list: the
    first element that satisfies [p] is replaced by its image. *)
Fixpoint update_first {A : Type} (p : A -> bool) (f : A -> A) (l : list A) : list A :=
  match l with
  | [] => []
  | x :: r => if p x then f x :: r else x :: update_first p f r
  end.

(** [if (input.connected)]: a block is always truthy. *)
Definition is_connected (i : BlockInput) : bool :=
  match input_connected i with
  | Some _ => true
  | None => false
  end.

(** ** Conditions (types/taco) *)

(** Modelled from the spec: the declaration of [TacoCondition] in
    ../../types/taco, which is not among the sources: the four variants
    of section 3 of the specification, with the fields the compilers
    fill. The [conditionType] tag is the constructor. *)
Inductive TacoCondition : Type :=
| TimeCondition (chain : Z) (method : string) (returnValueTest : ReturnValueTest)
| RpcCondition (chain : Z) (method : string) (parameters : Json)
               (returnValueTest : ReturnValueTest)
| ContractCondition (chain : Z) (contractAddress : string) (method : string)
                    (parameters : Json) (standardContractType : option string)
                    (returnValueTest : ReturnValueTest)
| CompoundCondition (operator : string) (operands : list TacoCondition).

(** [[1, 137, 80002, 11155111].includes(chainId)]. *)
Definition valid_chains : list Z := [1; 137; 80002; 11155111].

Definition isValidChainId (chainId : Z) : bool :=
  existsb (Z.eqb chainId) valid_chains.

Definition sepolia : Z := 11155111.

(** The fixed parameters of the balance condition. *)
Definition userAddress_latest : Json := JArr [JStr ":userAddress"; JStr "latest"].

(** ** The first compiler: [blockToJson] *)

Module BlockToJson.

(** [parseChainId]: the parsed chain when it is valid, Sepolia otherwise. *)
Definition parseChainId (value : string) : Z :=
  match JS.parseInt value with
  | JS.Num parsed => if isValidChainId parsed then parsed else sepolia
  | JS.NaN => sepolia
  end.

(** "Add chain ID if present": the [chain] slot overrides the default
    when its value is truthy. *)
Definition chain_of (l : list BlockInput) : Z :=
  match find_input "chain" l with
  | Some chainInput =>
      match input_value chainInput with
      | Some v => if JS.truthy_string v then parseChainId v else sepolia
      | None => sepolia
      end
  | None => sepolia
  end.

(** The test read from a numeric slot ([minTimestamp], [minBalance],
    [tokenAmount]) when its value is truthy. *)
Definition numeric_test (id : string) (l : list BlockInput) : option ReturnValueTest :=
  match find_input id l with
  | Some input =>
      match input_value input with
      | Some v =>
          if JS.truthy_string v
          then Some (mkReturnValueTest (JS.or_else (input_comparator input) ">=")
                                       (RvNum (JS.parseInt v)))
          else None
      | None => None
      end
  | None => None
  end.

Definition timeCondition (block : Block) : TacoCondition :=
  let l := inputs_of block in
  TimeCondition (chain_of l) "blocktime"
    (match numeric_test "minTimestamp" l with
     | Some t => t
     | None => mkReturnValueTest ">=" (RvNum (JS.Num 0))
     end).

Definition rpcCondition (block : Block) : TacoCondition :=
  let l := inputs_of block in
  RpcCondition (chain_of l)
    (JS.or_else (prop prop_method block) "eth_getBalance")
    (match prop prop_parameters block with
     | Some ps => JArr ps
     | None => userAddress_latest
     end)
    (match numeric_test "minBalance" l with
     | Some t => t
     | None => mkReturnValueTest ">=" (RvStr "0")
     end).

Definition contractCondition (block : Block) : TacoCondition :=
  let l := inputs_of block in
  ContractCondition (chain_of l)
    (match find_input "contractAddress" l with
     | Some contractInput => JS.or_else (input_value contractInput) ""
     | None => ""
     end)
    (JS.or_else (prop prop_method block) "balanceOf")
    (match prop prop_parameters block with
     | Some ps => JArr ps
     | None => JArr [JStr ":userAddress"]
     end)
    (match prop prop_standardContractType block with
     | Some s => if JS.truthy_string s then Some s else None
     | None => None
     end)
    (match numeric_test "tokenAmount" l with
     | Some t => t
     | None =>
         match prop prop_returnValueTest block with
         | Some t => t
         | None => mkReturnValueTest ">=" (RvStr "0")
         end
     end).

(** The condition branch of [blockToJson]. *)
Definition conditionToJson (block : Block) : option TacoCondition :=
  match prop prop_conditionType block with
  | Some conditionType =>
      if negb (JS.truthy_string conditionType) then None
      else if String.eqb conditionType "time" then Some (timeCondition block)
      else if String.eqb conditionType "rpc" then Some (rpcCondition block)
      else if String.eqb conditionType "contract" then Some (contractCondition block)
      else None
  | None => None
  end.

(** [blockToJson]. The operands of an operator are the conditions of its
    connected blocks, in slot order, without those that are [null]. *)
Fixpoint blockToJson (block : Block) : option TacoCondition :=
  match block with
  | mkBlock _ operator _ _ inputs properties _ _ =>
      match inputs with
      | Some l =>
          let operands :=
            flat_map (fun input =>
                        match input with
                        | mkInput _ _ _ _ _ _ (Some child) =>
                            match blockToJson child with
                            | Some c => [c]
                            | None => []
                            end
                        | mkInput _ _ _ _ _ _ None => []
                        end) l in
          match operands with
          | [] => None
          | _ :: _ =>
              Some (CompoundCondition
                      (JS.or_else (match properties with
                                   | Some p => prop_operator p
                                   | None => None
                                   end) "and")
                      operands)
          end
      | None => None
      end
  | mkBlock _ condition _ _ _ _ _ _ => conditionToJson block
  | mkBlock _ value _ _ _ _ _ _ => None
  end.

(** [input.connected?.id === block.id]. *)
Definition connects (block : Block) (input : BlockInput) : bool :=
  match input_connected input with
  | Some c => String.eqb (block_id c) (block_id block)
  | None => false
  end.

(** The root: the first condition or operator block that no operator
    block of the workspace holds in a slot. *)
Definition is_root (blocks : list Block) (block : Block) : bool :=
  (BlockKind_eqb (block_type block) condition
   || BlockKind_eqb (block_type block) operator)
  && negb (existsb (fun b => BlockKind_eqb (block_type b) operator
                             && existsb (connects block) (inputs_of b)) blocks).

Definition blocksToJson (blocks : list Block) : option TacoCondition :=
  match blocks with
  | [] => None
  | _ :: _ =>
      match find (is_root blocks) blocks with
      | Some rootBlock => blockToJson rootBlock
      | None => None
      end
  end.

End BlockToJson.

(** ** The second compiler: [processBlock] *)

(** What a call does: it returns, or it throws. [processBlock] throws a
    [TypeError] when [builder.parameters.map] is reached and the parsed
    [parameters] are no array. *)
Inductive Outcome (A : Type) : Type :=
| Returned (a : A)
| Thrown (error : string).

Arguments Thrown {A} error.

Definition bind {A B : Type} (m : Outcome A) (k : A -> Outcome B) : Outcome B :=
  match m with
  | Returned a => k a
  | Thrown e => Thrown e
  end.

Notation "x <- m ;; k" := (bind m (fun x => k))
  (at level 61, m at next level, right associativity).

Module ProcessBlock.

(** [parseFloat(s)] is [NaN] unless [s], after white space and a sign,
    starts with a digit, with a dot and a digit, or with [Infinity]. *)
Definition is_digit (c : ascii) : bool :=
  let n := nat_of_ascii c in ((48 <=? n) && (n <=? 57))%nat.

Definition parseFloat_isNaN (s : string) : bool :=
  let t := JS.trimStart s in
  let u := match t with
           | String "-" r => r
           | String "+" r => r
           | _ => t
           end in
  match u with
  | String c r =>
      if is_digit c then false
      else if Ascii.eqb c "." then
             match r with
             | String d _ => negb (is_digit d)
             | EmptyString => true
             end
      else negb (JS.startsWith "Infinity" u)
  | EmptyString => true
  end.

Record ConditionBuilder : Type := mkBuilder {
  conditionType : option string;
  chain : option Z;
  contractAddress : option string;
  method : option string;
  parameters : option Json;
  returnValueTest : option ReturnValueTest;
  functionAbi : option Json
}.

(** [const builder: ConditionBuilder = {}]. *)
Definition empty_builder : ConditionBuilder :=
  mkBuilder None None None None None None None.

Definition with_chain (b : ConditionBuilder) (c : Z) : ConditionBuilder :=
  mkBuilder (conditionType b) (Some c) (contractAddress b) (method b)
            (parameters b) (returnValueTest b) (functionAbi b).
Definition with_contractAddress (b : ConditionBuilder) (a : string) : ConditionBuilder :=
  mkBuilder (conditionType b) (chain b) (Some a) (method b)
            (parameters b) (returnValueTest b) (functionAbi b).
Definition with_method (b : ConditionBuilder) (m : string) : ConditionBuilder :=
  mkBuilder (conditionType b) (chain b) (contractAddress b) (Some m)
            (parameters b) (returnValueTest b) (functionAbi b).
Definition with_parameters (b : ConditionBuilder) (p : Json) : ConditionBuilder :=
  mkBuilder (conditionType b) (chain b) (contractAddress b) (method b)
            (Some p) (returnValueTest b) (functionAbi b).
Definition with_returnValueTest (b : ConditionBuilder) (t : ReturnValueTest)
  : ConditionBuilder :=
  mkBuilder (conditionType b) (chain b) (contractAddress b) (method b)
            (parameters b) (Some t) (functionAbi b).
Definition with_functionAbi (b : ConditionBuilder) (a : Json) : ConditionBuilder :=
  mkBuilder (conditionType b) (chain b) (contractAddress b) (method b)
            (parameters b) (returnValueTest b) (Some a).
Definition with_time (b : ConditionBuilder) (t : ReturnValueTest) : ConditionBuilder :=
  mkBuilder (Some "time") (chain b) (contractAddress b) (Some "blocktime")
            (parameters b) (Some t) (functionAbi b).

(** [block.properties?.method === 'eth_getBalance']. *)
Definition is_eth_getBalance (block : Block) : bool :=
  match prop prop_method block with
  | Some m => String.eqb m "eth_getBalance"
  | None => false
  end.

(** [input.value || input.connected?.value], when truthy. *)
Definition slot_text (input : BlockInput) : option string :=
  let v := if JS.truthy (input_value input) then input_value input
           else match input_connected input with
                | Some c => block_value c
                | None => None
                end in
  if JS.truthy v then v else None.

Section WithJSON.

(** [JSON.parse], [None] where it throws a [SyntaxError]. *)
Variable JSON_parse : string -> option Json.

(** The [':tokenId'] placeholder is replaced by the slot's text. *)
Definition fill_tokenId (v : string) (p : Json) : Json :=
  match p with
  | JStr s => if String.eqb s ":tokenId" then JStr v else p
  | _ => p
  end.

(** The body of the [forEach] over the inputs, for one input. *)
Definition step (block : Block) (builder : ConditionBuilder) (input : BlockInput)
  : Outcome ConditionBuilder :=
  match slot_text input with
  | None => Returned builder
  | Some v =>
      let id := input_id input in
      if String.eqb id "contractAddress" then
        Returned (with_contractAddress builder (JS.trim v))
      else if String.eqb id "chain" then
        match JS.parseInt v with
        | JS.Num chainId =>
            if isValidChainId chainId
            then Returned (with_chain builder chainId)
            else Returned builder
        | JS.NaN => Returned builder
        end
      else if String.eqb id "minBalance" then
        if parseFloat_isNaN v then Returned builder
        else Returned (with_returnValueTest builder
                         (mkReturnValueTest
                            (if is_eth_getBalance block then ">=" else ">")
                            (RvFloat v)))
      else if String.eqb id "timestamp" || String.eqb id "minTimestamp" then
        match JS.parseInt v with
        | JS.Num timestamp =>
            Returned (with_time builder
                        (mkReturnValueTest ">=" (RvNum (JS.Num timestamp))))
        | JS.NaN => Returned builder
        end
      else if String.eqb id "tokenId" then
        match parameters builder with
        | Some (JArr ps) =>
            Returned (with_parameters builder (JArr (map (fill_tokenId v) ps)))
        | Some p =>
            if Json_truthy p
            then Thrown "TypeError: builder.parameters.map is not a function"
            else Returned (with_parameters builder (JArr []))
        | None => Returned (with_parameters builder (JArr []))
        end
      else if String.eqb id "method" then
        Returned (with_method builder v)
      else if String.eqb id "parameters" then
        match JSON_parse v with
        | Some p => Returned (with_parameters builder p)
        | None => Returned builder
        end
      else if String.eqb id "functionAbi" then
        match JSON_parse v with
        | Some a => Returned (with_functionAbi builder a)
        | None => Returned builder
        end
      else Returned builder
  end.

(** [block.inputs?.forEach(...)], from the builder built so far. *)
Fixpoint forEach_input (block : Block) (l : list BlockInput)
         (builder : ConditionBuilder) : Outcome ConditionBuilder :=
  match l with
  | [] => Returned builder
  | input :: r =>
      b <- step block builder input ;; forEach_input block r b
  end.

(** The three emissions after the loop, in the order of the source. *)
Definition emit (block : Block) (builder : ConditionBuilder) : option TacoCondition :=
  match chain builder with
  | Some c =>
      if is_eth_getBalance block && JS.truthy_Z c then
        Some (RpcCondition c "eth_getBalance" userAddress_latest
                (match returnValueTest builder with
                 | Some t => t
                 | None => mkReturnValueTest ">=" (RvNum (JS.Num 0))
                 end))
      else if (match prop prop_conditionType block with
               | Some t => String.eqb t "contract"
               | None => false
               end) && JS.truthy_Z c && JS.truthy (method builder) then
        Some (ContractCondition c
                (JS.or_else (contractAddress builder) "")
                (JS.or_else (method builder) "") (* truthy here *)
                (match parameters builder with
                 | Some p => if Json_truthy p then p else JArr []
                 | None => JArr []
                 end)
                (prop prop_standardContractType block)
                (match returnValueTest builder with
                 | Some t => t
                 | None => mkReturnValueTest ">" (RvNum (JS.Num 0))
                 end))
      else if (match conditionType builder with
               | Some t => String.eqb t "time"
               | None => false
               end) && JS.truthy_Z c then
        Some (TimeCondition c "blocktime"
                (match returnValueTest builder with
                 | Some t => t
                 | None => mkReturnValueTest ">=" (RvNum (JS.Num 0))
                 end))
      else None
  | None => None
  end.

(** "Process condition blocks": everything after the operator branch. *)
Definition processCondition (block : Block) : Outcome (option TacoCondition) :=
  builder <- forEach_input block (inputs_of block) empty_builder ;;
  Returned (emit block builder).

(** [connectedConditions.map(processBlock).filter(c => c !== null)]
    over the connected blocks of the slots, in slot order; a throw of
    one call ends the whole. *)
Fixpoint each_connected (process : Block -> Outcome (option TacoCondition))
         (l : list BlockInput) : Outcome (list TacoCondition) :=
  match l with
  | [] => Returned []
  | input :: r =>
      match input_connected input with
      | Some connectedBlock =>
          c <- process connectedBlock ;;
          cs <- each_connected process r ;;
          Returned (match c with
                    | Some c' => c' :: cs
                    | None => cs
                    end)
      | None => each_connected process r
      end
  end.

(** [processBlock]. An operator returns a compound condition over the
    conditions of its connected blocks that are not [null]. *)
Fixpoint processBlock (block : Block) : Outcome (option TacoCondition) :=
  match block with
  | mkBlock _ _ _ _ _ None _ _ => Returned None
  | mkBlock _ operator _ _ inputs (Some properties) _ _ =>
      operands <-
        match inputs with
        | Some l => each_connected processBlock l
        | None => Returned []
        end ;;
      Returned (Some (CompoundCondition
                        (JS.or_else (prop_operator properties) "and")
                        operands))
  | mkBlock _ _ _ _ _ (Some _) _ _ => processCondition block
  end.

(** [input.connected?.id === block.id]. *)
Definition connects (block : Block) (input : BlockInput) : bool :=
  match input_connected input with
  | Some c => String.eqb (block_id c) (block_id block)
  | None => false
  end.

(** "Process only top-level blocks": those that no block of the
    workspace holds in a slot. *)
Definition is_top_level (blocks : list Block) (block : Block) : bool :=
  negb (existsb (fun b => existsb (connects block) (inputs_of b)) blocks).

(** [blocks.map(processBlock)] where a throw ends the whole call. *)
Fixpoint map_processBlock (l : list Block) : Outcome (list (option TacoCondition)) :=
  match l with
  | [] => Returned []
  | block :: r =>
      c <- processBlock block ;;
      cs <- map_processBlock r ;;
      Returned (c :: cs)
  end.

(** [.filter(condition => condition !== null)]. *)
Definition not_null (l : list (option TacoCondition)) : list TacoCondition :=
  flat_map (fun c => match c with Some c' => [c'] | None => [] end) l.

Definition blocksToJson (blocks : list Block) : Outcome (option TacoCondition) :=
  let topLevelBlocks := filter (is_top_level blocks) blocks in
  match topLevelBlocks with
  | [] => Returned None
  | [block] => processBlock block
  | _ =>
      results <- map_processBlock topLevelBlocks ;;
      match not_null results with
      | [] => Returned None
      | [c] => Returned (Some c)
      | conditions => Returned (Some (CompoundCondition "and" conditions))
      end
  end.

End WithJSON.

End ProcessBlock.

(** ** The chain check of the encryption panel *)

Module EncryptionPanel.

Definition validChains : list Z := [137; 80002; 11155111; 1].

(** [validChains.join(', ')]. *)
Fixpoint join (sep : string) (l : list string) : string :=
  match l with
  | [] => ""
  | [x] => x
  | x :: r => (x ++ sep ++ join sep r)%string
  end.

Definition invalid_chain_message : string :=
  ("Invalid chain ID. Must be one of: "
     ++ join ", " (map JS.string_of_Z validChains))%string.

(** [getValidChainId]: the chain when it is one of the valid ones, an
    [Error] that lists them otherwise. *)
Definition getValidChainId (chain : Z) : Outcome Z :=
  match find (fun id => Z.eqb id chain) validChains with
  | Some chainId =>
      if JS.truthy_Z chainId then Returned chainId
      else Thrown invalid_chain_message
  | None => Thrown invalid_chain_message
  end.

End EncryptionPanel.

(** ** The editor: the handlers of [DraggableBlock] *)

Module DraggableBlock.

(** [inputs?.[inputs.length - 1]]. *)
Fixpoint last_input (l : list BlockInput) : option BlockInput :=
  match l with
  | [] => None
  | [x] => Some x
  | _ :: r => last_input r
  end.

(** [inputs.filter(input => input.connected).length]. *)
Definition connected_count (l : list BlockInput) : nat :=
  List.length (filter is_connected l).

(** The slot pushed for the next operand; [now] is [Date.now()]. *)
Definition growth_slot (now : Z) : BlockInput :=
  mkInput ("condition-" ++ JS.string_of_Z now) [condition; operator]
          (Some "Add Condition") None None None None.

(** The copy of the dragged item that gets connected: no template any
    more, every input with a value and an input type. *)
Definition dropped (item : Block) : Block :=
  let droppedBlock := set_isTemplate item (Some false) in
  match block_inputs droppedBlock with
  | Some l =>
      set_inputs droppedBlock
        (Some (map (fun input =>
                      set_inputType
                        (set_value input (Some (JS.or_else (input_value input) "")))
                        (Some (JS.or_else (input_inputType input) "text")))
                   l))
  | None => droppedBlock
  end.

(** [!maxInputs || connectedCount < maxInputs]. *)
Definition below_maxInputs (maxInputs : option Z) (connectedCount : nat) : bool :=
  match maxInputs with
  | Some m => negb (JS.truthy_Z m) || (Z.of_nat connectedCount <? m)
  | None => true
  end.

(** [lastInput?.id === inputId]. *)
Definition last_is (inputId : string) (l : list BlockInput) : bool :=
  match last_input l with
  | Some lastInput => String.eqb (input_id lastInput) inputId
  | None => false
  end.

(** The push of a new slot after a drop into an operator's last slot. *)
Definition grow (owner : Block) (inputId : string) (now : Z) (l : list BlockInput)
  : list BlockInput :=
  if last_is inputId l
     && below_maxInputs (prop prop_maxInputs owner) (connected_count l)
  then l ++ [growth_slot now]
  else l.

(** [`Condition ${n}`]. *)
Definition condition_label (n : nat) : string :=
  ("Condition " ++ JS.string_of_Z (Z.of_nat n))%string.

(** [nonEmptyInputs.map((input, index) => ({...input, label: ...}))],
    from index [index]. *)
Fixpoint renumber (index : nat) (l : list BlockInput) : list BlockInput :=
  match l with
  | [] => []
  | input :: r =>
      set_label input (Some (condition_label (index + 1))) :: renumber (S index) r
  end.

(** [inputs.findIndex(p)]. *)
Fixpoint findIndex {A : Type} (p : A -> bool) (l : list A) : option nat :=
  match l with
  | [] => None
  | x :: r => if p x then Some O else option_map S (findIndex p r)
  end.

(** [inputs.splice(index, 0, x)]. *)
Definition splice_in {A : Type} (index : nat) (x : A) (l : list A) : list A :=
  firstn index l ++ x :: skipn index l.

(** [input.id.startsWith('param_') &&
     parseInt(input.id.split('_')[1]) === n]. *)
Definition is_param (n : Z) (input : BlockInput) : bool :=
  JS.startsWith "param_" (input_id input)
  && match nth_error (JS.split_underscore (input_id input)) 1 with
     | Some suffix =>
         match JS.parseInt suffix with
         | JS.Num k => Z.eqb k n
         | JS.NaN => false
         end
     | None => false
     end.

Definition with_parameterCount (p : Properties) (n : Z) : Properties :=
  mkProperties (prop_operator p) (prop_conditionType p) (prop_method p)
               (prop_parameters p) (prop_standardContractType p)
               (prop_returnValueTest p) (prop_maxInputs p) (Some n)
               (prop_canAddParameters p).

(** Recursive helper of [handleValueChange]: follows [path] through
    connected blocks and sets the value of the slot [targetInputId]
    there. [None] is the source's [false]: nothing was changed. *)
Fixpoint findAndUpdateInput (value : string) (currentBlock : Block)
         (targetInputId : string) (path : list string) : option Block :=
  match path with
  | [] =>
      match find_input targetInputId (inputs_of currentBlock) with
      | Some _ =>
          Some (set_inputs currentBlock
                  (Some (update_first (has_id targetInputId)
                           (fun directInput => set_value directInput (Some value))
                           (inputs_of currentBlock))))
      | None => None
      end
  | nextInputId :: rest =>
      match find_input nextInputId (inputs_of currentBlock) with
      | Some nextInput =>
          match input_connected nextInput with
          | Some child =>
              match findAndUpdateInput value child targetInputId rest with
              | Some child' =>
                  Some (set_inputs currentBlock
                          (Some (update_first (has_id nextInputId)
                                   (fun i => set_connected i (Some child'))
                                   (inputs_of currentBlock))))
              | None => None
              end
          | None => None
          end
      | None => None
      end
  end.

Section Component.

(** The props: the block shown, whether it lies in the workspace, and
    whether an [onBlockUpdate] callback was given. A handler returns
    the block it passes to [onBlockUpdate], [None] when it returns
    without calling it. *)
Variable block : Block.
Variable isWorkspaceBlock : bool.
Variable onBlockUpdate : bool.

(** The slot [inputId] of the copy gets the value [v]. *)
Definition set_slot_value (owner : Block) (inputId : string) (v : option string)
  : option Block :=
  match find_input inputId (inputs_of owner) with
  | Some _ =>
      Some (set_inputs owner
              (Some (update_first (has_id inputId)
                       (fun input => set_value input v) (inputs_of owner))))
  | None => None
  end.

(** What is done inside the block connected at [parentInputId]. *)
Definition in_connected (parentInputId : string) (f : Block -> option Block)
  : option Block :=
  match find_input parentInputId (inputs_of block) with
  | Some parentInput =>
      match input_connected parentInput with
      | Some connectedBlock =>
          match f connectedBlock with
          | Some connectedBlock' =>
              Some (set_inputs block
                      (Some (update_first (has_id parentInputId)
                               (fun i => set_connected i (Some connectedBlock'))
                               (inputs_of block))))
          | None => None
          end
      | None => None
      end
  | None => None
  end.

(** A block dropped into the slot [inputId] of a connected block. *)
Definition drop_nested (inputId : string) (item : Block) (now : Z)
           (connectedBlock : Block) : option Block :=
  match find_input inputId (inputs_of connectedBlock) with
  | Some _ =>
      let l := update_first (has_id inputId)
                 (fun targetInput => set_connected targetInput (Some (dropped item)))
                 (inputs_of connectedBlock) in
      Some (set_inputs connectedBlock
              (Some (if BlockKind_eqb (block_type connectedBlock) operator
                     then grow connectedBlock inputId now l
                     else l)))
  | None => None
  end.

(** A block dropped into the slot [inputId] of the operator itself. *)
Definition drop_operator (inputId : string) (item : Block) (now : Z) : option Block :=
  match find_input inputId (inputs_of block) with
  | Some _ =>
      let l := update_first (has_id inputId)
                 (fun input => set_connected input (Some (dropped item)))
                 (inputs_of block) in
      let connectedCount := connected_count l in
      let l' := update_first (has_id inputId)
                  (fun input => set_label input (Some (condition_label connectedCount)))
                  l in
      Some (set_inputs block (Some (grow block inputId now l')))
  | None => None
  end.

Definition handleDrop (inputId : string) (item : Block)
           (parentInputId : option string) (now : Z) : option Block :=
  if negb onBlockUpdate then None
  else
    let is_value := BlockKind_eqb (block_type item) value in
    let value_drop :=
      if is_value then
        match parentInputId with
        | Some p =>
            if JS.truthy_string p
            then in_connected p (fun c => set_slot_value c inputId (block_value item))
            else set_slot_value block inputId (block_value item)
        | None => set_slot_value block inputId (block_value item)
        end
      else None in
    match value_drop with
    | Some updatedBlock => Some updatedBlock
    | None =>
        if JS.truthy parentInputId then
          match parentInputId with
          | Some p => in_connected p (drop_nested inputId item now)
          | None => None
          end
        else if BlockKind_eqb (block_type block) operator then
          drop_operator inputId item now
        else if BlockKind_eqb (block_type block) condition then
          if is_value then set_slot_value block inputId (block_value item)
          else None
        else None
    end.

Definition handleValueChange (inputId : string) (value : string)
           (parentPath : option (list string)) : option Block :=
  if negb onBlockUpdate || negb isWorkspaceBlock then None
  else
    match parentPath with
    | Some (p :: path) => findAndUpdateInput value block inputId (p :: path)
    | _ => set_slot_value block inputId (Some value)
    end.

Definition handleComparatorChange (inputId : string) (comparator : string)
  : option Block :=
  if negb onBlockUpdate || negb isWorkspaceBlock then None
  else
    match find_input inputId (inputs_of block) with
    | Some _ =>
        Some (set_inputs block
                (Some (update_first (has_id inputId)
                         (fun input => set_comparator input (Some comparator))
                         (inputs_of block))))
    | None => None
    end.

Definition handleRemoveCondition (inputId : string) (now : Z) : option Block :=
  if negb onBlockUpdate then None
  else
    match block_type block, block_inputs block with
    | operator, Some l =>
        let cleared := update_first (has_id inputId)
                         (fun targetInput => set_connected targetInput None) l in
        let nonEmptyInputs := filter is_connected cleared in
        Some (set_inputs block
                (Some (renumber 0 nonEmptyInputs ++ [growth_slot now])))
    | _, _ => Some block
    end.

(** [(properties?.parameterCount as number) || 1]. *)
Definition paramCount : Z :=
  match prop prop_parameterCount block with
  | Some n => if JS.truthy_Z n then n else 1
  | None => 1
  end.

Definition newParam : BlockInput :=
  mkInput ("param_" ++ JS.string_of_Z paramCount) [value]
          (Some ("Parameter " ++ JS.string_of_Z (paramCount + 1))%string)
          None None (Some "text") None.

(** [handleAddParameter]; [inputs.findIndex] on a block without
    inputs throws. *)
Definition handleAddParameter : Outcome (option Block) :=
  if negb onBlockUpdate || negb isWorkspaceBlock then Returned None
  else
    match block_inputs block with
    | None => Thrown "TypeError: updatedBlock.inputs is undefined"
    | Some l =>
        let l' := match findIndex (is_param (paramCount - 1)) l with
                  | Some lastParamIndex => splice_in (lastParamIndex + 1) newParam l
                  | None => l ++ [newParam]
                  end in
        let properties := match block_properties block with
                          | Some p => p
                          | None => no_properties
                          end in
        Returned (Some (set_properties (set_inputs block (Some l'))
                          (Some (with_parameterCount properties (paramCount + 1)))))
    end.

End Component.

End DraggableBlock.

(** ** Vocabulary of the statements *)

(** The value of the first slot of that id, [""] when there is no such
    slot or it holds no value. *)
Definition slot_value (id : string) (block : Block) : string :=
  match find_input id (inputs_of block) with
  | Some input => JS.or_else (input_value input) ""
  | None => ""
  end.

(** The comparator of the first slot of that id. *)
Definition slot_comparator (id : string) (block : Block) : option string :=
  match find_input id (inputs_of block) with
  | Some input => input_comparator input
  | None => None
  end.

(** The text is no number of the allowed chain set. *)
Definition not_a_valid_chain (text : string) : bool :=
  match JS.parseInt text with
  | JS.Num z => negb (isValidChainId z)
  | JS.NaN => true
  end.

(** No [chain] slot of the block carries an allowed chain: every slot of
    that id is empty, or holds a text that is no allowed chain. *)
Definition no_valid_chain (input : BlockInput) : bool :=
  negb (has_id "chain" input)
  || match ProcessBlock.slot_text input with
     | Some v => not_a_valid_chain v
     | None => true
     end.

(** No slot supplies a method to the builder of [processBlock]: the
    [method] slot does, and so does a timestamp slot (['blocktime']). *)
Definition no_method_text (input : BlockInput) : bool :=
  negb (has_id "method" input || has_id "timestamp" input || has_id "minTimestamp" input)
  || match ProcessBlock.slot_text input with
     | Some _ => false
     | None => true
     end.

(** The call yields no condition: it returns [null], or it throws. *)
Definition yields_no_condition (o : Outcome (option TacoCondition)) : Prop :=
  forall c, o <> Returned (Some c).

Definition condition_chain (c : TacoCondition) : option Z :=
  match c with
  | TimeCondition chain _ _ => Some chain
  | RpcCondition chain _ _ _ => Some chain
  | ContractCondition chain _ _ _ _ _ => Some chain
  | CompoundCondition _ _ => None
  end.

(** The block that owns the slot a drop goes to: the block itself, or
    the block connected at [parentInputId]. *)
Definition owner (block : Block) (parentInputId : option string) : option Block :=
  if JS.truthy parentInputId then
    match parentInputId with
    | Some p =>
        match find_input p (inputs_of block) with
        | Some parentInput => input_connected parentInput
        | None => None
        end
    | None => None
    end
  else Some block.

(** No element of the list satisfies the test. *)
Definition none_of {A : Type} (p : A -> bool) (l : list A) : Prop :=
  forallb (fun x => negb (p x)) l = true.

(** Trees that consist of operators only, to any depth. *)
Inductive barren : Block -> Prop :=
| barren_operator : forall block,
    block_type block = operator ->
    (forall input child,
        In input (inputs_of block) ->
        input_connected input = Some child ->
        barren child) ->
    barren block.

(** The number of empty slots at the end of an input list. *)
Fixpoint leading_empty (l : list BlockInput) : nat :=
  match l with
  | input :: r => if is_connected input then O else S (leading_empty r)
  | [] => O
  end.

Definition trailing_empty (l : list BlockInput) : nat := leading_empty (rev l).

(** The [maxInputs] bound is set and the connected slots have reached it. *)
Definition maxInputs_reached (block : Block) (connectedCount : nat) : bool :=
  match prop prop_maxInputs block with
  | Some m => negb (m =? 0) && (m <=? Z.of_nat connectedCount)
  | None => false
  end.

(** [edited path slotId v b b']: [b'] is [b] except for the value of one
    slot, the first slot [slotId] of the block reached from [b] through
    the first slots named by [path]; that value is [v] in [b']. *)
Inductive edited : list string -> string -> option string -> Block -> Block -> Prop :=
| edited_here : forall slotId v b pre s post,
    block_inputs b = Some (pre ++ s :: post) ->
    has_id slotId s = true ->
    none_of (has_id slotId) pre ->
    edited [] slotId v b (set_inputs b (Some (pre ++ set_value s v :: post)))
| edited_below : forall p path slotId v b pre s post child child',
    block_inputs b = Some (pre ++ s :: post) ->
    has_id p s = true ->
    none_of (has_id p) pre ->
    input_connected s = Some child ->
    edited path slotId v child child' ->
    edited (p :: path) slotId v b
           (set_inputs b (Some (pre ++ set_connected s (Some child') :: post))).

(** The tree without its slot values. *)
Fixpoint erase_values (b : Block) : Block :=
  match b with
  | mkBlock id t c lb inputs p v tp =>
      mkBlock id t c lb
        (match inputs with
         | Some l =>
             Some (map (fun i =>
                          match i with
                          | mkInput iid it il _ ic ity (Some child) =>
                              mkInput iid it il None ic ity (Some (erase_values child))
                          | mkInput iid it il _ ic ity None =>
                              mkInput iid it il None ic ity None
                          end) l)
         | None => None
         end) p v tp
  end.

(** The ids of the parameter slots of an input list, in order. *)
Definition is_param_slot (input : BlockInput) : bool :=
  JS.startsWith "param_" (input_id input).

Definition param_ids (l : list BlockInput) : list string :=
  map input_id (filter is_param_slot l).

(** [param_0], ..., [param_<n-1>]. *)
Definition numbered (n : nat) : list string :=
  map (fun k => ("param_" ++ JS.string_of_Z (Z.of_nat k))%string) (seq 0 n).

(** ** Sample blocks *)

Module Sample.

Definition slot (id v : string) : BlockInput :=
  mkInput id [value] (Some id) (Some v) None (Some "text") None.

Definition slot_cmp (id v cmp : string) : BlockInput :=
  mkInput id [value] (Some id) (Some v) (Some cmp) (Some "number") None.

Definition props (conditionType : string) (method : option string)
           (parameters : option (list Json)) : Properties :=
  mkProperties None (Some conditionType) method parameters None None None None None.

Definition cond (id : string) (p : Properties) (l : list BlockInput) : Block :=
  mkBlock id condition (Some "conditions") (Some id) (Some l) (Some p) None (Some false).

Definition op_props (op : string) (maxInputs : option Z) : Properties :=
  mkProperties (Some op) None None None None None maxInputs None None.

Definition empty_slot (id : string) : BlockInput :=
  mkInput id [condition; operator] (Some "Add Condition") None None None None.

Definition full_slot (id : string) (b : Block) : BlockInput :=
  mkInput id [condition; operator] (Some "Condition") None None None (Some b).

Definition oper (id : string) (p : Properties) (l : list BlockInput) : Block :=
  mkBlock id operator (Some "operators") (Some id) (Some l) (Some p) None (Some false).

(** A time block as in scenario A. *)
Definition time_A : Block :=
  cond "time-1" (props "time" None None)
       [slot "chain" "11155111"; slot_cmp "minTimestamp" "1700000000" ">="].

(** A time block with the chain of scenario D. *)
Definition time_999 : Block :=
  cond "time-2" (props "time" None None)
       [slot "chain" "999"; slot_cmp "minTimestamp" "1700000000" ">"].

(** A balance block whose properties carry parameters of their own. *)
Definition rpc_own_parameters : Block :=
  cond "rpc-1" (props "rpc" (Some "eth_getBalance")
                      (Some [JStr ":userAddress"; JStr "0x10"]))
       [slot "chain" "137"; slot_cmp "minBalance" "1" ">="].

(** A balance block with a chain outside the allowed set. *)
Definition rpc_999 : Block :=
  cond "rpc-2" (props "rpc" (Some "eth_getBalance") None)
       [slot "chain" "999"; slot_cmp "minBalance" "1" ">="].

(** A contract block without method and address, as in scenario C. *)
Definition contract_C : Block :=
  cond "contract-1" (props "contract" None None)
       [slot "chain" "1"; slot "contractAddress" ""; slot_cmp "tokenAmount" "5" ">"].

(** An operator that holds the contract block, and one growth slot. *)
Definition and_over_contract_C : Block :=
  oper "and-1" (op_props "and" None)
       [full_slot "condition-1" contract_C; empty_slot "condition-2"].

(** An operator with nothing connected. *)
Definition and_empty : Block :=
  oper "and-2" (op_props "and" None) [empty_slot "condition-1"].

(** An operator that holds only the empty operator. *)
Definition or_over_empty : Block :=
  oper "or-1" (op_props "or" None)
       [full_slot "condition-1" and_empty; empty_slot "condition-2"].

(** An operator bounded to two operands, one connected. *)
Definition and_max2 : Block :=
  oper "and-3" (op_props "and" (Some 2))
       [full_slot "condition-1" time_A; empty_slot "condition-2"].

(** A contract block with two parameter slots. *)
Definition with_params : Block :=
  mkBlock "contract-2" condition None (Some "Custom call")
          (Some [slot "chain" "1"; slot "param_0" "a"; slot "param_1" "b";
                 slot_cmp "expectedValue" "1" "=="])
          (Some (mkProperties None (Some "contract") (Some "f") None None None None
                              (Some 2) (Some true)))
          None (Some false).

(** [JSON.parse] that rejects every text. *)
Definition no_JSON (s : string) : option Json := None.

(** [JSON.parse] on the one text that the samples below hand to it: the
    empty object. *)
Definition JSON_braces (s : string) : option Json :=
  if String.eqb s "{}" then Some (JObj []) else None.

(** A contract block whose [parameters] slot holds an object, not an
    array, and whose [tokenId] slot is filled. *)
Definition contract_braces : Block :=
  cond "contract-4" (props "contract" (Some "ownerOf") None)
       [slot "chain" "1"; slot "contractAddress" "0xabc";
        slot "parameters" "{}"; slot "tokenId" "7"].

(** The same block with a chain outside the allowed set. *)
Definition contract_999_braces : Block :=
  cond "contract-5" (props "contract" (Some "ownerOf") None)
       [slot "chain" "999"; slot "contractAddress" "0xabc";
        slot "parameters" "{}"; slot "tokenId" "7"].

(** A time block on an allowed chain whose comparator is not [">="]. *)
Definition time_after : Block :=
  cond "time-3" (props "time" None None)
       [slot "chain" "137"; slot_cmp "minTimestamp" "1700000000" ">"].

(** A time block on an allowed chain whose [minTimestamp] slot is empty. *)
Definition time_open : Block :=
  cond "time-4" (props "time" None None)
       [slot "chain" "137"; slot_cmp "minTimestamp" "" ">="].


(** An operator with three connected slots and its growth slot. *)
Definition and_three : Block :=
  oper "and-4" (op_props "and" None)
       [full_slot "a" time_A; full_slot "b" time_999; full_slot "c" contract_C;
        empty_slot "d"].

End Sample.

(** ** The rest of the encryption panel: [createCondition] *)

Module CreateCondition.

(** [operands.map(f)] where a throw of one call ends the whole. *)
Fixpoint map_outcome {A B : Type} (f : A -> Outcome B) (l : list A) : Outcome (list B) :=
  match l with
  | [] => Returned []
  | x :: r =>
      y <- f x ;;
      ys <- map_outcome f r ;;
      Returned (y :: ys)
  end.

Section Taco.

(** The condition classes of @nucypher/taco, which is no part of the
    repository: what [new conditions.….XCondition({...})] returns is an
    object of the library, and the constructor may throw. *)
Variable TacoObject : Type.
Variable new_RpcCondition :
  Z -> string -> Json -> ReturnValueTest -> Outcome TacoObject.
Variable new_TimeCondition :
  Z -> string -> ReturnValueTest -> Outcome TacoObject.
Variable new_ContractCondition :
  string -> Z -> string -> Json -> option string -> ReturnValueTest
  -> Outcome TacoObject.
Variable new_CompoundCondition :
  string -> list TacoObject -> Outcome TacoObject.

(** [createCondition]. The chain is checked before the constructor is
    called; a compound creates its operands in order; an rpc condition
    with another method than [eth_getBalance] reaches the final throw. *)
Fixpoint createCondition (conditionData : TacoCondition) : Outcome TacoObject :=
  match conditionData with
  | RpcCondition chain method _ returnValueTest =>
      if String.eqb method "eth_getBalance" then
        validChain <- EncryptionPanel.getValidChainId chain ;;
        new_RpcCondition validChain method userAddress_latest returnValueTest
      else Thrown "Unsupported condition type: rpc"
  | TimeCondition chain _ returnValueTest =>
      validChain <- EncryptionPanel.getValidChainId chain ;;
      new_TimeCondition validChain "blocktime" returnValueTest
  | ContractCondition chain contractAddress method parameters
                      standardContractType returnValueTest =>
      validChain <- EncryptionPanel.getValidChainId chain ;;
      new_ContractCondition contractAddress validChain method parameters
                            standardContractType returnValueTest
  | CompoundCondition op operands =>
      created <- map_outcome createCondition operands ;;
      new_CompoundCondition op created
  end.

End Taco.

End CreateCondition.

(** ** The rest of [DraggableBlock]: the drag item and the child callback *)

Module DraggableBlockRender.

(** The item of [useDrag]: a block of the palette gets a new id from
    [Date.now()] and is a template; a block of the workspace keeps its id. *)
Definition dragItem (block : Block) (isWorkspaceBlock : bool) (now : Z) : Block :=
  mkBlock (if isWorkspaceBlock then block_id block
           else (block_id block ++ "-" ++ JS.string_of_Z now)%string)
          (block_type block) (block_category block) (block_label block)
          (block_inputs block) (block_properties block) (block_value block)
          (Some (negb isWorkspaceBlock)).

(** The [onBlockUpdate] handed to the block shown inside the slot
    [inputId]: the updated child replaces the connected block of the
    first slot of that id, and the result goes to the block's own
    [onBlockUpdate], when there is one. *)
Definition onChildUpdate (block : Block) (onBlockUpdate : bool)
           (inputId : string) (updatedBlock : Block) : option Block :=
  match find_input inputId (inputs_of block) with
  | Some _ =>
      if onBlockUpdate then
        Some (set_inputs block
                (Some (update_first (has_id inputId)
                         (fun targetInput => set_connected targetInput (Some updatedBlock))
                         (inputs_of block))))
      else None
  | None => None
  end.



End DraggableBlockRender.

(** ** Vocabulary of the further statements *)

(** The chains of a condition, those of all its operands included. *)
Fixpoint all_chains (c : TacoCondition) : list Z :=
  match c with
  | TimeCondition chain _ _ => [chain]
  | RpcCondition chain _ _ _ => [chain]
  | ContractCondition chain _ _ _ _ _ => [chain]
  | CompoundCondition _ operands => flat_map all_chains operands
  end.

(** No compound condition, at any depth, is without operands. *)
Fixpoint no_empty_compound (c : TacoCondition) : bool :=
  match c with
  | CompoundCondition _ operands =>
      match operands with
      | [] => false
      | _ :: _ => forallb no_empty_compound operands
      end
  | _ => true
  end.

(** The operands that [blockToJson] computes from an input list. *)
Definition compiled_children (l : list BlockInput) : list TacoCondition :=
  flat_map (fun input =>
              match input with
              | mkInput _ _ _ _ _ _ (Some child) =>
                  match BlockToJson.blockToJson child with
                  | Some c => [c]
                  | None => []
                  end
              | mkInput _ _ _ _ _ _ None => []
              end) l.

(** The compound condition over a list of operands, [null] when empty. *)
Definition compound_of (op : string) (operands : list TacoCondition)
  : option TacoCondition :=
  match operands with
  | [] => None
  | _ :: _ => Some (CompoundCondition op operands)
  end.

(** A condition, when there is one, as a list of operands. *)
Definition operand_list (c : option TacoCondition) : list TacoCondition :=
  match c with
  | Some c' => [c']
  | None => []
  end.

(** What [dropped] does to an input of the item. *)
Definition prepared (input : BlockInput) : BlockInput :=
  set_inputType (set_value input (Some (JS.or_else (input_value input) "")))
                (Some (JS.or_else (input_inputType input) "text")).

(** What [blockToJson] reads of a slot: its value, when truthy, and
    its comparator. *)
Definition read_view (input : BlockInput) : option (string * option string) :=
  match input_value input with
  | Some v => if JS.truthy_string v then Some (v, input_comparator input) else None
  | None => None
  end.

(** What [blockToJson] reads of the slots of an id: the first one. *)
Definition slot_view (id : string) (l : list BlockInput)
  : option (string * option string) :=
  match find_input id l with
  | Some input => read_view input
  | None => None
  end.

(** The return value test of a condition that is no compound. *)
Definition condition_test (c : TacoCondition) : option ReturnValueTest :=
  match c with
  | TimeCondition _ _ t => Some t
  | RpcCondition _ _ _ t => Some t
  | ContractCondition _ _ _ _ _ t => Some t
  | CompoundCondition _ _ => None
  end.

(** The condition types with the slot that holds their numeric test. *)
Definition test_slots : list (string * string) :=
  [("time", "minTimestamp"); ("rpc", "minBalance"); ("contract", "tokenAmount")].

(** The properties that a compiler reads. *)
Definition compiled_properties (b : Block) :=
  (prop prop_operator b, prop prop_conditionType b, prop prop_method b,
   prop prop_parameters b, prop prop_standardContractType b,
   prop prop_returnValueTest b).

Definition has_properties (b : Block) : bool :=
  match block_properties b with
  | Some _ => true
  | None => false
  end.

(** The slot ids that [blockToJson] looks at in a condition block. *)
Definition blockToJson_ids : list string :=
  ["chain"; "minTimestamp"; "minBalance"; "contractAddress"; "tokenAmount"].

(** The slot ids that one of the two compilers looks at. *)
Definition compiled_ids : list string :=
  ["chain"; "minTimestamp"; "minBalance"; "contractAddress"; "tokenAmount";
   "timestamp"; "tokenId"; "method"; "parameters"; "functionAbi"].

(** The slots of an operator are its connected ones, then one empty one. *)
Definition one_growth_slot (l : list BlockInput) : Prop :=
  exists kept g,
    l = kept ++ [g]
    /\ Forall (fun i => is_connected i = true) kept
    /\ is_connected g = false.

(** ** Vocabulary of the editor and workspace statements *)

(** The slot supplies no text to the [tokenId] case of [processBlock]. *)
Definition no_tokenId_text (input : BlockInput) : bool :=
  negb (has_id "tokenId" input)
  || match ProcessBlock.slot_text input with
     | Some _ => false
     | None => true
     end.

(** The text of the first slot of that id in a list of slots, [""] when
    there is no such slot or it holds no value. *)
Definition value_in (id : string) (l : list BlockInput) : string :=
  match find_input id l with
  | Some input => JS.or_else (input_value input) ""
  | None => ""
  end.

(** The slots of a time block as the palette has it: slot ids are unique
    within the block, no slot holds a connected block, and apart from
    [chain] and [minTimestamp] there is no slot that a compiler reads. *)
Definition time_slots (l : list BlockInput) : Prop :=
  NoDup (map input_id l)
  /\ Forall (fun i =>
               input_connected i = None
               /\ (input_id i = "chain" \/ input_id i = "minTimestamp"
                   \/ ~ In (input_id i) compiled_ids)) l.

(** The number of slots that hold a connected block. *)
Fixpoint connected_slots (l : list BlockInput) : nat :=
  match l with
  | [] => O
  | i :: r =>
      match input_connected i with
      | Some _ => S (connected_slots r)
      | None => connected_slots r
      end
  end.

(** The empty slot for the next operand: id [condition-<now>], for
    condition and operator blocks, labelled "Add Condition". *)
Definition empty_growth_slot (now : Z) : BlockInput :=
  mkInput ("condition-" ++ JS.string_of_Z now) [condition; operator]
          (Some "Add Condition") None None None None.

(** The slots that hold a connected block, in their order. *)
Fixpoint still_connected (l : list BlockInput) : list BlockInput :=
  match l with
  | [] => []
  | i :: r =>
      match input_connected i with
      | Some _ => i :: still_connected r
      | None => still_connected r
      end
  end.

(** The slots relabelled "Condition n", "Condition n+1", ...; nothing
    but the label changes. *)
Fixpoint relabel_from (n : nat) (l : list BlockInput) : list BlockInput :=
  match l with
  | [] => []
  | mkInput id type _ v comparator inputType connected :: r =>
      mkInput id type (Some ("Condition " ++ JS.string_of_Z (Z.of_nat n))%string)
              v comparator inputType connected
      :: relabel_from (S n) r
  end.

(** The list in which the first slot of that id holds no connected
    block any more; the list itself when no slot has that id. *)
Fixpoint disconnected (inputId : string) (l : list BlockInput) : list BlockInput :=
  match l with
  | [] => []
  | mkInput id type label v comparator inputType connected :: r =>
      if String.eqb id inputId
      then mkInput id type label v comparator inputType None :: r
      else mkInput id type label v comparator inputType connected
           :: disconnected inputId r
  end.


(** A block is top-level in a workspace when no slot of a block of the
    workspace holds a connected block of its id. *)
Definition top_level (blocks : list Block) (block : Block) : Prop :=
  forall b input child,
    In b blocks ->
    In input (inputs_of b) ->
    input_connected input = Some child ->
    block_id child <> block_id block.

(** [selects P l t]: [t] consists of the elements of [l] that satisfy
    [P], in the order of [l]. *)
Inductive selects {A : Type} (P : A -> Prop) : list A -> list A -> Prop :=
| selects_nil : selects P [] []
| selects_keep : forall x l t, P x -> selects P l t -> selects P (x :: l) (x :: t)
| selects_skip : forall x l t, ~ P x -> selects P l t -> selects P (x :: l) t.

(** * Properties *)

Unset Implicit Arguments.

(** ** Lists: the first element that satisfies a test *)

Section FirstMatch.

Context {A : Type} (p : A -> bool).

Lemma find_split (l : list A) (x : A) :
  find p l = Some x ->
  exists pre post, l = pre ++ x :: post /\ none_of p pre /\ p x = true.
Proof.
  induction l as [|y r IH]; simpl; [discriminate|].
  destruct (p y) eqn:Hy; intros H.
  - injection H as ->. exists [], r. repeat split; assumption.
  - destruct (IH H) as (pre & post & -> & Hpre & Hx).
    exists (y :: pre), post. unfold none_of. simpl. rewrite Hy.
    repeat split; assumption.
Qed.

Lemma find_at (pre post : list A) (x : A) :
  none_of p pre -> p x = true -> find p (pre ++ x :: post) = Some x.
Proof.
  unfold none_of. induction pre as [|y r IH]; simpl; intros Hpre Hx.
  - now rewrite Hx.
  - apply andb_prop in Hpre as [Hy Hr].
    apply negb_true_iff in Hy. rewrite Hy. now apply IH.
Qed.

Lemma update_first_at (f : A -> A) (pre post : list A) (x : A) :
  none_of p pre -> p x = true ->
  update_first p f (pre ++ x :: post) = pre ++ f x :: post.
Proof.
  unfold none_of. induction pre as [|y r IH]; simpl; intros Hpre Hx.
  - now rewrite Hx.
  - apply andb_prop in Hpre as [Hy Hr].
    apply negb_true_iff in Hy. rewrite Hy. f_equal. now apply IH.
Qed.

Lemma update_first_none (f : A -> A) (l : list A) :
  find p l = None -> update_first p f l = l.
Proof.
  induction l as [|y r IH]; simpl; [reflexivity|].
  destruct (p y); [discriminate|]. intros H. f_equal. now apply IH.
Qed.

Lemma none_of_app (l1 l2 : list A) :
  none_of p (l1 ++ l2) <-> none_of p l1 /\ none_of p l2.
Proof.
  unfold none_of. rewrite forallb_app. apply andb_true_iff.
Qed.

End FirstMatch.

Lemma last_input_snoc (l : list BlockInput) (x : BlockInput) :
  DraggableBlock.last_input (l ++ [x]) = Some x.
Proof.
  induction l as [|y r IH]; [reflexivity|].
  simpl. rewrite IH. destruct (r ++ [x]) eqn:E; [|reflexivity].
  now destruct r.
Qed.

(** ** The compilers on condition blocks *)

Lemma processBlock_condition (JSON_parse : string -> option Json) (block : Block) :
  block_type block <> operator ->
  block_properties block <> None ->
  ProcessBlock.processBlock JSON_parse block
  = ProcessBlock.processCondition JSON_parse block.
Proof.
  destruct block as [id t c lb i [p|] v tp]; simpl; intros Ht Hp;
    [destruct t; congruence | congruence].
Qed.

Lemma blockToJson_condition (block : Block) :
  block_type block = condition ->
  BlockToJson.blockToJson block = BlockToJson.conditionToJson block.
Proof.
  destruct block as [id t c lb i p v tp]; simpl; intros ->; reflexivity.
Qed.

(** The builder's fields that a step can change, slot by slot. *)
Ltac step_cases :=
  unfold ProcessBlock.step;
  repeat match goal with
         | |- context [match ?x with _ => _ end] =>
             lazymatch x with
             | context [match _ with _ => _ end] => fail
             | _ => destruct x eqn:?
             end
         end.

Section Builder.

Variable JSON_parse : string -> option Json.
Variable block : Block.

Lemma step_chain_valid builder input builder' :
  ProcessBlock.step JSON_parse block builder input = Returned builder' ->
  (forall z, ProcessBlock.chain builder = Some z -> isValidChainId z = true) ->
  forall z, ProcessBlock.chain builder' = Some z -> isValidChainId z = true.
Proof.
  intros Hs Hb z. revert Hs. step_cases; intros Hs;
    try discriminate; injection Hs as <-; simpl; auto.
  intros E. injection E as <-. assumption.
Qed.

Lemma forEach_chain_valid l : forall builder builder',
  ProcessBlock.forEach_input JSON_parse block l builder = Returned builder' ->
  (forall z, ProcessBlock.chain builder = Some z -> isValidChainId z = true) ->
  forall z, ProcessBlock.chain builder' = Some z -> isValidChainId z = true.
Proof.
  induction l as [|input r IH]; simpl; intros builder builder' H Hb.
  - injection H as <-. assumption.
  - destruct (ProcessBlock.step JSON_parse block builder input) as [b1|e] eqn:Hs;
      simpl in H; [|discriminate].
    eapply IH; [eassumption|]. eapply step_chain_valid; eassumption.
Qed.

Lemma step_no_chain builder input builder' :
  ProcessBlock.step JSON_parse block builder input = Returned builder' ->
  no_valid_chain input = true ->
  ProcessBlock.chain builder = None ->
  ProcessBlock.chain builder' = None.
Proof.
  unfold no_valid_chain, not_a_valid_chain, has_id.
  intros Hs Hn Hb. revert Hs Hn. step_cases; intros Hs Hn;
    try discriminate; injection Hs as <-; simpl; auto.
Qed.

Lemma forEach_no_chain l : forall builder builder',
  ProcessBlock.forEach_input JSON_parse block l builder = Returned builder' ->
  forallb no_valid_chain l = true ->
  ProcessBlock.chain builder = None ->
  ProcessBlock.chain builder' = None.
Proof.
  induction l as [|input r IH]; simpl; intros builder builder' H Hl Hb.
  - now injection H as <-.
  - apply andb_prop in Hl as [Hi Hr].
    destruct (ProcessBlock.step JSON_parse block builder input) as [b1|e] eqn:Hs;
      simpl in H; [|discriminate].
    eapply IH; [eassumption|assumption|]. eapply step_no_chain; eassumption.
Qed.

End Builder.

Lemma processCondition_emit (JSON_parse : string -> option Json) (block : Block)
      (c : TacoCondition) :
  ProcessBlock.processCondition JSON_parse block = Returned (Some c) ->
  exists builder,
    ProcessBlock.forEach_input JSON_parse block (inputs_of block)
      ProcessBlock.empty_builder = Returned builder
    /\ ProcessBlock.emit block builder = Some c.
Proof.
  unfold ProcessBlock.processCondition.
  destruct (ProcessBlock.forEach_input _ _ _ _) as [builder|e]; simpl;
    [|discriminate].
  intros H. injection H as H. now exists builder.
Qed.

Lemma condition_has_properties (block : Block) (t : string) :
  prop prop_conditionType block = Some t -> block_properties block <> None.
Proof.
  unfold prop. destruct (block_properties block); [discriminate|congruence].
Qed.

Lemma chain_of_default (l : list BlockInput) :
  forallb no_valid_chain l = true -> BlockToJson.chain_of l = sepolia.
Proof.
  intros Hl. unfold BlockToJson.chain_of.
  destruct (find_input "chain" l) as [chainInput|] eqn:Hf; [|reflexivity].
  apply find_split in Hf as (pre & post & -> & _ & Hid).
  rewrite forallb_app in Hl. apply andb_prop in Hl as [_ Hl].
  simpl in Hl. apply andb_prop in Hl as [Hc _].
  unfold no_valid_chain in Hc. rewrite Hid in Hc. simpl in Hc.
  unfold ProcessBlock.slot_text in Hc.
  destruct (input_value chainInput) as [v|]; [|reflexivity].
  destruct (JS.truthy_string v) eqn:Hv; [|reflexivity].
  simpl in Hc. rewrite Hv in Hc. simpl in Hc. rewrite Hv in Hc.
  unfold BlockToJson.parseChainId. unfold not_a_valid_chain in Hc.
  destruct (JS.parseInt v) as [|z]; [reflexivity|].
  apply negb_true_iff in Hc. now rewrite Hc.
Qed.

(** ** C1: the parameters of the balance condition *)

(** C1, counterexample: [blockToJson] on a balance block whose properties
    carry a [parameters] entry emits that entry, not the fixed pair. *)
Lemma rpc_parameters_overridden :
  block_type Sample.rpc_own_parameters = condition
  /\ prop prop_conditionType Sample.rpc_own_parameters = Some "rpc"
  /\ prop prop_method Sample.rpc_own_parameters = Some "eth_getBalance"
  /\ BlockToJson.blockToJson Sample.rpc_own_parameters
     = Some (RpcCondition 137 "eth_getBalance"
               (JArr [JStr ":userAddress"; JStr "0x10"])
               (mkReturnValueTest ">=" (RvNum (JS.Num 1))))
  /\ JArr [JStr ":userAddress"; JStr "0x10"] <> userAddress_latest.
Proof.
  repeat split; discriminate.
Qed.

(** C1, amended: for a condition block of type [rpc] with method
    [eth_getBalance], every condition that [processBlock] returns is an
    RpcCondition whose parameters are exactly [":userAddress", "latest"],
    whatever the block carries; [blockToJson] returns an RpcCondition with
    these parameters when the properties hold no [parameters] entry, and
    with that entry when they hold one. *)
Theorem rpc_parameters (JSON_parse : string -> option Json) (block : Block) :
  block_type block = condition ->
  prop prop_conditionType block = Some "rpc" ->
  prop prop_method block = Some "eth_getBalance" ->
  (forall c,
      ProcessBlock.processBlock JSON_parse block = Returned (Some c) ->
      exists chain t, c = RpcCondition chain "eth_getBalance" userAddress_latest t)
  /\ (exists chain t,
         BlockToJson.blockToJson block
         = Some (RpcCondition chain "eth_getBalance"
                   (match prop prop_parameters block with
                    | Some ps => JArr ps
                    | None => userAddress_latest
                    end) t)).
Proof.
  intros Ht Hc Hm. split.
  - intros c H.
    rewrite processBlock_condition in H
      by (try rewrite Ht; try discriminate; eapply condition_has_properties; eassumption).
    apply processCondition_emit in H as (builder & _ & He).
    unfold ProcessBlock.emit, ProcessBlock.is_eth_getBalance in He.
    rewrite Hm, Hc in He. simpl in He.
    destruct (ProcessBlock.chain builder) as [z|]; [|discriminate].
    destruct (JS.truthy_Z z); simpl in He.
    + injection He as <-. eauto.
    + rewrite andb_false_r in He. discriminate.
  - rewrite blockToJson_condition by assumption.
    unfold BlockToJson.conditionToJson. rewrite Hc. simpl.
    unfold BlockToJson.rpcCondition. rewrite Hm. simpl. eauto.
Qed.

Lemma rpc_parameters_witness :
  (forall c,
      ProcessBlock.processBlock Sample.no_JSON Sample.rpc_own_parameters
      = Returned (Some c) ->
      exists chain t, c = RpcCondition chain "eth_getBalance" userAddress_latest t)
  /\ (exists chain t,
         BlockToJson.blockToJson Sample.rpc_own_parameters
         = Some (RpcCondition chain "eth_getBalance"
                   (JArr [JStr ":userAddress"; JStr "0x10"]) t)).
Proof.
  apply (rpc_parameters Sample.no_JSON Sample.rpc_own_parameters); reflexivity.
Defined.

(** On the same block [processBlock] does return a condition, with the
    fixed pair. *)
Example processBlock_rpc_fixed :
  ProcessBlock.processBlock Sample.no_JSON Sample.rpc_own_parameters
  = Returned (Some (RpcCondition 137 "eth_getBalance"
                      (JArr [JStr ":userAddress"; JStr "latest"])
                      (mkReturnValueTest ">=" (RvFloat "1")))).
Proof. reflexivity. Qed.

(** ** C2: a chain outside the allowed set *)

(** C2, counterexample: with the chain text ["999"], [blockToJson] returns
    a time condition on Sepolia and [processBlock] returns [null]; neither
    fails with an error. *)
Lemma chain_999_no_error :
  slot_value "chain" Sample.time_999 = "999"
  /\ JS.parseInt "999" = JS.Num 999
  /\ isValidChainId 999 = false
  /\ BlockToJson.blockToJson Sample.time_999
     = Some (TimeCondition 11155111 "blocktime"
               (mkReturnValueTest ">" (RvNum (JS.Num 1700000000))))
  /\ ProcessBlock.processBlock Sample.no_JSON Sample.time_999 = Returned None.
Proof.
  repeat split.
Qed.

(** The only error of [processBlock] on a condition block is the
    [TypeError] of the [tokenId] case, and it takes a [tokenId] slot that
    holds text. *)
Lemma step_throws (JSON_parse : string -> option Json) (block : Block)
      (builder : ProcessBlock.ConditionBuilder) (input : BlockInput) (e : string) :
  ProcessBlock.step JSON_parse block builder input = Thrown e ->
  e = "TypeError: builder.parameters.map is not a function"%string
  /\ no_tokenId_text input = false.
Proof.
  unfold no_tokenId_text, has_id. intros Hs. revert Hs. step_cases; intros Hs;
    try discriminate; injection Hs as <-; split; reflexivity.
Qed.

Lemma forEach_throws (JSON_parse : string -> option Json) (block : Block)
      (l : list BlockInput) : forall builder e,
  ProcessBlock.forEach_input JSON_parse block l builder = Thrown e ->
  e = "TypeError: builder.parameters.map is not a function"%string
  /\ forallb no_tokenId_text l = false.
Proof.
  induction l as [|input r IH]; simpl; intros builder e H; [discriminate|].
  destruct (ProcessBlock.step JSON_parse block builder input) as [b1|e1] eqn:Hs;
    simpl in H.
  - destruct (IH _ _ H) as [-> Hr]. split; [reflexivity|].
    rewrite Hr. apply andb_false_r.
  - injection H as <-. destruct (step_throws _ _ _ _ _ Hs) as [-> Hi].
    split; [reflexivity|]. now rewrite Hi.
Qed.

(** Without an allowed chain [processBlock] returns [null], unless it
    throws. *)
Lemma no_chain_null_or_throw (JSON_parse : string -> option Json) (block : Block) :
  block_type block = condition ->
  block_properties block <> None ->
  forallb no_valid_chain (inputs_of block) = true ->
  ProcessBlock.processBlock JSON_parse block = Returned None
  \/ (ProcessBlock.processBlock JSON_parse block
       = Thrown "TypeError: builder.parameters.map is not a function"
      /\ forallb no_tokenId_text (inputs_of block) = false).
Proof.
  intros Ht Hp Hl.
  rewrite processBlock_condition by (try rewrite Ht; try discriminate; assumption).
  unfold ProcessBlock.processCondition.
  destruct (ProcessBlock.forEach_input JSON_parse block (inputs_of block)
              ProcessBlock.empty_builder) as [builder|e] eqn:Hb; simpl.
  - left. apply forEach_no_chain in Hb; [|assumption|reflexivity].
    unfold ProcessBlock.emit. now rewrite Hb.
  - right. destruct (forEach_throws _ _ _ _ _ Hb) as [-> Hf]. now split.
Qed.

(** C2, amended: for a condition block of type [time], [rpc] or
    [contract] none of whose [chain] slots carries a chain of the allowed
    set, no compiler raises the error that lists the valid chains:
    [blockToJson] returns a condition on the default chain 11155111, and
    [processBlock] returns [null], unless it throws its [TypeError]
    ("builder.parameters.map is not a function"), which takes a [tokenId]
    slot that holds text. The error that lists the valid chains is the one
    of [getValidChainId], thrown for every chain number outside the set. *)
Theorem invalid_chain (JSON_parse : string -> option Json) (block : Block)
        (conditionType : string) :
  block_type block = condition ->
  prop prop_conditionType block = Some conditionType ->
  In conditionType ["time"; "rpc"; "contract"] ->
  forallb no_valid_chain (inputs_of block) = true ->
  (exists c, BlockToJson.blockToJson block = Some c
             /\ condition_chain c = Some 11155111)
  /\ (ProcessBlock.processBlock JSON_parse block = Returned None
      \/ ProcessBlock.processBlock JSON_parse block
         = Thrown "TypeError: builder.parameters.map is not a function")
  /\ (forallb no_tokenId_text (inputs_of block) = true ->
      ProcessBlock.processBlock JSON_parse block = Returned None)
  /\ (forall chain,
         isValidChainId chain = false ->
         EncryptionPanel.getValidChainId chain
         = Thrown "Invalid chain ID. Must be one of: 137, 80002, 11155111, 1").
Proof.
  intros Ht Hc Hin Hl.
  pose proof (no_chain_null_or_throw JSON_parse block Ht
                (condition_has_properties _ _ Hc) Hl) as Hp.
  split; [|split; [|split]].
  - rewrite blockToJson_condition by assumption.
    unfold BlockToJson.conditionToJson. rewrite Hc.
    simpl in Hin.
    destruct Hin as [<-|[<-|[<-|[]]]]; simpl; eexists; (split; [reflexivity|]);
      simpl; now rewrite chain_of_default.
  - destruct Hp as [Hp|[Hp _]]; [now left | now right].
  - intros Hn. destruct Hp as [Hp|[_ Hp]]; [assumption|congruence].
  - intros chain Hv. unfold isValidChainId, valid_chains in Hv.
    cbn [existsb] in Hv. rewrite !orb_false_iff, !Z.eqb_neq in Hv.
    unfold EncryptionPanel.getValidChainId, EncryptionPanel.validChains.
    cbn [find].
    repeat match goal with
           | |- context [?a =? chain] =>
               destruct (a =? chain) eqn:E; [apply Z.eqb_eq in E; lia | clear E]
           end.
    reflexivity.
Qed.

Lemma invalid_chain_witness :
  ((exists c, BlockToJson.blockToJson Sample.rpc_999 = Some c
              /\ condition_chain c = Some 11155111)
   /\ ProcessBlock.processBlock Sample.no_JSON Sample.rpc_999 = Returned None
   /\ EncryptionPanel.getValidChainId 999
      = Thrown "Invalid chain ID. Must be one of: 137, 80002, 11155111, 1")
  /\ ((exists c, BlockToJson.blockToJson Sample.contract_999_braces = Some c
                 /\ condition_chain c = Some 11155111)
      /\ (ProcessBlock.processBlock Sample.JSON_braces Sample.contract_999_braces
          = Returned None
          \/ ProcessBlock.processBlock Sample.JSON_braces Sample.contract_999_braces
             = Thrown "TypeError: builder.parameters.map is not a function")).
Proof.
  split.
  - destruct (invalid_chain Sample.no_JSON Sample.rpc_999 "rpc")
      as (H1 & _ & H3 & H4);
      [reflexivity | reflexivity | simpl; tauto | reflexivity |].
    split; [exact H1|]. split; [apply H3; reflexivity | apply H4; reflexivity].
  - destruct (invalid_chain Sample.JSON_braces Sample.contract_999_braces "contract")
      as (H1 & H2 & _);
      [reflexivity | reflexivity | simpl; tauto | reflexivity |].
    split; [exact H1 | exact H2].
Defined.

(** The throw does occur: the contract block on chain 999 whose
    [parameters] slot holds an object and whose [tokenId] slot is filled. *)
Example invalid_chain_TypeError :
  forallb no_valid_chain (inputs_of Sample.contract_999_braces) = true
  /\ ProcessBlock.processBlock Sample.JSON_braces Sample.contract_999_braces
     = Thrown "TypeError: builder.parameters.map is not a function".
Proof. split; reflexivity. Qed.

(** ** C3: a contract block without a method *)

Section Operands.

Variable JSON_parse : string -> option Json.

Lemma processBlock_operator id cat lb l p v tp :
  ProcessBlock.processBlock JSON_parse (mkBlock id operator cat lb (Some l) (Some p) v tp)
  = (operands <- ProcessBlock.each_connected
                   (ProcessBlock.processBlock JSON_parse) l ;;
     Returned (Some (CompoundCondition (JS.or_else (prop_operator p) "and") operands))).
Proof. reflexivity. Qed.

(** A connected block that compiles to [null] leaves no trace among the
    operands: they are those of the list without its slot. *)
Lemma each_connected_drops process pre s post child :
  input_connected s = Some child ->
  process child = Returned None ->
  ProcessBlock.each_connected process (pre ++ s :: post)
  = ProcessBlock.each_connected process (pre ++ post).
Proof.
  intros Hs Hc. induction pre as [|x r IH]; simpl.
  - rewrite Hs, Hc. simpl.
    destruct (ProcessBlock.each_connected process post); reflexivity.
  - now rewrite IH.
Qed.

Lemma step_no_method block builder input builder' :
  ProcessBlock.step JSON_parse block builder input = Returned builder' ->
  no_method_text input = true ->
  ProcessBlock.method builder = None /\ ProcessBlock.conditionType builder = None ->
  ProcessBlock.method builder' = None /\ ProcessBlock.conditionType builder' = None.
Proof.
  unfold no_method_text, has_id.
  intros Hs Hn Hb. revert Hs Hn. step_cases; intros Hs Hn;
    try discriminate; injection Hs as <-; simpl; auto;
    rewrite ?orb_true_r in *; simpl in *; try discriminate.
  match goal with
  | H : ((_ =? _)%string || _)%bool = true |- _ => rewrite <- orb_assoc, H in Hn
  end.
  rewrite orb_true_r in Hn. discriminate.
Qed.

Lemma forEach_no_method block l : forall builder builder',
  ProcessBlock.forEach_input JSON_parse block l builder = Returned builder' ->
  forallb no_method_text l = true ->
  ProcessBlock.method builder = None /\ ProcessBlock.conditionType builder = None ->
  ProcessBlock.method builder' = None /\ ProcessBlock.conditionType builder' = None.
Proof.
  induction l as [|input r IH]; simpl; intros builder builder' H Hl Hb.
  - now injection H as <-.
  - apply andb_prop in Hl as [Hi Hr].
    destruct (ProcessBlock.step JSON_parse block builder input) as [b1|e] eqn:Hs;
      simpl in H; [|discriminate].
    eapply IH; [eassumption|assumption|]. eapply step_no_method; eassumption.
Qed.

End Operands.

(** C3, counterexample: [blockToJson] on the contract block of scenario C,
    which has no [method] entry, emits a contract condition with the
    method ['balanceOf'], and the operator above it keeps that operand. *)
Lemma contract_without_method_emitted :
  block_type Sample.contract_C = condition
  /\ prop prop_conditionType Sample.contract_C = Some "contract"
  /\ prop prop_method Sample.contract_C = None
  /\ BlockToJson.blockToJson Sample.contract_C
     = Some (ContractCondition 1 "" "balanceOf" (JArr [JStr ":userAddress"]) None
               (mkReturnValueTest ">" (RvNum (JS.Num 5))))
  /\ BlockToJson.blockToJson Sample.and_over_contract_C
     = Some (CompoundCondition "and"
               [ContractCondition 1 "" "balanceOf" (JArr [JStr ":userAddress"]) None
                  (mkReturnValueTest ">" (RvNum (JS.Num 5)))]).
Proof.
  repeat split.
Qed.

(** C3, amended: for a condition block of type [contract] whose
    properties hold no [method] entry, [blockToJson] emits a contract
    condition with the default method ['balanceOf']; [processBlock] takes
    the method from the slots and yields no condition when no [method] or
    timestamp slot carries a text; and an operator whose slot holds a
    block that [processBlock] compiles to [null] compiles as it does
    without that slot, so the operand is dropped. *)
Theorem contract_without_method (JSON_parse : string -> option Json) (block : Block) :
  block_type block = condition ->
  prop prop_conditionType block = Some "contract" ->
  prop prop_method block = None ->
  (exists chain address ps standard t,
      BlockToJson.blockToJson block
      = Some (ContractCondition chain address "balanceOf" ps standard t))
  /\ (forallb no_method_text (inputs_of block) = true ->
      yields_no_condition (ProcessBlock.processBlock JSON_parse block))
  /\ (forall id cat lb pre s post p v tp,
         input_connected s = Some block ->
         ProcessBlock.processBlock JSON_parse block = Returned None ->
         ProcessBlock.processBlock JSON_parse
           (mkBlock id operator cat lb (Some (pre ++ s :: post)) (Some p) v tp)
         = ProcessBlock.processBlock JSON_parse
             (mkBlock id operator cat lb (Some (pre ++ post)) (Some p) v tp)).
Proof.
  intros Ht Hc Hm. split; [|split].
  - rewrite blockToJson_condition by assumption.
    unfold BlockToJson.conditionToJson. rewrite Hc. simpl.
    unfold BlockToJson.contractCondition. rewrite Hm. simpl. eauto 10.
  - intros Hl c H.
    rewrite processBlock_condition in H
      by (try rewrite Ht; try discriminate; eapply condition_has_properties; eassumption).
    apply processCondition_emit in H as (builder & Hb & He).
    apply forEach_no_method in Hb as [Hbm Hbc]; [|assumption|split; reflexivity].
    unfold ProcessBlock.emit, ProcessBlock.is_eth_getBalance in He.
    rewrite Hm, Hbm, Hbc in He. simpl in He.
    destruct (ProcessBlock.chain builder); [|discriminate].
    rewrite !andb_false_r in He. discriminate.
  - intros id cat lb pre s post p v tp Hs Hn.
    rewrite !processBlock_operator.
    now rewrite (each_connected_drops _ pre s post block Hs Hn).
Qed.

Lemma contract_without_method_witness :
  (exists chain address ps standard t,
      BlockToJson.blockToJson Sample.contract_C
      = Some (ContractCondition chain address "balanceOf" ps standard t))
  /\ (forallb no_method_text (inputs_of Sample.contract_C) = true ->
      yields_no_condition (ProcessBlock.processBlock Sample.no_JSON Sample.contract_C))
  /\ (forall id cat lb pre s post p v tp,
         input_connected s = Some Sample.contract_C ->
         ProcessBlock.processBlock Sample.no_JSON Sample.contract_C = Returned None ->
         ProcessBlock.processBlock Sample.no_JSON
           (mkBlock id operator cat lb (Some (pre ++ s :: post)) (Some p) v tp)
         = ProcessBlock.processBlock Sample.no_JSON
             (mkBlock id operator cat lb (Some (pre ++ post)) (Some p) v tp)).
Proof.
  apply (contract_without_method Sample.no_JSON Sample.contract_C); reflexivity.
Defined.

(** The inner hypotheses of the statement hold on the sample: the block
    has no method text, compiles to [null], and is dropped from the
    operator above it. *)
Example contract_C_dropped :
  forallb no_method_text (inputs_of Sample.contract_C) = true
  /\ ProcessBlock.processBlock Sample.no_JSON Sample.contract_C = Returned None
  /\ ProcessBlock.processBlock Sample.no_JSON Sample.and_over_contract_C
     = Returned (Some (CompoundCondition "and" [])).
Proof.
  repeat split.
Qed.

(** ** C4: the time condition *)

Lemma step_other_id (JSON_parse : string -> option Json) (b : Block)
      (builder : ProcessBlock.ConditionBuilder) (i : BlockInput) :
  ~ In (input_id i) compiled_ids ->
  ProcessBlock.step JSON_parse b builder i = Returned builder.
Proof.
  intros Hid. unfold ProcessBlock.step.
  destruct (ProcessBlock.slot_text i); [|reflexivity].
  repeat match goal with
         | |- context [String.eqb (input_id i) ?s] =>
             destruct (String.eqb_spec (input_id i) s) as [E|_];
             [exfalso; apply Hid; rewrite E; unfold compiled_ids; simpl; tauto|]
         end.
  reflexivity.
Qed.

Lemma find_input_absent (id : string) (l : list BlockInput) :
  ~ In id (map input_id l) -> find_input id l = None.
Proof.
  unfold find_input, has_id.
  induction l as [|x r IH]; simpl; intros H; [reflexivity|].
  destruct (String.eqb_spec (input_id x) id) as [E|_]; [tauto|].
  apply IH. tauto.
Qed.

Lemma value_in_absent (id : string) (l : list BlockInput) :
  ~ In id (map input_id l) -> value_in id l = ""%string.
Proof. intros H. unfold value_in. now rewrite find_input_absent. Qed.

Lemma value_in_other (id : string) (x : BlockInput) (r : list BlockInput) :
  input_id x <> id -> value_in id (x :: r) = value_in id r.
Proof.
  intros H. unfold value_in, find_input, has_id. simpl.
  now destruct (String.eqb_spec (input_id x) id).
Qed.

Lemma value_in_here (id : string) (x : BlockInput) (r : list BlockInput) :
  input_id x = id -> value_in id (x :: r) = JS.or_else (input_value x) "".
Proof.
  intros H. unfold value_in, find_input, has_id. simpl.
  now rewrite H, String.eqb_refl.
Qed.

(** The text of a slot that holds no connected block is its value. *)
Lemma slot_text_value (x : BlockInput) :
  input_connected x = None ->
  ProcessBlock.slot_text x
  = if JS.truthy_string (JS.or_else (input_value x) "")
    then Some (JS.or_else (input_value x) "") else None.
Proof.
  intros H. unfold ProcessBlock.slot_text. rewrite H.
  destruct (input_value x) as [[|a v]|]; reflexivity.
Qed.

(** The loop of [processBlock] over the slots of a time block: the
    chain is the one of the [chain] slot when it is allowed, and the
    [minTimestamp] slot, when it holds a number, makes the builder one of
    a time condition with the test [">="] on that number. *)
Lemma forEach_time_slots (JSON_parse : string -> option Json) (block : Block)
      (l : list BlockInput) : forall builder,
  time_slots l ->
  exists builder',
    ProcessBlock.forEach_input JSON_parse block l builder = Returned builder'
    /\ ProcessBlock.chain builder'
       = match JS.parseInt (value_in "chain" l) with
         | JS.Num z => if isValidChainId z then Some z
                       else ProcessBlock.chain builder
         | JS.NaN => ProcessBlock.chain builder
         end
    /\ ProcessBlock.conditionType builder'
       = match JS.parseInt (value_in "minTimestamp" l) with
         | JS.Num _ => Some "time"%string
         | JS.NaN => ProcessBlock.conditionType builder
         end
    /\ ProcessBlock.returnValueTest builder'
       = match JS.parseInt (value_in "minTimestamp" l) with
         | JS.Num t => Some (mkReturnValueTest ">=" (RvNum (JS.Num t)))
         | JS.NaN => ProcessBlock.returnValueTest builder
         end.
Proof.
  induction l as [|x r IH]; intros builder [Hnd Hall].
  - exists builder. repeat split.
  - simpl in Hnd. apply NoDup_cons_iff in Hnd as [Hx Hnd].
    apply Forall_cons_iff in Hall as [[Hconn Hid] Hall].
    cbn [ProcessBlock.forEach_input].
    destruct Hid as [Hid|[Hid|Hid]].
    + (* the chain slot *)
      rewrite (value_in_here "chain" x r Hid).
      rewrite (value_in_other "minTimestamp" x r) by (rewrite Hid; discriminate).
      rewrite Hid in Hx.
      unfold ProcessBlock.step. rewrite (slot_text_value x Hconn), Hid.
      destruct (JS.or_else (input_value x) "") as [|a v] eqn:Ev.
      * cbn [JS.truthy_string bind].
        destruct (IH builder (conj Hnd Hall)) as (b' & Hb & Hc & Ht & Hr).
        exists b'. rewrite (value_in_absent _ _ Hx) in Hc.
        change (JS.parseInt "") with JS.NaN in Hc |- *. now repeat split.
      * cbn -[isValidChainId JS.parseInt value_in ProcessBlock.forEach_input].
        destruct (JS.parseInt (String a v)) as [|z] eqn:Ep.
        -- cbn [bind].
           destruct (IH builder (conj Hnd Hall)) as (b' & Hb & Hc & Ht & Hr).
           exists b'. rewrite (value_in_absent _ _ Hx) in Hc.
           change (JS.parseInt "") with JS.NaN in Hc. now repeat split.
        -- destruct (isValidChainId z) eqn:Ez; cbn [bind].
           ++ destruct (IH (ProcessBlock.with_chain builder z) (conj Hnd Hall))
                as (b' & Hb & Hc & Ht & Hr).
              exists b'. rewrite (value_in_absent _ _ Hx) in Hc.
              change (JS.parseInt "") with JS.NaN in Hc. now repeat split.
           ++ destruct (IH builder (conj Hnd Hall)) as (b' & Hb & Hc & Ht & Hr).
              exists b'. rewrite (value_in_absent _ _ Hx) in Hc.
              change (JS.parseInt "") with JS.NaN in Hc. now repeat split.
    + (* the minTimestamp slot *)
      rewrite (value_in_here "minTimestamp" x r Hid).
      rewrite (value_in_other "chain" x r) by (rewrite Hid; discriminate).
      rewrite Hid in Hx.
      unfold ProcessBlock.step. rewrite (slot_text_value x Hconn), Hid.
      destruct (JS.or_else (input_value x) "") as [|a v] eqn:Ev.
      * cbn [JS.truthy_string bind].
        destruct (IH builder (conj Hnd Hall)) as (b' & Hb & Hc & Ht & Hr).
        exists b'. rewrite (value_in_absent _ _ Hx) in Ht, Hr.
        change (JS.parseInt "") with JS.NaN in Ht, Hr |- *. now repeat split.
      * cbn -[isValidChainId JS.parseInt value_in ProcessBlock.forEach_input].
        destruct (JS.parseInt (String a v)) as [|t] eqn:Ep; cbn [bind].
        -- destruct (IH builder (conj Hnd Hall)) as (b' & Hb & Hc & Ht & Hr).
           exists b'. rewrite (value_in_absent _ _ Hx) in Ht, Hr.
           change (JS.parseInt "") with JS.NaN in Ht, Hr. now repeat split.
        -- destruct (IH (ProcessBlock.with_time builder
                           (mkReturnValueTest ">=" (RvNum (JS.Num t))))
                        (conj Hnd Hall)) as (b' & Hb & Hc & Ht & Hr).
           exists b'. rewrite (value_in_absent _ _ Hx) in Ht, Hr.
           change (JS.parseInt "") with JS.NaN in Ht, Hr. now repeat split.
    + (* a slot that is not read *)
      rewrite (step_other_id JSON_parse block builder x Hid). cbn [bind].
      rewrite (value_in_other "chain" x r), (value_in_other "minTimestamp" x r)
        by (intros E; apply Hid; rewrite E; unfold compiled_ids; simpl; tauto).
      apply IH. now split.
Qed.

Lemma valid_chain_truthy (z : Z) : isValidChainId z = true -> JS.truthy_Z z = true.
Proof.
  unfold JS.truthy_Z. destruct (Z.eqb_spec z 0) as [->|]; [discriminate|reflexivity].
Qed.

(** C4, counterexample: three time blocks of the palette on which
    [processBlock] does not return what the claim has, and what
    [blockToJson] returns. With the chain text ["999"] it returns [null],
    not a condition on the default chain; with the slot comparator [">"]
    it returns the test [">="]; with an empty [minTimestamp] slot it
    returns [null], not the default test. *)
Lemma time_processBlock_differs :
  (BlockToJson.blockToJson Sample.time_999
   = Some (TimeCondition 11155111 "blocktime"
             (mkReturnValueTest ">" (RvNum (JS.Num 1700000000))))
   /\ ProcessBlock.processBlock Sample.no_JSON Sample.time_999 = Returned None)
  /\ (BlockToJson.blockToJson Sample.time_after
      = Some (TimeCondition 137 "blocktime"
                (mkReturnValueTest ">" (RvNum (JS.Num 1700000000))))
      /\ ProcessBlock.processBlock Sample.no_JSON Sample.time_after
         = Returned (Some (TimeCondition 137 "blocktime"
                             (mkReturnValueTest ">=" (RvNum (JS.Num 1700000000))))))
  /\ (BlockToJson.blockToJson Sample.time_open
      = Some (TimeCondition 137 "blocktime"
                (mkReturnValueTest ">=" (RvNum (JS.Num 0))))
      /\ ProcessBlock.processBlock Sample.no_JSON Sample.time_open = Returned None).
Proof.
  repeat split.
Qed.

(** C4, amended: for a condition block of type [time], [blockToJson]
    returns a time condition with method ["blocktime"], with the parsed
    integer of the [chain] slot as chain when it is in the allowed set and
    11155111 otherwise, and with the test (slot comparator or [">="],
    [parseInt] of the [minTimestamp] value) when that slot is non-empty
    and ([">="], 0) when it is empty. [processBlock], on such a block with
    the slots of the palette (the method not being [eth_getBalance]),
    returns a time condition exactly when the parsed integer of the
    [chain] slot is in the allowed set and [parseInt] of the
    [minTimestamp] value is a number: its method is ["blocktime"], its
    chain that integer and its test [">="] on that number, whatever the
    slot comparator; otherwise it returns [null]. Whatever the slots, a
    condition it returns is a time condition with method ["blocktime"] on
    an allowed chain. *)
Theorem time_condition (JSON_parse : string -> option Json) (block : Block) :
  block_type block = condition ->
  prop prop_conditionType block = Some "time" ->
  BlockToJson.blockToJson block
  = Some (TimeCondition
            (match JS.parseInt (slot_value "chain" block) with
             | JS.Num z => if isValidChainId z then z else 11155111
             | JS.NaN => 11155111
             end)
            "blocktime"
            (if JS.truthy_string (slot_value "minTimestamp" block)
             then mkReturnValueTest
                    (JS.or_else (slot_comparator "minTimestamp" block) ">=")
                    (RvNum (JS.parseInt (slot_value "minTimestamp" block)))
             else mkReturnValueTest ">=" (RvNum (JS.Num 0))))
  /\ (time_slots (inputs_of block) ->
      prop prop_method block <> Some "eth_getBalance"%string ->
      ProcessBlock.processBlock JSON_parse block
      = Returned
          (match JS.parseInt (slot_value "chain" block),
                 JS.parseInt (slot_value "minTimestamp" block) with
           | JS.Num z, JS.Num t =>
               if isValidChainId z
               then Some (TimeCondition z "blocktime"
                            (mkReturnValueTest ">=" (RvNum (JS.Num t))))
               else None
           | _, _ => None
           end))
  /\ (forall c,
         ProcessBlock.processBlock JSON_parse block = Returned (Some c) ->
         prop prop_method block <> Some "eth_getBalance"%string ->
         exists chain t,
           c = TimeCondition chain "blocktime" t /\ isValidChainId chain = true).
Proof.
  intros Ht Hc.
  assert (Hnot : prop prop_method block <> Some "eth_getBalance"%string ->
                 ProcessBlock.is_eth_getBalance block = false).
  { unfold ProcessBlock.is_eth_getBalance. intros Hm.
    destruct (prop prop_method block) as [m|]; [|reflexivity].
    destruct (String.eqb_spec m "eth_getBalance") as [->|]; congruence. }
  split; [|split].
  - rewrite blockToJson_condition by assumption.
    unfold BlockToJson.conditionToJson. rewrite Hc. simpl.
    unfold BlockToJson.timeCondition, BlockToJson.chain_of, BlockToJson.numeric_test,
      BlockToJson.parseChainId, slot_value, slot_comparator, sepolia.
    do 2 f_equal.
    + destruct (find_input "chain" (inputs_of block)) as [i|]; [|reflexivity].
      destruct (input_value i) as [[|a v]|]; reflexivity.
    + destruct (find_input "minTimestamp" (inputs_of block)) as [i|]; [|reflexivity].
      destruct (input_value i) as [[|a v]|]; reflexivity.
  - intros Hslots Hm.
    rewrite processBlock_condition
      by (try rewrite Ht; try discriminate; eapply condition_has_properties; eassumption).
    unfold ProcessBlock.processCondition.
    destruct (forEach_time_slots JSON_parse block (inputs_of block)
                ProcessBlock.empty_builder Hslots) as (b & -> & Hch & Hty & Hrv).
    cbn [bind]. f_equal.
    change (value_in "chain" (inputs_of block)) with (slot_value "chain" block)
      in Hch.
    change (value_in "minTimestamp" (inputs_of block))
      with (slot_value "minTimestamp" block) in Hty, Hrv.
    unfold ProcessBlock.emit. rewrite Hch, Hty, Hrv, (Hnot Hm), Hc.
    cbn [ProcessBlock.chain ProcessBlock.conditionType ProcessBlock.returnValueTest
         ProcessBlock.empty_builder].
    destruct (JS.parseInt (slot_value "chain" block)) as [|z];
      [now destruct (JS.parseInt (slot_value "minTimestamp" block))|].
    destruct (isValidChainId z) eqn:Ez;
      [|now destruct (JS.parseInt (slot_value "minTimestamp" block))].
    rewrite (valid_chain_truthy z Ez).
    now destruct (JS.parseInt (slot_value "minTimestamp" block)).
  - intros c H Hm.
    rewrite processBlock_condition in H
      by (try rewrite Ht; try discriminate; eapply condition_has_properties; eassumption).
    apply processCondition_emit in H as (builder & Hb & He).
    pose proof (forEach_chain_valid _ _ _ _ _ Hb) as Hv.
    unfold ProcessBlock.emit in He. rewrite (Hnot Hm), Hc in He. simpl in He.
    destruct (ProcessBlock.chain builder) as [z|] eqn:Hz; [|discriminate].
    assert (isValidChainId z = true) as Hvz by (apply Hv; [discriminate|reflexivity]).
    destruct (match ProcessBlock.conditionType builder with
              | Some t => String.eqb t "time" | None => false end
              && JS.truthy_Z z); [|discriminate].
    injection He as <-. eauto.
Qed.

Lemma time_slots_time_A : time_slots (inputs_of Sample.time_A).
Proof.
  split.
  - repeat constructor; simpl; intuition discriminate.
  - repeat constructor; simpl; tauto.
Qed.

Lemma time_condition_witness :
  BlockToJson.blockToJson Sample.time_A
  = Some (TimeCondition 11155111 "blocktime"
            (mkReturnValueTest ">=" (RvNum (JS.Num 1700000000))))
  /\ ProcessBlock.processBlock Sample.no_JSON Sample.time_A
     = Returned (Some (TimeCondition 11155111 "blocktime"
                         (mkReturnValueTest ">=" (RvNum (JS.Num 1700000000)))))
  /\ (forall c,
         ProcessBlock.processBlock Sample.no_JSON Sample.time_A = Returned (Some c) ->
         exists chain t,
           c = TimeCondition chain "blocktime" t /\ isValidChainId chain = true).
Proof.
  destruct (time_condition Sample.no_JSON Sample.time_A eq_refl eq_refl)
    as (H1 & H2 & H3).
  split; [exact H1|]. split.
  - apply H2; [exact time_slots_time_A | discriminate].
  - intros c Hc. apply (H3 c Hc). discriminate.
Defined.

(** Scenario A under [processBlock]: the same condition as under
    [blockToJson]. *)
Example processBlock_time_A :
  ProcessBlock.processBlock Sample.no_JSON Sample.time_A
  = Returned (Some (TimeCondition 11155111 "blocktime"
                      (mkReturnValueTest ">=" (RvNum (JS.Num 1700000000))))).
Proof. reflexivity. Qed.

(** ** C5: an operator with no operand *)

(** The first compiler does what the claim says. An operator none of
    whose connected blocks compiles to a condition is absent itself. *)
Lemma blockToJson_no_operand (block : Block) :
  block_type block = operator ->
  (forall input child,
      In input (inputs_of block) ->
      input_connected input = Some child ->
      BlockToJson.blockToJson child = None) ->
  BlockToJson.blockToJson block = None.
Proof.
  destruct block as [id t c lb [l|] p v tp]; simpl; intros -> H; [|reflexivity].
  assert (E : flat_map
                (fun input =>
                   match input with
                   | mkInput _ _ _ _ _ _ (Some child) =>
                       match BlockToJson.blockToJson child with
                       | Some c => [c]
                       | None => []
                       end
                   | mkInput _ _ _ _ _ _ None => []
                   end) l = []).
  { induction l as [|i r IH]; [reflexivity|]. simpl.
    rewrite IH by (intros; eapply H; [right|]; eassumption).
    destruct i as [iid it il iv ic ity [child|]]; [|reflexivity].
    rewrite (H _ child (or_introl eq_refl) eq_refl). reflexivity. }
  now rewrite E.
Qed.

Lemma blockToJson_barren (block : Block) :
  barren block -> BlockToJson.blockToJson block = None.
Proof.
  induction 1 as [block Ht _ IH]. apply blockToJson_no_operand; assumption.
Qed.

(** C5, the failing input: [processBlock] on an operator with nothing
    connected returns a compound condition with no operand, at the root
    (also through [blocksToJson]) and as the only operand of an operator
    above it, where the claim has the block absent. *)
Theorem processBlock_empty_operator (JSON_parse : string -> option Json) :
  filter is_connected (inputs_of Sample.and_empty) = []
  /\ ProcessBlock.processBlock JSON_parse Sample.and_empty
     = Returned (Some (CompoundCondition "and" []))
  /\ ProcessBlock.blocksToJson JSON_parse [Sample.and_empty]
     = Returned (Some (CompoundCondition "and" []))
  /\ ProcessBlock.processBlock JSON_parse Sample.or_over_empty
     = Returned (Some (CompoundCondition "or" [CompoundCondition "and" []]))
  /\ BlockToJson.blockToJson Sample.and_empty = None
  /\ BlockToJson.blockToJson Sample.or_over_empty = None.
Proof.
  repeat split.
Qed.

(** ** C10: several top-level blocks *)

Lemma map_processBlock_all (JSON_parse : string -> option Json)
      (l : list Block) (results : list (option TacoCondition)) :
  Forall2 (fun block r => ProcessBlock.processBlock JSON_parse block = Returned r)
          l results ->
  ProcessBlock.map_processBlock JSON_parse l = Returned results.
Proof.
  induction 1 as [|block r l results Hb _ IH]; simpl; [reflexivity|].
  now rewrite Hb, IH.
Qed.

(** A throw of one call ends the whole [map]. *)
Lemma map_processBlock_throws (JSON_parse : string -> option Json)
      (before : list Block) (block : Block) (after : list Block) (e : string) :
  Forall (fun b => exists r, ProcessBlock.processBlock JSON_parse b = Returned r)
         before ->
  ProcessBlock.processBlock JSON_parse block = Thrown e ->
  ProcessBlock.map_processBlock JSON_parse (before ++ block :: after) = Thrown e.
Proof.
  intros Hb He. induction Hb as [|b l [r Hr] _ IH]; simpl.
  - now rewrite He.
  - now rewrite Hr, IH.
Qed.

(** The filter of the source keeps the top-level blocks. *)
Lemma is_top_level_spec (blocks : list Block) (block : Block) :
  ProcessBlock.is_top_level blocks block = true <-> top_level blocks block.
Proof.
  unfold ProcessBlock.is_top_level, top_level. rewrite negb_true_iff. split.
  - intros H b input child Hb Hi Hc E.
    assert (Ht : existsb (fun b0 => existsb (ProcessBlock.connects block)
                                            (inputs_of b0)) blocks = true).
    { apply existsb_exists. exists b. split; [assumption|].
      apply existsb_exists. exists input. split; [assumption|].
      unfold ProcessBlock.connects. rewrite Hc, E. apply String.eqb_refl. }
    congruence.
  - intros H.
    destruct (existsb _ blocks) eqn:E; [|reflexivity].
    apply existsb_exists in E as (b & Hb & E).
    apply existsb_exists in E as (input & Hi & E).
    unfold ProcessBlock.connects in E.
    destruct (input_connected input) as [child|] eqn:Hc; [|discriminate].
    apply String.eqb_eq in E. exfalso. exact (H b input child Hb Hi Hc E).
Qed.

Lemma selects_filter {A : Type} (P : A -> Prop) (p : A -> bool) :
  (forall x, p x = true <-> P x) ->
  forall l t, selects P l t -> t = filter p l.
Proof.
  intros Hp l t H. induction H as [|x l t Hx _ IH|x l t Hx _ IH]; simpl.
  - reflexivity.
  - apply Hp in Hx. rewrite Hx. now f_equal.
  - destruct (p x) eqn:E; [|assumption]. apply Hp in E. contradiction.
Qed.

(** The results that are no [null], in order, are what the filter of
    the source leaves. *)
Lemma selects_not_null (results : list (option TacoCondition)) :
  forall conditions,
    selects (fun r => r <> None) results (map Some conditions) ->
    ProcessBlock.not_null results = conditions.
Proof.
  unfold ProcessBlock.not_null.
  induction results as [|r rs IH]; intros conditions H; inversion H; subst.
  - now destruct conditions.
  - destruct conditions as [|c cs]; [discriminate|].
    match goal with E : _ :: _ = map Some (_ :: _) |- _ =>
      simpl in E; injection E as -> -> end.
    simpl. f_equal. now apply IH.
  - destruct r as [c|].
    + exfalso. match goal with Hn : ~ _ |- _ => apply Hn end. discriminate.
    + simpl. now apply IH.
Qed.

(** C10, counterexample: a workspace of two top-level blocks, of which
    the second makes [processBlock] throw. The call throws; the result is
    neither absent nor the condition of the first block. *)
Lemma top_level_block_throws :
  top_level [Sample.time_A; Sample.contract_braces] Sample.time_A
  /\ top_level [Sample.time_A; Sample.contract_braces] Sample.contract_braces
  /\ ProcessBlock.processBlock Sample.JSON_braces Sample.time_A
     = Returned (Some (TimeCondition 11155111 "blocktime"
                         (mkReturnValueTest ">=" (RvNum (JS.Num 1700000000)))))
  /\ ProcessBlock.processBlock Sample.JSON_braces Sample.contract_braces
     = Thrown "TypeError: builder.parameters.map is not a function"
  /\ ProcessBlock.blocksToJson Sample.JSON_braces
       [Sample.time_A; Sample.contract_braces]
     = Thrown "TypeError: builder.parameters.map is not a function".
Proof.
  split; [now apply is_top_level_spec|].
  split; [now apply is_top_level_spec|].
  repeat split.
Qed.

(** C10, amended: the second [blocksToJson] compiles the top-level blocks
    of the workspace, those that no slot of a workspace block holds, each
    on its own and in their order. When one of these calls throws, the
    whole call throws that error. Otherwise the [null] results are
    dropped: no condition left gives [null], one condition is returned as
    it is, and two or more are the operands, in the order of their blocks,
    of a compound condition with operator ["and"]. *)
Theorem top_level_blocks (JSON_parse : string -> option Json)
        (blocks tops : list Block) :
  selects (top_level blocks) blocks tops ->
  (forall results conditions,
      Forall2 (fun block r => ProcessBlock.processBlock JSON_parse block = Returned r)
              tops results ->
      selects (fun r => r <> None) results (map Some conditions) ->
      ProcessBlock.blocksToJson JSON_parse blocks
      = Returned (match conditions with
                  | [] => None
                  | [c] => Some c
                  | _ => Some (CompoundCondition "and" conditions)
                  end))
  /\ (forall before block after e,
         tops = before ++ block :: after ->
         Forall (fun b => exists r,
                     ProcessBlock.processBlock JSON_parse b = Returned r) before ->
         ProcessBlock.processBlock JSON_parse block = Thrown e ->
         ProcessBlock.blocksToJson JSON_parse blocks = Thrown e).
Proof.
  intros Htops.
  apply (selects_filter _ _ (is_top_level_spec blocks)) in Htops.
  unfold ProcessBlock.blocksToJson. rewrite <- Htops. clear Htops. split.
  - intros results conditions H Hsel. apply selects_not_null in Hsel.
    destruct tops as [|b [|b' r]].
    + inversion H; subst. reflexivity.
    + inversion H as [|? r1 ? rs Hb Hr]; subst. inversion Hr; subst.
      rewrite Hb. now destruct r1.
    + rewrite (map_processBlock_all _ _ _ H). cbn [bind]. rewrite Hsel.
      destruct conditions as [|c [|c' cs]]; reflexivity.
  - intros before block after e -> Hbefore He.
    destruct before as [|b before]; [destruct after as [|a after]|]; cbn [app].
    + exact He.
    + simpl. now rewrite He.
    + assert (Hm : ProcessBlock.map_processBlock JSON_parse
                     ((b :: before) ++ block :: after) = Thrown e)
        by (now apply map_processBlock_throws).
      cbn [app] in Hm.
      destruct (before ++ block :: after) eqn:E;
        [now destruct before|].
      now rewrite Hm.
Qed.

Lemma top_level_blocks_witness :
  ProcessBlock.blocksToJson Sample.no_JSON
    [Sample.and_over_contract_C; Sample.contract_C; Sample.time_999; Sample.time_A]
  = Returned
      (Some (CompoundCondition "and"
               [CompoundCondition "and" [];
                TimeCondition 11155111 "blocktime"
                  (mkReturnValueTest ">=" (RvNum (JS.Num 1700000000)))]))
  /\ ProcessBlock.blocksToJson Sample.JSON_braces
       [Sample.time_A; Sample.contract_braces]
     = Thrown "TypeError: builder.parameters.map is not a function".
Proof.
  split.
  - apply (proj1 (top_level_blocks Sample.no_JSON
                    [Sample.and_over_contract_C; Sample.contract_C;
                     Sample.time_999; Sample.time_A]
                    [Sample.and_over_contract_C; Sample.time_999; Sample.time_A]
                    ltac:(repeat first
                            [ apply selects_nil
                            | apply selects_keep;
                              [now apply is_top_level_spec|]
                            | apply selects_skip;
                              [intros H; apply is_top_level_spec in H;
                               discriminate|] ]))
             [Some (CompoundCondition "and" []); None;
              Some (TimeCondition 11155111 "blocktime"
                      (mkReturnValueTest ">=" (RvNum (JS.Num 1700000000))))]
             [CompoundCondition "and" [];
              TimeCondition 11155111 "blocktime"
                (mkReturnValueTest ">=" (RvNum (JS.Num 1700000000)))]).
    + repeat constructor.
    + apply selects_keep; [discriminate|].
      apply selects_skip; [intros H; now apply H|].
      apply selects_keep; [discriminate|]. apply selects_nil.
  - apply (proj2 (top_level_blocks Sample.JSON_braces
                    [Sample.time_A; Sample.contract_braces]
                    [Sample.time_A; Sample.contract_braces]
                    ltac:(repeat first
                            [ apply selects_nil
                            | apply selects_keep;
                              [now apply is_top_level_spec|] ]))
             [Sample.time_A] Sample.contract_braces [] _ eq_refl).
    + repeat constructor. eexists. reflexivity.
    + reflexivity.
Defined.

(** The operands are the results that are conditions, in order. *)
Lemma not_null_In (results : list (option TacoCondition)) (c : TacoCondition) :
  In c (ProcessBlock.not_null results) <-> In (Some c) results.
Proof.
  unfold ProcessBlock.not_null. rewrite in_flat_map. split.
  - intros ([c'|] & Hin & Hc); simpl in Hc; [|contradiction].
    destruct Hc as [->|[]]. assumption.
  - intros Hin. exists (Some c). split; [assumption|now left].
Qed.

(** ** The editor *)

Lemma inputs_of_set_inputs (b : Block) (l : list BlockInput) :
  inputs_of (set_inputs b (Some l)) = l.
Proof. now destruct b. Qed.

Lemma block_inputs_set_inputs (b : Block) (l : option (list BlockInput)) :
  block_inputs (set_inputs b l) = l.
Proof. now destruct b. Qed.

Lemma inputs_of_Some (b : Block) (l : list BlockInput) :
  block_inputs b = Some l -> inputs_of b = l.
Proof. unfold inputs_of. now intros ->. Qed.

Lemma has_id_set_connected id i c :
  has_id id (set_connected i c) = has_id id i.
Proof. now destruct i. Qed.

Lemma has_id_set_label id i l :
  has_id id (set_label i l) = has_id id i.
Proof. now destruct i. Qed.

Lemma has_id_set_value id i v :
  has_id id (set_value i v) = has_id id i.
Proof. now destruct i. Qed.

Lemma input_connected_set_connected i c :
  input_connected (set_connected i c) = c.
Proof. now destruct i. Qed.

Lemma input_connected_set_label i l :
  input_connected (set_label i l) = input_connected i.
Proof. now destruct i. Qed.

(** The slot found after the update is the updated slot. *)
Lemma find_input_updated (id : string) (f : BlockInput -> BlockInput)
      (l : list BlockInput) (x : BlockInput) :
  (forall i, has_id id (f i) = has_id id i) ->
  find_input id l = Some x ->
  find_input id (update_first (has_id id) f l) = Some (f x).
Proof.
  intros Hf H. apply find_split in H as (pre & post & -> & Hpre & Hx).
  rewrite update_first_at by assumption.
  apply find_at; [assumption|]. now rewrite Hf.
Qed.

Lemma below_maxInputs_reached (b : Block) (n : nat) :
  DraggableBlock.below_maxInputs (prop prop_maxInputs b) n
  = negb (maxInputs_reached b n).
Proof.
  unfold DraggableBlock.below_maxInputs, maxInputs_reached, JS.truthy_Z.
  destruct (prop prop_maxInputs b) as [m|]; [|reflexivity].
  rewrite negb_andb, Z.leb_antisym, !negb_involutive. reflexivity.
Qed.

Lemma trailing_empty_connected (l : list BlockInput) (x : BlockInput) :
  is_connected x = true -> trailing_empty (l ++ [x]) = 0%nat.
Proof.
  intros H. unfold trailing_empty. rewrite rev_app_distr. simpl. now rewrite H.
Qed.

Lemma trailing_empty_grown (l : list BlockInput) (x : BlockInput) (now : Z) :
  is_connected x = true ->
  trailing_empty ((l ++ [x]) ++ [DraggableBlock.growth_slot now]) = 1%nat.
Proof.
  intros H. unfold trailing_empty. rewrite !rev_app_distr. simpl. now rewrite H.
Qed.

(** The growth of an operator after its last slot was filled. *)
Lemma grow_last (ow : Block) (inputId : string) (now : Z)
      (pre : list BlockInput) (filled : BlockInput) :
  has_id inputId filled = true ->
  DraggableBlock.grow ow inputId now (pre ++ [filled])
  = if maxInputs_reached ow (DraggableBlock.connected_count (pre ++ [filled]))
    then pre ++ [filled]
    else (pre ++ [filled]) ++ [DraggableBlock.growth_slot now].
Proof.
  intros Hid. unfold DraggableBlock.grow, DraggableBlock.last_is.
  rewrite last_input_snoc. unfold has_id in Hid. rewrite Hid. simpl.
  rewrite below_maxInputs_reached.
  now destruct (maxInputs_reached ow _).
Qed.

(** ** C6: the growth slot after a drop into the last slot *)

(** The drop into the last slot of an operator, in the terms of the
    source: the count is the one of the filter, the slot the one pushed. *)
Lemma handleDrop_last_slot (block : Block) (inputId : string) (item : Block)
        (parentInputId : option string) (now : Z)
        (ow : Block) (pre : list BlockInput) (lastInput : BlockInput) :
  owner block parentInputId = Some ow ->
  block_type ow = operator ->
  block_type item <> value ->
  block_inputs ow = Some (pre ++ [lastInput]) ->
  has_id inputId lastInput = true ->
  none_of (has_id inputId) pre ->
  exists r ow' filled,
    DraggableBlock.handleDrop block true inputId item parentInputId now = Some r
    /\ owner r parentInputId = Some ow'
    /\ has_id inputId filled = true
    /\ input_connected filled = Some (DraggableBlock.dropped item)
    /\ is_connected (DraggableBlock.growth_slot now) = false
    /\ (maxInputs_reached ow (DraggableBlock.connected_count (pre ++ [filled])) = false ->
        block_inputs ow' = Some ((pre ++ [filled]) ++ [DraggableBlock.growth_slot now])
        /\ trailing_empty (inputs_of ow') = 1%nat)
    /\ (maxInputs_reached ow (DraggableBlock.connected_count (pre ++ [filled])) = true ->
        block_inputs ow' = Some (pre ++ [filled])
        /\ trailing_empty (inputs_of ow') = 0%nat).
Proof.
  intros Hown Hop Hitem Hin Hid Hpre.
  pose proof (inputs_of_Some _ _ Hin) as Hl.
  assert (Hnv : BlockKind_eqb (block_type item) value = false)
    by (destruct (block_type item); try reflexivity; congruence).
  assert (Hfind : find_input inputId (inputs_of ow) = Some lastInput)
    by (rewrite Hl; now apply find_at).
  unfold DraggableBlock.handleDrop. rewrite Hnv. simpl.
  unfold owner in Hown.
  destruct (JS.truthy parentInputId) eqn:Hp.
  - (* into the block connected at the parent slot *)
    destruct parentInputId as [p|]; [|discriminate].
    destruct (find_input p (inputs_of block)) as [parentInput|] eqn:Hpf;
      [|discriminate].
    set (filled := set_connected lastInput (Some (DraggableBlock.dropped item))).
    assert (Hfid : has_id inputId filled = true)
      by (unfold filled; now rewrite has_id_set_connected).
    set (l' := if maxInputs_reached ow (DraggableBlock.connected_count (pre ++ [filled]))
               then pre ++ [filled]
               else (pre ++ [filled]) ++ [DraggableBlock.growth_slot now]).
    assert (Hdrop : DraggableBlock.drop_nested inputId item now ow
                    = Some (set_inputs ow (Some l'))).
    { unfold DraggableBlock.drop_nested. rewrite Hfind, Hop, Hl. simpl.
      rewrite update_first_at by assumption.
      fold filled. now rewrite grow_last. }
    exists (set_inputs block
              (Some (update_first (has_id p)
                       (fun i => set_connected i (Some (set_inputs ow (Some l'))))
                       (inputs_of block)))),
      (set_inputs ow (Some l')), filled.
    unfold DraggableBlock.in_connected. rewrite Hpf, Hown, Hdrop.
    split; [reflexivity|]. split.
    { unfold owner. rewrite Hp, inputs_of_set_inputs.
      erewrite find_input_updated;
        [|intros; apply has_id_set_connected|eassumption].
      now rewrite input_connected_set_connected. }
    split; [assumption|]. split; [apply input_connected_set_connected|].
    split; [reflexivity|].
    rewrite block_inputs_set_inputs, inputs_of_set_inputs. unfold l'.
    split; intros ->; (split; [reflexivity|]).
    + apply trailing_empty_grown. unfold is_connected, filled.
      now rewrite input_connected_set_connected.
    + apply trailing_empty_connected. unfold is_connected, filled.
      now rewrite input_connected_set_connected.
  - (* into the operator shown *)
    injection Hown as <-. rewrite Hop. simpl.
    unfold DraggableBlock.drop_operator. rewrite Hfind, Hl.
    rewrite update_first_at by assumption.
    rewrite update_first_at
      by (try assumption; now rewrite has_id_set_connected).
    set (filled := set_label (set_connected lastInput (Some (DraggableBlock.dropped item))) _).
    assert (Hfid : has_id inputId filled = true)
      by (unfold filled; now rewrite has_id_set_label, has_id_set_connected).
    assert (Hfc : input_connected filled = Some (DraggableBlock.dropped item))
      by (unfold filled;
          now rewrite input_connected_set_label, input_connected_set_connected).
    rewrite grow_last by assumption.
    eexists _, _, filled. split; [reflexivity|].
    unfold owner. rewrite Hp. split; [reflexivity|].
    split; [assumption|]. split; [assumption|]. split; [reflexivity|].
    rewrite block_inputs_set_inputs, inputs_of_set_inputs.
    split; intros ->; (split; [reflexivity|]).
    + apply trailing_empty_grown. unfold is_connected. now rewrite Hfc.
    + apply trailing_empty_connected. unfold is_connected. now rewrite Hfc.
Qed.

Lemma connected_count_slots (l : list BlockInput) :
  DraggableBlock.connected_count l = connected_slots l.
Proof.
  unfold DraggableBlock.connected_count, is_connected.
  induction l as [|x r IH]; simpl; [reflexivity|].
  destruct (input_connected x); simpl; now rewrite IH.
Qed.

Lemma connected_slots_app (l1 l2 : list BlockInput) :
  connected_slots (l1 ++ l2) = (connected_slots l1 + connected_slots l2)%nat.
Proof.
  induction l1 as [|x r IH]; simpl; [reflexivity|].
  destruct (input_connected x); simpl; now rewrite IH.
Qed.

(** C6: a block (no value block) dropped into the last slot of an
    operator, the block shown or the one connected at [parentInputId],
    is connected there. The connected slots are then one more than those
    before the last slot. When their number has not reached [maxInputs],
    the empty slot [condition-<now>] is pushed behind the filled slot, so
    that exactly one empty slot ends the list; when it has, nothing is
    pushed and no empty slot ends the list. *)
Theorem attach_growth (block : Block) (inputId : string) (item : Block)
        (parentInputId : option string) (now : Z)
        (ow : Block) (pre : list BlockInput) (lastInput : BlockInput) :
  owner block parentInputId = Some ow ->
  block_type ow = operator ->
  block_type item <> value ->
  block_inputs ow = Some (pre ++ [lastInput]) ->
  has_id inputId lastInput = true ->
  none_of (has_id inputId) pre ->
  exists r ow' filled,
    DraggableBlock.handleDrop block true inputId item parentInputId now = Some r
    /\ owner r parentInputId = Some ow'
    /\ has_id inputId filled = true
    /\ input_connected filled = Some (DraggableBlock.dropped item)
    /\ block_inputs ow'
       = Some (if maxInputs_reached ow (S (connected_slots pre))
               then pre ++ [filled]
               else pre ++ [filled; empty_growth_slot now])
    /\ connected_slots (inputs_of ow') = S (connected_slots pre)
    /\ trailing_empty (inputs_of ow')
       = (if maxInputs_reached ow (S (connected_slots pre)) then 0 else 1)%nat.
Proof.
  intros Hown Hop Hitem Hin Hid Hpre.
  destruct (handleDrop_last_slot block inputId item parentInputId now ow pre
              lastInput Hown Hop Hitem Hin Hid Hpre)
    as (r & ow' & filled & Hr & Hown' & Hfid & Hfc & _ & Hgrow & Hstay).
  assert (Hn : DraggableBlock.connected_count (pre ++ [filled])
               = S (connected_slots pre)).
  { rewrite connected_count_slots, connected_slots_app. simpl. rewrite Hfc. lia. }
  rewrite Hn in Hgrow, Hstay.
  exists r, ow', filled. repeat (split; [assumption|]).
  destruct (maxInputs_reached ow (S (connected_slots pre))).
  - destruct (Hstay eq_refl) as [Hi Ht].
    split; [assumption|]. split; [|assumption].
    rewrite (inputs_of_Some _ _ Hi), connected_slots_app. simpl. rewrite Hfc. lia.
  - destruct (Hgrow eq_refl) as [Hi Ht].
    split; [now rewrite <- app_assoc in Hi|]. split; [|assumption].
    rewrite (inputs_of_Some _ _ Hi), !connected_slots_app. simpl. rewrite Hfc. lia.
Qed.

Lemma attach_growth_witness :
  (exists r ow' filled,
      DraggableBlock.handleDrop Sample.and_over_contract_C true "condition-2"
        Sample.time_A None 1700000000000 = Some r
      /\ owner r None = Some ow'
      /\ has_id "condition-2" filled = true
      /\ input_connected filled = Some (DraggableBlock.dropped Sample.time_A)
      /\ block_inputs ow'
         = Some [Sample.full_slot "condition-1" Sample.contract_C; filled;
                 empty_growth_slot 1700000000000]
      /\ connected_slots (inputs_of ow') = 2%nat
      /\ trailing_empty (inputs_of ow') = 1%nat)
  /\ (exists r ow' filled,
         DraggableBlock.handleDrop Sample.and_max2 true "condition-2"
           Sample.contract_C None 1700000000000 = Some r
         /\ owner r None = Some ow'
         /\ has_id "condition-2" filled = true
         /\ input_connected filled = Some (DraggableBlock.dropped Sample.contract_C)
         /\ block_inputs ow'
            = Some [Sample.full_slot "condition-1" Sample.time_A; filled]
         /\ connected_slots (inputs_of ow') = 2%nat
         /\ trailing_empty (inputs_of ow') = 0%nat).
Proof.
  split.
  - apply (attach_growth Sample.and_over_contract_C "condition-2" Sample.time_A None
             1700000000000 Sample.and_over_contract_C
             [Sample.full_slot "condition-1" Sample.contract_C]
             (Sample.empty_slot "condition-2"));
      [reflexivity | reflexivity | discriminate | reflexivity | reflexivity
      | reflexivity].
  - apply (attach_growth Sample.and_max2 "condition-2" Sample.contract_C None
             1700000000000 Sample.and_max2
             [Sample.full_slot "condition-1" Sample.time_A]
             (Sample.empty_slot "condition-2"));
      [reflexivity | reflexivity | discriminate | reflexivity | reflexivity
      | reflexivity].
Defined.

(** The same drop, evaluated: the operator ends with the filled slot,
    renumbered, and one new empty slot. *)
Example attach_grows :
  option_map (fun r => map (fun i => (input_id i, input_label i, is_connected i))
                           (inputs_of r))
    (DraggableBlock.handleDrop Sample.and_over_contract_C true "condition-2"
       Sample.time_A None 1700000000000)
  = Some [("condition-1", Some "Condition", true);
          ("condition-2", Some "Condition 2", true);
          ("condition-1700000000000", Some "Add Condition", false)].
Proof. reflexivity. Qed.

(** At the bound nothing is pushed. *)
Example attach_at_maxInputs :
  option_map (fun r => map (fun i => (input_id i, input_label i, is_connected i))
                           (inputs_of r))
    (DraggableBlock.handleDrop Sample.and_max2 true "condition-2"
       Sample.time_A None 1700000000000)
  = Some [("condition-1", Some "Condition", true);
          ("condition-2", Some "Condition 2", true)].
Proof. reflexivity. Qed.

(** ** C7: the input list after a removal *)

Lemma handleRemoveCondition_operator (block : Block) (inputId : string) (now : Z)
      (l : list BlockInput) :
  block_type block = operator ->
  block_inputs block = Some l ->
  DraggableBlock.handleRemoveCondition block true inputId now
  = Some (set_inputs block
            (Some (DraggableBlock.renumber 0
                     (filter is_connected
                        (update_first (has_id inputId)
                           (fun t => set_connected t None) l))
                   ++ [DraggableBlock.growth_slot now]))).
Proof.
  intros Hop Hin. unfold DraggableBlock.handleRemoveCondition.
  now rewrite Hop, Hin.
Qed.

(** The source's steps, in the words of the claim. *)
Lemma update_first_disconnected (inputId : string) (l : list BlockInput) :
  update_first (has_id inputId) (fun t => set_connected t None) l
  = disconnected inputId l.
Proof.
  unfold has_id.
  induction l as [|[id t lb v c it cn] r IH]; simpl; [reflexivity|].
  destruct (String.eqb id inputId); [reflexivity|]. now rewrite IH.
Qed.

Lemma filter_still_connected (l : list BlockInput) :
  filter is_connected l = still_connected l.
Proof.
  unfold is_connected.
  induction l as [|x r IH]; simpl; [reflexivity|].
  destruct (input_connected x); now rewrite IH.
Qed.

Lemma renumber_relabel (l : list BlockInput) : forall index,
  DraggableBlock.renumber index l = relabel_from (S index) l.
Proof.
  induction l as [|[id t lb v c it cn] r IH]; intros index; simpl; [reflexivity|].
  rewrite IH. unfold DraggableBlock.condition_label.
  now rewrite Nat.add_1_r.
Qed.

Lemma still_connected_app (l1 l2 : list BlockInput) :
  still_connected (l1 ++ l2) = still_connected l1 ++ still_connected l2.
Proof.
  induction l1 as [|x r IH]; simpl; [reflexivity|].
  destruct (input_connected x); simpl; now rewrite IH.
Qed.

Lemma disconnected_at (inputId : string) (pre : list BlockInput)
      (target : BlockInput) (post : list BlockInput) :
  has_id inputId target = true ->
  none_of (has_id inputId) pre ->
  still_connected (disconnected inputId (pre ++ target :: post))
  = still_connected (pre ++ post).
Proof.
  intros Hid Hpre. rewrite <- update_first_disconnected.
  rewrite update_first_at by assumption.
  rewrite !still_connected_app. simpl.
  now rewrite input_connected_set_connected.
Qed.

(** What [handleRemoveCondition] hands on for an operator, whatever the
    slot named. *)
Lemma handleRemoveCondition_rebuilt (block : Block) (inputId : string) (now : Z)
      (l : list BlockInput) :
  block_type block = operator ->
  block_inputs block = Some l ->
  DraggableBlock.handleRemoveCondition block true inputId now
  = Some (set_inputs block
            (Some (relabel_from 1 (still_connected (disconnected inputId l))
                   ++ [empty_growth_slot now]))).
Proof.
  intros Hop Hin.
  rewrite (handleRemoveCondition_operator block inputId now l Hop Hin).
  now rewrite update_first_disconnected, filter_still_connected, renumber_relabel.
Qed.

(** C7: after the removal of the connected block of a slot, the input
    list of the operator is: the slots that still hold a connected block
    (those before and after the slot; the slot itself, whose connection is
    cleared, is not among them), in their order, relabelled
    "Condition 1", "Condition 2", ... and otherwise unchanged, and then
    the one new empty slot [condition-<now>]. *)
Theorem detach_rebuild (block : Block) (inputId : string) (now : Z)
        (pre : list BlockInput) (target : BlockInput) (post : list BlockInput) :
  block_type block = operator ->
  block_inputs block = Some (pre ++ target :: post) ->
  has_id inputId target = true ->
  none_of (has_id inputId) pre ->
  DraggableBlock.handleRemoveCondition block true inputId now
  = Some (set_inputs block
            (Some (relabel_from 1 (still_connected (pre ++ post))
                   ++ [empty_growth_slot now]))).
Proof.
  intros Hop Hin Hid Hpre.
  rewrite (handleRemoveCondition_rebuilt block inputId now _ Hop Hin).
  now rewrite disconnected_at.
Qed.

Lemma detach_rebuild_witness :
  DraggableBlock.handleRemoveCondition Sample.and_three true "b" 42
  = Some (Sample.oper "and-4" (Sample.op_props "and" None)
            [mkInput "a" [condition; operator] (Some "Condition 1") None None None
                     (Some Sample.time_A);
             mkInput "c" [condition; operator] (Some "Condition 2") None None None
                     (Some Sample.contract_C);
             mkInput "condition-42" [condition; operator] (Some "Add Condition")
                     None None None None]).
Proof.
  apply (detach_rebuild Sample.and_three "b" 42
           [Sample.full_slot "a" Sample.time_A]
           (Sample.full_slot "b" Sample.time_999)
           [Sample.full_slot "c" Sample.contract_C; Sample.empty_slot "d"]);
    reflexivity.
Defined.

(** A removal from the middle: the slots left are renumbered from 1. *)
Example detach_renumbers :
  option_map (fun r => map (fun i => (input_id i, input_label i, is_connected i))
                           (inputs_of r))
    (DraggableBlock.handleRemoveCondition
       (Sample.oper "and" (Sample.op_props "and" None)
          [Sample.full_slot "a" Sample.time_A; Sample.full_slot "b" Sample.time_999;
           Sample.full_slot "c" Sample.contract_C; Sample.empty_slot "d"])
       true "b" 42)
  = Some [("a", Some "Condition 1", true);
          ("c", Some "Condition 2", true);
          ("condition-42", Some "Add Condition", false)].
Proof. reflexivity. Qed.

(** ** C8: what an edit of a value leaves unchanged *)

Lemma block_inputs_nonempty (b : Block) (pre : list BlockInput)
      (s : BlockInput) (post : list BlockInput) :
  inputs_of b = pre ++ s :: post -> block_inputs b = Some (pre ++ s :: post).
Proof.
  unfold inputs_of. destruct (block_inputs b); [now intros ->|].
  intros H. now destruct pre.
Qed.

Lemma set_slot_value_edited (b : Block) (slotId : string) (v : option string)
      (r : Block) :
  DraggableBlock.set_slot_value b slotId v = Some r ->
  edited [] slotId v b r.
Proof.
  unfold DraggableBlock.set_slot_value.
  destruct (find_input slotId (inputs_of b)) as [s|] eqn:Hf; [|discriminate].
  intros H. injection H as <-.
  apply find_split in Hf as (pre & post & Hl & Hpre & Hs).
  rewrite Hl, update_first_at by assumption.
  apply edited_here; [now apply block_inputs_nonempty|assumption|assumption].
Qed.

Lemma findAndUpdateInput_edited (v : string) (slotId : string) (path : list string) :
  forall b r,
    DraggableBlock.findAndUpdateInput v b slotId path = Some r ->
    edited path slotId (Some v) b r.
Proof.
  induction path as [|p path IH]; intros b r H.
  - apply set_slot_value_edited. exact H.
  - simpl in H.
    destruct (find_input p (inputs_of b)) as [s|] eqn:Hf; [|discriminate].
    destruct (input_connected s) as [child|] eqn:Hc; [|discriminate].
    destruct (DraggableBlock.findAndUpdateInput v child slotId path)
      as [child'|] eqn:Hr; [|discriminate].
    injection H as <-.
    apply find_split in Hf as (pre & post & Hl & Hpre & Hs).
    rewrite Hl, update_first_at by assumption.
    eapply edited_below; eauto using block_inputs_nonempty.
Qed.

(** An edit changes nothing but values. *)
Lemma edited_erase_values (path : list string) (slotId : string)
      (v : option string) (b b' : Block) :
  edited path slotId v b b' -> erase_values b' = erase_values b.
Proof.
  induction 1 as [slotId v b pre s post Hin _ _
                 |p path slotId v b pre s post child child' Hin _ _ Hc _ IH].
  - destruct b as [id t c lb i pr bv tp]. simpl in Hin. subst i. simpl.
    rewrite !map_app. simpl.
    destruct s as [iid it il iv ic ity [ch|]]; reflexivity.
  - destruct b as [id t c lb i pr bv tp]. simpl in Hin. subst i. simpl.
    rewrite !map_app. simpl.
    destruct s as [iid it il iv ic ity cn]. simpl in Hc. subst cn. simpl.
    now rewrite IH.
Qed.

(** C8: the block handed to [onBlockUpdate] by [handleValueChange]
    differs from the block shown in the value of one slot only, the
    addressed one; without the slot values the two trees are equal, so
    every [connected] and every other field is as before. *)
Theorem setValue_frame (block : Block) (isWorkspaceBlock onBlockUpdate : bool)
        (inputId value : string) (parentPath : option (list string)) (r : Block) :
  DraggableBlock.handleValueChange block isWorkspaceBlock onBlockUpdate
    inputId value parentPath = Some r ->
  edited (match parentPath with Some path => path | None => [] end)
         inputId (Some value) block r
  /\ erase_values r = erase_values block.
Proof.
  intros H.
  assert (E : edited (match parentPath with Some path => path | None => [] end)
                     inputId (Some value) block r).
  { unfold DraggableBlock.handleValueChange in H.
    destruct (negb onBlockUpdate || negb isWorkspaceBlock); [discriminate|].
    destruct parentPath as [[|p path]|].
    - now apply set_slot_value_edited.
    - now apply findAndUpdateInput_edited.
    - now apply set_slot_value_edited. }
  split; [exact E|]. eapply edited_erase_values. exact E.
Qed.

Lemma setValue_frame_witness :
  edited ["condition-1"] "chain" (Some "137") Sample.and_max2
    (Sample.oper "and-3" (Sample.op_props "and" (Some 2))
       [Sample.full_slot "condition-1"
          (Sample.cond "time-1" (Sample.props "time" None None)
             [Sample.slot "chain" "137";
              Sample.slot_cmp "minTimestamp" "1700000000" ">="]);
        Sample.empty_slot "condition-2"])
  /\ erase_values
       (Sample.oper "and-3" (Sample.op_props "and" (Some 2))
          [Sample.full_slot "condition-1"
             (Sample.cond "time-1" (Sample.props "time" None None)
                [Sample.slot "chain" "137";
                 Sample.slot_cmp "minTimestamp" "1700000000" ">="]);
           Sample.empty_slot "condition-2"])
     = erase_values Sample.and_max2.
Proof.
  apply (setValue_frame Sample.and_max2 true true "chain" "137"
           (Some ["condition-1"])).
  reflexivity.
Defined.

(** ** Decimal texts and [parseInt] *)

Lemma parse_digits_step (radix : Z) (c : ascii) (r : string) (acc d : Z) :
  JS.digit_in radix c = Some d ->
  JS.parse_digits radix (String c r) (Some acc)
  = JS.parse_digits radix r (Some (acc * radix + d)).
Proof. intros H. simpl. now rewrite H. Qed.

Lemma parse_digits_first (radix : Z) (c : ascii) (r : string) (d : Z) :
  JS.digit_in radix c = Some d ->
  JS.parse_digits radix (String c r) None = JS.parse_digits radix r (Some d).
Proof. intros H. simpl. now rewrite H. Qed.

Ltac digit_code :=
  match goal with
  | |- context [Z.of_nat (nat_of_ascii ?c)] =>
      let v := eval vm_compute in (Z.of_nat (nat_of_ascii c)) in
      change (Z.of_nat (nat_of_ascii c)) with v
  end.

Lemma parse_digits_acc (d : Decimal.uint) : forall acc : positive,
  JS.parse_digits 10 (NilEmpty.string_of_uint d) (Some (Z.pos acc))
  = Some (Z.pos (Pos.of_uint_acc d acc)).
Proof.
  induction d; intros acc; cbn [NilEmpty.string_of_uint Pos.of_uint_acc];
    [reflexivity|..];
    (erewrite parse_digits_step by reflexivity;
     rewrite <- IHd; do 2 f_equal; digit_code; lia).
Qed.

Lemma parse_digits_zero (d : Decimal.uint) :
  JS.parse_digits 10 (NilEmpty.string_of_uint d) (Some 0)
  = Some (Z.of_N (Pos.of_uint d)).
Proof.
  induction d; cbn [NilEmpty.string_of_uint Pos.of_uint];
    [reflexivity|..];
    erewrite parse_digits_step by reflexivity;
    [exact IHd | apply parse_digits_acc ..].
Qed.

Lemma parse_digits_start (d : Decimal.uint) :
  d <> Decimal.Nil ->
  JS.parse_digits 10 (NilEmpty.string_of_uint d) None
  = Some (Z.of_N (Pos.of_uint d)).
Proof.
  destruct d; intros Hd; [congruence|..];
    cbn [NilEmpty.string_of_uint Pos.of_uint];
    erewrite parse_digits_first by reflexivity;
    [apply parse_digits_zero | apply parse_digits_acc ..].
Qed.

(** [parseInt] on a text that starts with no white space, no sign and
    no [0x]. *)
Lemma parseInt_unsigned (s : string) (m : Z) :
  JS.trimStart s = s ->
  (forall r, s <> String "-" r) ->
  (forall r, s <> String "+" r) ->
  JS.strip_hex s = (10, s) ->
  JS.parse_digits 10 s None = Some m ->
  JS.parseInt s = JS.Num m.
Proof.
  intros Ht Hm Hp Hx Hd. unfold JS.parseInt. rewrite Ht.
  destruct s as [|[[|] [|] [|] [|] [|] [|] [|] [|]] r];
    try (exfalso; eapply Hm; reflexivity);
    try (exfalso; eapply Hp; reflexivity);
    cbv iota beta; rewrite Hx, Hd; now destruct m.
Qed.

(** The text of a decimal numeral is read back by [parseInt]. *)
Lemma parseInt_uint (d : Decimal.uint) :
  d <> Decimal.Nil ->
  JS.parseInt (NilEmpty.string_of_uint d) = JS.Num (Z.of_N (Pos.of_uint d)).
Proof.
  intros Hd. apply parseInt_unsigned.
  - destruct d; reflexivity.
  - destruct d; discriminate.
  - destruct d; discriminate.
  - destruct d as [|d|d|d|d|d|d|d|d|d|d]; try reflexivity. destruct d; reflexivity.
  - now apply parse_digits_start.
Qed.

Lemma string_of_pos (p : positive) :
  NilZero.string_of_uint (Pos.to_uint p) = NilEmpty.string_of_uint (Pos.to_uint p).
Proof.
  unfold NilZero.string_of_uint.
  pose proof (DecimalPos.Unsigned.to_uint_nonnil p).
  now destruct (Pos.to_uint p).
Qed.

Lemma parseInt_string_of_nat (k : nat) :
  JS.parseInt (JS.string_of_Z (Z.of_nat k)) = JS.Num (Z.of_nat k).
Proof.
  unfold JS.string_of_Z. destruct (Z.of_nat k) as [|p|p] eqn:E; [reflexivity| |lia].
  cbn [Z.to_int NilZero.string_of_int]. rewrite string_of_pos.
  rewrite parseInt_uint by apply DecimalPos.Unsigned.to_uint_nonnil.
  now rewrite DecimalPos.Unsigned.of_to.
Qed.

Lemma split_uint (d : Decimal.uint) :
  JS.split_underscore (NilEmpty.string_of_uint d) = [NilEmpty.string_of_uint d].
Proof.
  induction d; cbn [NilEmpty.string_of_uint JS.split_underscore];
    [reflexivity|..]; now rewrite IHd.
Qed.

Lemma split_string_of_nat (k : nat) :
  JS.split_underscore (JS.string_of_Z (Z.of_nat k)) = [JS.string_of_Z (Z.of_nat k)].
Proof.
  unfold JS.string_of_Z. destruct (Z.of_nat k) as [|p|p] eqn:E; [reflexivity| |lia].
  cbn [Z.to_int NilZero.string_of_int]. rewrite string_of_pos. apply split_uint.
Qed.

(** The slot [param_<k>] is the one that [is_param k] looks for. *)
Lemma is_param_numbered (input : BlockInput) (k : nat) (n : Z) :
  input_id input = ("param_" ++ JS.string_of_Z (Z.of_nat k))%string ->
  DraggableBlock.is_param n input = (Z.of_nat k =? n).
Proof.
  intros Hid. unfold DraggableBlock.is_param. rewrite Hid.
  cbn [append JS.split_underscore]. rewrite split_string_of_nat.
  cbn -[JS.string_of_Z JS.parseInt Z.eqb Z.of_nat].
  rewrite parseInt_string_of_nat. now destruct (JS.string_of_Z (Z.of_nat k)).
Qed.

Lemma is_param_is_param_slot (input : BlockInput) (n : Z) :
  is_param_slot input = false -> DraggableBlock.is_param n input = false.
Proof.
  unfold is_param_slot, DraggableBlock.is_param. now intros ->.
Qed.

(** ** C9: a new parameter slot *)

Lemma splice_in_at {A : Type} (l1 l2 : list A) (x : A) :
  DraggableBlock.splice_in (List.length l1) x (l1 ++ l2) = l1 ++ x :: l2.
Proof.
  unfold DraggableBlock.splice_in.
  induction l1 as [|y r IH]; simpl; [reflexivity|]. now rewrite IH.
Qed.


(** Among slots numbered from [a], the one that [is_param] finds for the
    last number is the last parameter slot. *)
Lemma findIndex_last_param (l : list BlockInput) : forall a m : nat,
  param_ids l
  = map (fun k => ("param_" ++ JS.string_of_Z (Z.of_nat k))%string) (seq a (S m)) ->
  exists l0 p l2,
    l = l0 ++ p :: l2
    /\ is_param_slot p = true
    /\ param_ids l2 = []
    /\ DraggableBlock.findIndex (DraggableBlock.is_param (Z.of_nat (a + m))) l
       = Some (List.length l0).
Proof.
  unfold param_ids.
  induction l as [|x r IH]; intros a m H; simpl in H; [discriminate|].
  destruct (is_param_slot x) eqn:Hx.
  - simpl in H. injection H as Hid Hr.
    destruct m as [|m].
    + exists [], x, r. repeat split; [assumption|assumption|].
      simpl. rewrite (is_param_numbered x a _ Hid).
      rewrite Nat.add_0_r, Z.eqb_refl. reflexivity.
    + destruct (IH (S a) m Hr) as (l0 & p & l2 & -> & Hp & Hl2 & Hf).
      exists (x :: l0), p, l2. repeat split; [assumption|assumption|].
      simpl. rewrite (is_param_numbered x a _ Hid).
      replace (Z.of_nat a =? Z.of_nat (a + S m)) with false
        by (symmetry; apply Z.eqb_neq; lia).
      replace (a + S m)%nat with (S a + m)%nat by lia.
      now rewrite Hf.
  - destruct (IH a m H) as (l0 & p & l2 & -> & Hp & Hl2 & Hf).
    exists (x :: l0), p, l2. repeat split; [assumption|assumption|].
    simpl. rewrite (is_param_is_param_slot x _ Hx). now rewrite Hf.
Qed.






(** The same call, evaluated. *)
Example addParameter_inserts :
  match DraggableBlock.handleAddParameter Sample.with_params true true with
  | Returned (Some r) =>
      (map (fun i => (input_id i, input_label i)) (inputs_of r),
       prop prop_parameterCount r)
  | _ => ([], None)
  end
  = ([("chain", Some "chain"); ("param_0", Some "param_0");
      ("param_1", Some "param_1"); ("param_2", Some "Parameter 3");
      ("expectedValue", Some "expectedValue")], Some 3).
Proof. reflexivity. Qed.

(** * Further properties of the code *)

(** ** Induction on block trees *)

Lemma Block_tree_ind (P : Block -> Prop) :
  (forall b,
      (forall i child,
          In i (inputs_of b) -> input_connected i = Some child -> P child) ->
      P b) ->
  forall b, P b.
Proof.
  intros H. fix IH 1. intros b. apply H.
  destruct b as [id t c lb [l|] p v tp]; unfold inputs_of; simpl.
  - induction l as [|i r IHl]; intros i0 child Hin Hc; [destruct Hin|].
    destruct Hin as [<-|Hin].
    + destruct i as [iid it il iv ic ity [ch|]]; simpl in Hc; [|discriminate].
      injection Hc as <-. apply IH.
    + eapply IHl; eassumption.
  - intros i0 child [].
Qed.

(** ** The chain checks *)

Lemma parseChainId_allowed (text : string) :
  isValidChainId (BlockToJson.parseChainId text) = true.
Proof.
  unfold BlockToJson.parseChainId.
  destruct (JS.parseInt text) as [|z]; [reflexivity|].
  destruct (isValidChainId z) eqn:E; [exact E|reflexivity].
Qed.

(** X1: [parseChainId] returns a chain of the allowed set for every
    text: the parsed integer when it is allowed, Sepolia otherwise. *)
Theorem parseChainId_valid (text : string) :
  isValidChainId (BlockToJson.parseChainId text) = true
  /\ (forall z, JS.parseInt text = JS.Num z -> isValidChainId z = true ->
                BlockToJson.parseChainId text = z)
  /\ (not_a_valid_chain text = true -> BlockToJson.parseChainId text = 11155111).
Proof.
  split; [apply parseChainId_allowed|].
  unfold BlockToJson.parseChainId, not_a_valid_chain.
  destruct (JS.parseInt text) as [|z].
  - split; [discriminate|reflexivity].
  - destruct (isValidChainId z) eqn:E.
    + split; [intros z' [= <-] _; reflexivity | discriminate].
    + split; [intros z' [= <-] H; congruence | reflexivity].
Qed.

Lemma parseChainId_valid_witness :
  isValidChainId (BlockToJson.parseChainId "137") = true
  /\ BlockToJson.parseChainId "137" = 137
  /\ BlockToJson.parseChainId "999" = 11155111.
Proof.
  destruct (parseChainId_valid "137") as (H1 & H2 & _).
  destruct (parseChainId_valid "999") as (_ & _ & H3).
  split; [exact H1|].
  split; [apply (H2 137); reflexivity | apply H3; reflexivity].
Defined.

Lemma getValidChainId_allowed (chain : Z) :
  isValidChainId chain = true ->
  EncryptionPanel.getValidChainId chain = Returned chain.
Proof.
  unfold isValidChainId, valid_chains, EncryptionPanel.getValidChainId,
    EncryptionPanel.validChains.
  cbn [existsb find]. intros H.
  rewrite !orb_true_iff, !Z.eqb_eq in H.
  destruct H as [->|[->|[->|[->|H]]]]; [reflexivity..|discriminate].
Qed.

(** X2: the chain check of the compilers and the one of the encryption
    panel accept the same chains, although their lists differ in order:
    [getValidChainId] returns the chain it is given exactly when
    [isValidChainId] holds, and throws otherwise. *)
Theorem chain_checks_agree (chain : Z) :
  (isValidChainId chain = true ->
   EncryptionPanel.getValidChainId chain = Returned chain)
  /\ (isValidChainId chain = false ->
      exists message, EncryptionPanel.getValidChainId chain = Thrown message).
Proof.
  split; [apply getValidChainId_allowed|].
  unfold isValidChainId, valid_chains, EncryptionPanel.getValidChainId,
    EncryptionPanel.validChains.
  cbn [existsb find]. intros H.
  rewrite !orb_false_iff, !Z.eqb_neq in H.
  repeat match goal with
         | |- context [?a =? chain] =>
             destruct (a =? chain) eqn:E; [apply Z.eqb_eq in E; lia | clear E]
         end.
  eexists. reflexivity.
Qed.

Lemma chain_checks_agree_witness :
  EncryptionPanel.getValidChainId 80002 = Returned 80002
  /\ exists message, EncryptionPanel.getValidChainId 999 = Thrown message.
Proof.
  split.
  - apply (proj1 (chain_checks_agree 80002)). reflexivity.
  - apply (proj2 (chain_checks_agree 999)). reflexivity.
Defined.

Lemma chain_of_valid (l : list BlockInput) :
  isValidChainId (BlockToJson.chain_of l) = true.
Proof.
  unfold BlockToJson.chain_of.
  destruct (find_input "chain" l) as [i|]; [|reflexivity].
  destruct (input_value i) as [v|]; [|reflexivity].
  destruct (JS.truthy_string v); [|reflexivity].
  apply parseChainId_allowed.
Qed.

Lemma blockToJson_operator id cat lb l p v tp :
  BlockToJson.blockToJson (mkBlock id operator cat lb (Some l) p v tp)
  = compound_of (JS.or_else (match p with
                             | Some p' => prop_operator p'
                             | None => None
                             end) "and")
                (compiled_children l).
Proof. reflexivity. Qed.

Lemma compiled_children_In (l : list BlockInput) (c : TacoCondition) :
  In c (compiled_children l) ->
  exists i child,
    In i l /\ input_connected i = Some child
    /\ BlockToJson.blockToJson child = Some c.
Proof.
  unfold compiled_children. rewrite in_flat_map.
  intros ([iid it il iv ic ity [child|]] & Hin & Hc); [|destruct Hc].
  destruct (BlockToJson.blockToJson child) as [c'|] eqn:E; [|destruct Hc].
  destruct Hc as [->|[]].
  do 2 eexists. split; [exact Hin|]. split; [reflexivity|exact E].
Qed.

Lemma conditionToJson_chain (block : Block) (c : TacoCondition) :
  BlockToJson.conditionToJson block = Some c ->
  all_chains c = [BlockToJson.chain_of (inputs_of block)]
  /\ no_empty_compound c = true.
Proof.
  unfold BlockToJson.conditionToJson.
  destruct (prop prop_conditionType block) as [t|]; [|discriminate].
  destruct (negb (JS.truthy_string t)); [discriminate|].
  destruct (String.eqb t "time"); [intros [= <-]; now split|].
  destruct (String.eqb t "rpc"); [intros [= <-]; now split|].
  destruct (String.eqb t "contract"); [intros [= <-]; now split|discriminate].
Qed.

(** X3: every chain of a condition that [blockToJson] returns, at any
    depth of the compound, is of the allowed set, so the chain check of
    [createCondition] returns on each of them. *)
Theorem blockToJson_chains_valid (block : Block) (c : TacoCondition) :
  BlockToJson.blockToJson block = Some c ->
  Forall (fun chain => isValidChainId chain = true
                       /\ EncryptionPanel.getValidChainId chain = Returned chain)
         (all_chains c).
Proof.
  revert c. induction block as [block IH] using Block_tree_ind. intros c H.
  destruct block as [id [] cat lb i p v tp].
  - (* a condition *)
    change (BlockToJson.conditionToJson (mkBlock id condition cat lb i p v tp) = Some c) in H.
    apply conditionToJson_chain in H as [-> _].
    constructor; [|constructor].
    pose proof (chain_of_valid (inputs_of (mkBlock id condition cat lb i p v tp))) as Hv.
    split; [exact Hv|]. now apply getValidChainId_allowed.
  - (* an operator *)
    destruct i as [l|]; [|discriminate].
    rewrite blockToJson_operator in H. unfold compound_of in H.
    destruct (compiled_children l) as [|o os] eqn:E; [discriminate|].
    injection H as <-. cbn [all_chains]. rewrite <- E.
    apply Forall_forall. intros chain Hin.
    apply in_flat_map in Hin as (o' & Ho' & Hchain).
    apply compiled_children_In in Ho' as (i0 & child & Hi0 & Hc & Hchild).
    pose proof (IH i0 child Hi0 Hc o' Hchild) as Hall.
    rewrite Forall_forall in Hall. now apply Hall.
  - discriminate.
Qed.

Lemma blockToJson_chains_valid_witness :
  Forall (fun chain => isValidChainId chain = true
                       /\ EncryptionPanel.getValidChainId chain = Returned chain)
         (all_chains
            (CompoundCondition "and"
               [ContractCondition 1 "" "balanceOf" (JArr [JStr ":userAddress"]) None
                  (mkReturnValueTest ">" (RvNum (JS.Num 5)))])).
Proof.
  apply (blockToJson_chains_valid Sample.and_over_contract_C). reflexivity.
Defined.

(** X5: no compound condition that [blockToJson] returns, at any depth,
    is without operands. *)
Theorem blockToJson_no_empty_compound (block : Block) (c : TacoCondition) :
  BlockToJson.blockToJson block = Some c -> no_empty_compound c = true.
Proof.
  revert c. induction block as [block IH] using Block_tree_ind. intros c H.
  destruct block as [id [] cat lb i p v tp].
  - change (BlockToJson.conditionToJson (mkBlock id condition cat lb i p v tp) = Some c) in H.
    now apply conditionToJson_chain in H.
  - destruct i as [l|]; [|discriminate].
    rewrite blockToJson_operator in H. unfold compound_of in H.
    destruct (compiled_children l) as [|o os] eqn:E; [discriminate|].
    injection H as <-. cbn [no_empty_compound]. rewrite <- E.
    apply forallb_forall. intros o' Ho'.
    apply compiled_children_In in Ho' as (i0 & child & Hi0 & Hc & Hchild).
    exact (IH i0 child Hi0 Hc o' Hchild).
  - discriminate.
Qed.

Lemma blockToJson_no_empty_compound_witness :
  no_empty_compound
    (CompoundCondition "and"
       [ContractCondition 1 "" "balanceOf" (JArr [JStr ":userAddress"]) None
          (mkReturnValueTest ">" (RvNum (JS.Num 5)))]) = true.
Proof.
  apply (blockToJson_no_empty_compound Sample.and_over_contract_C). reflexivity.
Defined.

Lemma each_connected_In (process : Block -> Outcome (option TacoCondition))
      (l : list BlockInput) : forall operands c,
  ProcessBlock.each_connected process l = Returned operands ->
  In c operands ->
  exists i child,
    In i l /\ input_connected i = Some child /\ process child = Returned (Some c).
Proof.
  induction l as [|i r IH]; simpl; intros operands c H Hin.
  - injection H as <-. destruct Hin.
  - destruct (input_connected i) as [child|] eqn:Hc.
    + destruct (process child) as [oc|e] eqn:Hp; simpl in H; [|discriminate].
      destruct (ProcessBlock.each_connected process r) as [cs|e] eqn:Hr;
        simpl in H; [|discriminate].
      injection H as <-.
      destruct oc as [c'|].
      * destruct Hin as [<-|Hin]; [exists i, child; auto|].
        destruct (IH cs c eq_refl Hin) as (i0 & ch & Hi0 & Hch & Hpc).
        exists i0, ch. auto.
      * destruct (IH cs c eq_refl Hin) as (i0 & ch & Hi0 & Hch & Hpc).
        exists i0, ch. auto.
    + destruct (IH operands c H Hin) as (i0 & ch & Hi0 & Hch & Hpc).
      exists i0, ch. auto.
Qed.

Lemma emit_chain (block : Block) (builder : ProcessBlock.ConditionBuilder)
      (c : TacoCondition) :
  ProcessBlock.emit block builder = Some c ->
  exists z, ProcessBlock.chain builder = Some z /\ all_chains c = [z].
Proof.
  unfold ProcessBlock.emit.
  destruct (ProcessBlock.chain builder) as [z|]; [|discriminate].
  intros H. exists z. split; [reflexivity|].
  repeat match type of H with
         | (if ?b then _ else _) = _ => destruct b
         end; try discriminate; injection H as <-; reflexivity.
Qed.

(** X4: every chain of a condition that [processBlock] returns, at any
    depth of the compound, is of the allowed set. *)
Theorem processBlock_chains_valid (JSON_parse : string -> option Json)
        (block : Block) (c : TacoCondition) :
  ProcessBlock.processBlock JSON_parse block = Returned (Some c) ->
  Forall (fun chain => isValidChainId chain = true
                       /\ EncryptionPanel.getValidChainId chain = Returned chain)
         (all_chains c).
Proof.
  revert c. induction block as [block IH] using Block_tree_ind. intros c H.
  destruct (block_properties block) as [p|] eqn:Hp;
    [|destruct block as [id [] cat lb i pp v tp]; simpl in Hp; subst pp;
      discriminate].
  destruct (block_type block) eqn:Ht.
  1, 3: rewrite processBlock_condition in H by congruence;
    apply processCondition_emit in H as (builder & Hb & He);
    apply emit_chain in He as (z & Hz & ->);
    constructor; [|constructor];
    assert (Hv : isValidChainId z = true)
      by (eapply forEach_chain_valid; [exact Hb|discriminate|exact Hz]);
    split; [exact Hv|now apply getValidChainId_allowed].
  destruct block as [id t cat lb i pp v tp]. simpl in Hp, Ht. subst pp t.
  destruct i as [l|].
  - rewrite processBlock_operator in H.
    destruct (ProcessBlock.each_connected (ProcessBlock.processBlock JSON_parse) l)
      as [operands|e] eqn:E; simpl in H; [|discriminate].
    injection H as <-. cbn [all_chains].
    apply Forall_forall. intros chain Hin.
    apply in_flat_map in Hin as (o & Ho & Hchain).
    destruct (each_connected_In _ _ _ _ E Ho) as (i0 & child & Hi0 & Hc & Hchild).
    pose proof (IH i0 child Hi0 Hc o Hchild) as Hall.
    rewrite Forall_forall in Hall. now apply Hall.
  - simpl in H. injection H as <-. constructor.
Qed.

Lemma processBlock_chains_valid_witness :
  Forall (fun chain => isValidChainId chain = true
                       /\ EncryptionPanel.getValidChainId chain = Returned chain)
         (all_chains
            (CompoundCondition "and"
               [TimeCondition 11155111 "blocktime"
                  (mkReturnValueTest ">=" (RvNum (JS.Num 1700000000)))])).
Proof.
  apply (processBlock_chains_valid Sample.no_JSON Sample.and_max2). reflexivity.
Defined.

(** X24: [processBlock] returns [null] for every block without
    properties, whatever it holds, and never returns [null] for an
    operator with properties: such a block gives a compound condition,
    also over no operand, unless a connected block makes the call throw. *)
Theorem processBlock_operator_never_null (JSON_parse : string -> option Json)
        (block : Block) :
  (block_properties block = None ->
   ProcessBlock.processBlock JSON_parse block = Returned None)
  /\ (block_type block = operator -> block_properties block <> None ->
      (exists op operands,
          ProcessBlock.processBlock JSON_parse block
          = Returned (Some (CompoundCondition op operands)))
      \/ (exists e, ProcessBlock.processBlock JSON_parse block = Thrown e)).
Proof.
  destruct block as [id t cat lb i [p|] v tp]; simpl; split.
  - discriminate.
  - intros -> _.
    destruct (match i with
              | Some l => ProcessBlock.each_connected
                            (ProcessBlock.processBlock JSON_parse) l
              | None => Returned []
              end) as [operands|e]; simpl; eauto.
  - destruct t; reflexivity.
  - congruence.
Qed.

Lemma processBlock_operator_never_null_witness :
  ProcessBlock.processBlock Sample.no_JSON
    (mkBlock "and-3" operator None None
             (Some [Sample.full_slot "condition-1" Sample.time_A]) None None None)
  = Returned None
  /\ ((exists op operands,
          ProcessBlock.processBlock Sample.no_JSON Sample.and_empty
          = Returned (Some (CompoundCondition op operands)))
      \/ (exists e,
             ProcessBlock.processBlock Sample.no_JSON Sample.and_empty = Thrown e)).
Proof.
  split.
  - apply (proj1 (processBlock_operator_never_null Sample.no_JSON _)).
    reflexivity.
  - apply (proj2 (processBlock_operator_never_null Sample.no_JSON Sample.and_empty));
      [reflexivity | discriminate].
Defined.

(** ** What the compilers read of a block *)

Lemma chain_of_view (l : list BlockInput) :
  BlockToJson.chain_of l
  = match slot_view "chain" l with
    | Some (v, _) => BlockToJson.parseChainId v
    | None => sepolia
    end.
Proof.
  unfold BlockToJson.chain_of, slot_view, read_view.
  destruct (find_input "chain" l) as [i|]; [|reflexivity].
  destruct (input_value i) as [v|]; [|reflexivity].
  now destruct (JS.truthy_string v).
Qed.

Lemma numeric_test_view (id : string) (l : list BlockInput) :
  BlockToJson.numeric_test id l
  = match slot_view id l with
    | Some (v, cmp) =>
        Some (mkReturnValueTest (JS.or_else cmp ">=") (RvNum (JS.parseInt v)))
    | None => None
    end.
Proof.
  unfold BlockToJson.numeric_test, slot_view, read_view.
  destruct (find_input id l) as [i|]; [|reflexivity].
  destruct (input_value i) as [v|]; [|reflexivity].
  now destruct (JS.truthy_string v).
Qed.

Lemma contractAddress_view (l : list BlockInput) :
  match find_input "contractAddress" l with
  | Some contractInput => JS.or_else (input_value contractInput) ""
  | None => ""
  end
  = match slot_view "contractAddress" l with
    | Some (v, _) => v
    | None => ""
    end.
Proof.
  unfold slot_view, read_view, JS.or_else.
  destruct (find_input "contractAddress" l) as [i|]; [|reflexivity].
  destruct (input_value i) as [v|]; [|reflexivity].
  now destruct (JS.truthy_string v).
Qed.

Lemma compiled_properties_eq (b1 b2 : Block) :
  block_properties b1 = block_properties b2 ->
  compiled_properties b1 = compiled_properties b2
  /\ has_properties b1 = has_properties b2.
Proof.
  unfold compiled_properties, has_properties, prop. now intros ->.
Qed.

(** [blockToJson] depends on a block only through its kind, the
    properties it reads, the conditions of its connected blocks and the
    views of five slots. *)
Lemma blockToJson_ext (b1 b2 : Block) :
  block_type b1 = block_type b2 ->
  compiled_properties b1 = compiled_properties b2 ->
  compiled_children (inputs_of b1) = compiled_children (inputs_of b2) ->
  (forall id, In id blockToJson_ids ->
              slot_view id (inputs_of b1) = slot_view id (inputs_of b2)) ->
  BlockToJson.blockToJson b1 = BlockToJson.blockToJson b2.
Proof.
  intros Ht Hp Hc Hv. unfold compiled_properties in Hp.
  injection Hp as Hop Hct Hm Hps Hsc Hrv.
  destruct (block_type b1) eqn:Ht1.
  - rewrite !blockToJson_condition by congruence.
    unfold BlockToJson.conditionToJson, BlockToJson.timeCondition,
      BlockToJson.rpcCondition, BlockToJson.contractCondition.
    rewrite !chain_of_view, !numeric_test_view, !contractAddress_view.
    rewrite !(Hv "chain"), !(Hv "minTimestamp"), !(Hv "minBalance"),
      !(Hv "contractAddress"), !(Hv "tokenAmount")
      by (unfold blockToJson_ids; simpl; tauto).
    now rewrite Hct, Hm, Hps, Hsc, Hrv.
  - destruct b1 as [id1 t1 c1 lb1 i1 p1 v1 tp1], b2 as [id2 t2 c2 lb2 i2 p2 v2 tp2].
    simpl in Ht, Ht1. subst t1 t2. unfold inputs_of in Hc. simpl in Hc.
    unfold prop in Hop. simpl in Hop.
    destruct i1 as [l1|], i2 as [l2|]; simpl in Hc.
    + rewrite !blockToJson_operator. now rewrite Hc, Hop.
    + rewrite blockToJson_operator, Hc. reflexivity.
    + rewrite blockToJson_operator, <- Hc. reflexivity.
    + reflexivity.
  - destruct b1 as [id1 t1 c1 lb1 i1 p1 v1 tp1], b2 as [id2 t2 c2 lb2 i2 p2 v2 tp2].
    simpl in Ht, Ht1. subst t1 t2. reflexivity.
Qed.

Lemma step_ext (JSON_parse : string -> option Json) (b1 b2 : Block)
      (builder : ProcessBlock.ConditionBuilder) (i1 i2 : BlockInput) :
  prop prop_method b1 = prop prop_method b2 ->
  ProcessBlock.slot_text i1 = ProcessBlock.slot_text i2 ->
  input_id i1 = input_id i2 ->
  ProcessBlock.step JSON_parse b1 builder i1
  = ProcessBlock.step JSON_parse b2 builder i2.
Proof.
  intros Hp Ht Hi. unfold ProcessBlock.step, ProcessBlock.is_eth_getBalance.
  now rewrite Hp, Ht, Hi.
Qed.

Lemma step_no_text (JSON_parse : string -> option Json) (b : Block)
      (builder : ProcessBlock.ConditionBuilder) (i : BlockInput) :
  ProcessBlock.slot_text i = None ->
  ProcessBlock.step JSON_parse b builder i = Returned builder.
Proof. intros H. unfold ProcessBlock.step. now rewrite H. Qed.

Lemma forEach_app (JSON_parse : string -> option Json) (b : Block)
      (l1 l2 : list BlockInput) : forall builder,
  ProcessBlock.forEach_input JSON_parse b (l1 ++ l2) builder
  = (builder' <- ProcessBlock.forEach_input JSON_parse b l1 builder ;;
     ProcessBlock.forEach_input JSON_parse b l2 builder').
Proof.
  induction l1 as [|i r IH]; simpl; intros builder; [reflexivity|].
  destruct (ProcessBlock.step JSON_parse b builder i); simpl; [apply IH|reflexivity].
Qed.

Lemma forEach_ext (JSON_parse : string -> option Json) (b1 b2 : Block)
      (l1 l2 : list BlockInput) :
  prop prop_method b1 = prop prop_method b2 ->
  Forall2 (fun i1 i2 => ProcessBlock.slot_text i1 = ProcessBlock.slot_text i2
                        /\ input_id i1 = input_id i2) l1 l2 ->
  forall builder,
    ProcessBlock.forEach_input JSON_parse b1 l1 builder
    = ProcessBlock.forEach_input JSON_parse b2 l2 builder.
Proof.
  intros Hp H. induction H as [|i1 i2 r1 r2 [Ht Hi] _ IH]; intros builder;
    [reflexivity|].
  simpl. rewrite (step_ext JSON_parse b1 b2 builder i1 i2 Hp Ht Hi).
  destruct (ProcessBlock.step JSON_parse b2 builder i2); simpl; [apply IH|reflexivity].
Qed.

Lemma emit_ext (b1 b2 : Block) (builder : ProcessBlock.ConditionBuilder) :
  compiled_properties b1 = compiled_properties b2 ->
  ProcessBlock.emit b1 builder = ProcessBlock.emit b2 builder.
Proof.
  intros Hp. injection Hp as Hop Hct Hm Hps Hsc Hrv.
  unfold ProcessBlock.emit, ProcessBlock.is_eth_getBalance.
  now rewrite Hct, Hm, Hsc.
Qed.

(** [processBlock] depends on a block only through its kind, the
    properties it reads and whether there are any, the conditions of its
    connected blocks and the builder that the loop over its inputs
    leaves. *)
Lemma processBlock_ext (JSON_parse : string -> option Json) (b1 b2 : Block) :
  block_type b1 = block_type b2 ->
  compiled_properties b1 = compiled_properties b2 ->
  has_properties b1 = has_properties b2 ->
  ProcessBlock.each_connected (ProcessBlock.processBlock JSON_parse) (inputs_of b1)
  = ProcessBlock.each_connected (ProcessBlock.processBlock JSON_parse) (inputs_of b2) ->
  ProcessBlock.forEach_input JSON_parse b1 (inputs_of b1) ProcessBlock.empty_builder
  = ProcessBlock.forEach_input JSON_parse b2 (inputs_of b2) ProcessBlock.empty_builder ->
  ProcessBlock.processBlock JSON_parse b1 = ProcessBlock.processBlock JSON_parse b2.
Proof.
  intros Ht Hp Hh Hc Hf. unfold has_properties in Hh.
  destruct (block_properties b1) as [p1|] eqn:Hp1,
           (block_properties b2) as [p2|] eqn:Hp2; try discriminate.
  - destruct (block_type b1) eqn:Ht1.
    1, 3: rewrite !processBlock_condition by congruence;
      unfold ProcessBlock.processCondition; rewrite Hf;
      destruct (ProcessBlock.forEach_input JSON_parse b2 (inputs_of b2) _);
      simpl; [f_equal; now apply emit_ext | reflexivity].
    injection Hp as Hop _ _ _ _ _. unfold prop in Hop. rewrite Hp1, Hp2 in Hop.
    destruct b1 as [id1 t1 c1 lb1 i1 q1 v1 tp1], b2 as [id2 t2 c2 lb2 i2 q2 v2 tp2].
    simpl in *. subst. unfold inputs_of in Hc. simpl in Hc.
    destruct i1, i2; simpl in Hc.
    + now rewrite Hc, Hop.
    + now rewrite Hc, Hop.
    + now rewrite <- Hc, Hop.
    + now rewrite Hop.
  - destruct b1 as [id1 t1 c1 lb1 i1 q1 v1 tp1], b2 as [id2 t2 c2 lb2 i2 q2 v2 tp2].
    simpl in *. subst. destruct t2; reflexivity.
Qed.

(** ** The copy made of a dropped block *)

Lemma find_input_map (f : BlockInput -> BlockInput) (id : string)
      (l : list BlockInput) :
  (forall i, input_id (f i) = input_id i) ->
  find_input id (map f l) = option_map f (find_input id l).
Proof.
  intros Hf. unfold find_input, has_id.
  induction l as [|x r IH]; simpl; [reflexivity|].
  rewrite Hf. now destruct (String.eqb (input_id x) id).
Qed.

Lemma prepared_facts (i : BlockInput) :
  input_id (prepared i) = input_id i
  /\ input_connected (prepared i) = input_connected i
  /\ read_view (prepared i) = read_view i
  /\ ProcessBlock.slot_text (prepared i) = ProcessBlock.slot_text i.
Proof.
  destruct i as [iid it il [[|a v]|] ic ity cn]; repeat split.
Qed.

Lemma compiled_children_map (f : BlockInput -> BlockInput) (l : list BlockInput) :
  (forall i, input_connected (f i) = input_connected i) ->
  compiled_children (map f l) = compiled_children l.
Proof.
  intros Hf. unfold compiled_children.
  induction l as [|x r IH]; simpl; [reflexivity|]. rewrite IH. f_equal.
  specialize (Hf x).
  destruct (f x) as [? ? ? ? ? ? c1], x as [? ? ? ? ? ? c2]. simpl in Hf.
  now subst c1.
Qed.

Lemma each_connected_map (process : Block -> Outcome (option TacoCondition))
      (f : BlockInput -> BlockInput) (l : list BlockInput) :
  (forall i, input_connected (f i) = input_connected i) ->
  ProcessBlock.each_connected process (map f l)
  = ProcessBlock.each_connected process l.
Proof.
  intros Hf. induction l as [|x r IH]; simpl; [reflexivity|].
  now rewrite Hf, IH.
Qed.

Lemma dropped_inputs (item : Block) :
  inputs_of (DraggableBlock.dropped item) = map prepared (inputs_of item)
  /\ block_type (DraggableBlock.dropped item) = block_type item
  /\ block_properties (DraggableBlock.dropped item) = block_properties item
  /\ block_id (DraggableBlock.dropped item) = block_id item
  /\ block_isTemplate (DraggableBlock.dropped item) = Some false.
Proof.
  destruct item as [id t c lb [l|] p v tp]; repeat split.
Qed.

Lemma dropped_blockToJson (item : Block) :
  BlockToJson.blockToJson (DraggableBlock.dropped item)
  = BlockToJson.blockToJson item.
Proof.
  destruct (dropped_inputs item) as (Hl & Ht & Hp & _ & _).
  apply compiled_properties_eq in Hp as [Hp _].
  apply blockToJson_ext; try assumption.
  - rewrite Hl. apply compiled_children_map. intros i. apply prepared_facts.
  - intros id _. rewrite Hl. unfold slot_view.
    rewrite find_input_map by (intros i; apply prepared_facts).
    destruct (find_input id (inputs_of item)); [apply prepared_facts|reflexivity].
Qed.

Lemma dropped_processBlock (JSON_parse : string -> option Json) (item : Block) :
  ProcessBlock.processBlock JSON_parse (DraggableBlock.dropped item)
  = ProcessBlock.processBlock JSON_parse item.
Proof.
  destruct (dropped_inputs item) as (Hl & Ht & Hp & _ & _).
  apply compiled_properties_eq in Hp as [Hp Hh].
  apply processBlock_ext; try assumption.
  - rewrite Hl. apply each_connected_map. intros i. apply prepared_facts.
  - rewrite Hl. apply forEach_ext; [now injection Hp|].
    clear Hl. induction (inputs_of item) as [|x r IH]; simpl; constructor;
      [|exact IH].
    split; apply prepared_facts.
Qed.

(** X7: the copy that a drop connects compiles to what the dragged item
    compiles to, under both compilers: giving every input a value and an
    input type changes nothing that a compiler reads. *)
Theorem dropped_compiles_alike (JSON_parse : string -> option Json) (item : Block) :
  BlockToJson.blockToJson (DraggableBlock.dropped item)
  = BlockToJson.blockToJson item
  /\ ProcessBlock.processBlock JSON_parse (DraggableBlock.dropped item)
     = ProcessBlock.processBlock JSON_parse item.
Proof.
  split; [apply dropped_blockToJson|apply dropped_processBlock].
Qed.

(** ** Editing an operator, then compiling *)

Lemma compiled_children_app (l1 l2 : list BlockInput) :
  compiled_children (l1 ++ l2) = compiled_children l1 ++ compiled_children l2.
Proof. unfold compiled_children. apply flat_map_app. Qed.

Lemma compiled_children_one (i : BlockInput) (child : Block) :
  input_connected i = Some child ->
  compiled_children [i] = operand_list (BlockToJson.blockToJson child).
Proof.
  destruct i as [iid it il iv ic ity cn]. simpl. intros ->.
  unfold compiled_children. simpl.
  destruct (BlockToJson.blockToJson child); reflexivity.
Qed.

Lemma compiled_children_empty (i : BlockInput) :
  is_connected i = false -> compiled_children [i] = [].
Proof.
  destruct i as [iid it il iv ic ity [c|]]; [discriminate|reflexivity].
Qed.

Lemma compiled_children_cons (x : BlockInput) (r : list BlockInput) :
  compiled_children (x :: r) = compiled_children [x] ++ compiled_children r.
Proof. exact (compiled_children_app [x] r). Qed.

Lemma compiled_children_filter (l : list BlockInput) :
  compiled_children (filter is_connected l) = compiled_children l.
Proof.
  induction l as [|x r IH]; [reflexivity|]. cbn [filter].
  rewrite (compiled_children_cons x r), <- IH.
  destruct (is_connected x) eqn:Hx.
  - apply compiled_children_cons.
  - now rewrite (compiled_children_empty x Hx).
Qed.

Lemma compiled_children_renumber (l : list BlockInput) : forall index,
  compiled_children (DraggableBlock.renumber index l) = compiled_children l.
Proof.
  induction l as [|x r IH]; intros index; [reflexivity|].
  cbn [DraggableBlock.renumber].
  rewrite compiled_children_cons, (compiled_children_cons x r), IH. f_equal.
  now destruct x as [iid it il iv ic ity cn].
Qed.

(** What [handleDrop] hands on after a drop of a block into the last
    slot of the operator shown. *)
Lemma handleDrop_operator (block : Block) (inputId : string) (item : Block)
      (now : Z) (pre : list BlockInput) (lastInput : BlockInput) :
  block_type block = operator ->
  block_type item <> value ->
  block_inputs block = Some (pre ++ [lastInput]) ->
  has_id inputId lastInput = true ->
  none_of (has_id inputId) pre ->
  exists filled,
    has_id inputId filled = true
    /\ input_connected filled = Some (DraggableBlock.dropped item)
    /\ DraggableBlock.handleDrop block true inputId item None now
       = Some (set_inputs block
                 (Some (if maxInputs_reached block
                            (DraggableBlock.connected_count (pre ++ [filled]))
                        then pre ++ [filled]
                        else (pre ++ [filled]) ++ [DraggableBlock.growth_slot now]))).
Proof.
  intros Hop Hitem Hin Hid Hpre.
  pose proof (inputs_of_Some _ _ Hin) as Hl.
  assert (Hnv : BlockKind_eqb (block_type item) value = false)
    by (destruct (block_type item); try reflexivity; congruence).
  assert (Hfind : find_input inputId (inputs_of block) = Some lastInput)
    by (rewrite Hl; now apply find_at).
  unfold DraggableBlock.handleDrop. rewrite Hnv, Hop. simpl.
  unfold DraggableBlock.drop_operator. rewrite Hfind, Hl.
  rewrite update_first_at by assumption.
  rewrite update_first_at by (try assumption; now rewrite has_id_set_connected).
  match goal with
  | |- context [set_label ?a ?b] => exists (set_label a b)
  end.
  split; [now rewrite has_id_set_label, has_id_set_connected|].
  split; [now rewrite input_connected_set_label, input_connected_set_connected|].
  rewrite grow_last by (now rewrite has_id_set_label, has_id_set_connected).
  reflexivity.
Qed.

Lemma blockToJson_operator_inputs (block : Block) (l : list BlockInput) :
  block_type block = operator ->
  BlockToJson.blockToJson (set_inputs block (Some l))
  = compound_of (JS.or_else (prop prop_operator block) "and") (compiled_children l).
Proof.
  destruct block as [id t c lb i p v tp]. intros Ht. simpl in Ht. subst t.
  exact (blockToJson_operator id c lb l p v tp).
Qed.

Lemma blockToJson_operator_block (block : Block) (l : list BlockInput) :
  block_type block = operator ->
  block_inputs block = Some l ->
  BlockToJson.blockToJson block
  = compound_of (JS.or_else (prop prop_operator block) "and") (compiled_children l).
Proof.
  destruct block as [id t c lb i p v tp]. intros Ht Hi. simpl in Ht, Hi. subst t i.
  exact (blockToJson_operator id c lb l p v tp).
Qed.

(** X8: after a block is dropped into the last slot of an operator, the
    operator compiles ([blockToJson]) to the compound condition over the
    operands it had before that slot, followed by the condition of the
    dropped item when it has one; the new empty slot adds nothing. *)
Theorem attach_then_compile (block : Block) (inputId : string) (item : Block)
        (now : Z) (pre : list BlockInput) (lastInput : BlockInput) :
  block_type block = operator ->
  block_type item <> value ->
  block_inputs block = Some (pre ++ [lastInput]) ->
  has_id inputId lastInput = true ->
  none_of (has_id inputId) pre ->
  exists r,
    DraggableBlock.handleDrop block true inputId item None now = Some r
    /\ BlockToJson.blockToJson r
       = compound_of (JS.or_else (prop prop_operator block) "and")
                     (compiled_children pre
                      ++ operand_list (BlockToJson.blockToJson item)).
Proof.
  intros Hop Hitem Hin Hid Hpre.
  destruct (handleDrop_operator block inputId item now pre lastInput
              Hop Hitem Hin Hid Hpre) as (filled & _ & Hc & ->).
  eexists. split; [reflexivity|].
  rewrite blockToJson_operator_inputs by assumption. f_equal.
  destruct (maxInputs_reached block _);
    rewrite !compiled_children_app, (compiled_children_one filled _ Hc),
      dropped_blockToJson; [reflexivity|].
  rewrite (compiled_children_empty (DraggableBlock.growth_slot now) eq_refl).
  now rewrite app_nil_r.
Qed.

Lemma attach_then_compile_witness :
  exists r,
    DraggableBlock.handleDrop Sample.and_max2 true "condition-2" Sample.rpc_999
      None 1700000000000 = Some r
    /\ BlockToJson.blockToJson r
       = compound_of "and"
           (compiled_children [Sample.full_slot "condition-1" Sample.time_A]
            ++ operand_list (BlockToJson.blockToJson Sample.rpc_999)).
Proof.
  apply (attach_then_compile Sample.and_max2 "condition-2" Sample.rpc_999
           1700000000000 [Sample.full_slot "condition-1" Sample.time_A]
           (Sample.empty_slot "condition-2"));
    [reflexivity | discriminate | reflexivity | reflexivity | reflexivity].
Defined.

(** What [handleRemoveCondition] hands on for an operator. *)
Lemma compiled_children_rebuilt (l : list BlockInput) (now : Z) :
  compiled_children
    (DraggableBlock.renumber 0 (filter is_connected l)
     ++ [DraggableBlock.growth_slot now])
  = compiled_children l.
Proof.
  rewrite compiled_children_app, compiled_children_renumber,
    compiled_children_filter.
  rewrite (compiled_children_empty (DraggableBlock.growth_slot now) eq_refl).
  apply app_nil_r.
Qed.

(** X9: after the removal of the block of a slot, the operator compiles
    ([blockToJson]) to the compound condition over the operands of the
    other slots, in their order; it is absent when none is left. *)
Theorem detach_then_compile (block : Block) (inputId : string) (now : Z)
        (pre : list BlockInput) (target : BlockInput) (post : list BlockInput) :
  block_type block = operator ->
  block_inputs block = Some (pre ++ target :: post) ->
  has_id inputId target = true ->
  none_of (has_id inputId) pre ->
  exists r,
    DraggableBlock.handleRemoveCondition block true inputId now = Some r
    /\ BlockToJson.blockToJson r
       = compound_of (JS.or_else (prop prop_operator block) "and")
                     (compiled_children pre ++ compiled_children post).
Proof.
  intros Hop Hin Hid Hpre.
  rewrite (handleRemoveCondition_operator block inputId now _ Hop Hin).
  eexists. split; [reflexivity|].
  rewrite blockToJson_operator_inputs by assumption. f_equal.
  rewrite compiled_children_rebuilt, update_first_at by assumption.
  rewrite compiled_children_app, compiled_children_cons.
  rewrite (compiled_children_empty (set_connected target None))
    by (unfold is_connected; now rewrite input_connected_set_connected).
  reflexivity.
Qed.

Lemma detach_then_compile_witness :
  exists r,
    DraggableBlock.handleRemoveCondition Sample.and_max2 true "condition-1"
      1700000000000 = Some r
    /\ BlockToJson.blockToJson r
       = compound_of "and"
           (compiled_children []
            ++ compiled_children [Sample.empty_slot "condition-2"]).
Proof.
  apply (detach_then_compile Sample.and_max2 "condition-1" 1700000000000
           [] (Sample.full_slot "condition-1" Sample.time_A)
           [Sample.empty_slot "condition-2"]);
    reflexivity.
Defined.

(** X10: a drop into the empty last slot of an operator, followed by the
    removal of what was dropped, gives an operator that compiles
    ([blockToJson]) to what the operator compiled to before. *)
Theorem attach_detach_compile (block : Block) (inputId : string) (item : Block)
        (now now' : Z) (pre : list BlockInput) (lastInput : BlockInput) :
  block_type block = operator ->
  block_type item <> value ->
  block_inputs block = Some (pre ++ [lastInput]) ->
  has_id inputId lastInput = true ->
  none_of (has_id inputId) pre ->
  is_connected lastInput = false ->
  exists r r',
    DraggableBlock.handleDrop block true inputId item None now = Some r
    /\ DraggableBlock.handleRemoveCondition r true inputId now' = Some r'
    /\ BlockToJson.blockToJson r' = BlockToJson.blockToJson block.
Proof.
  intros Hop Hitem Hin Hid Hpre Hempty.
  destruct (handleDrop_operator block inputId item now pre lastInput
              Hop Hitem Hin Hid Hpre) as (filled & Hfid & Hc & ->).
  eexists. eexists. split; [reflexivity|].
  assert (Hop' : forall l, block_type (set_inputs block (Some l)) = operator)
    by (intros l; now destruct block).
  rewrite (handleRemoveCondition_operator _ inputId now' _ (Hop' _)
             (block_inputs_set_inputs _ _)).
  split; [reflexivity|].
  rewrite blockToJson_operator_inputs by apply Hop'.
  rewrite (blockToJson_operator_block block _ Hop Hin).
  replace (prop prop_operator (set_inputs block _)) with (prop prop_operator block)
    by (now destruct block).
  f_equal. rewrite compiled_children_rebuilt.
  rewrite compiled_children_app, (compiled_children_empty lastInput Hempty), app_nil_r.
  assert (Hclear : compiled_children [set_connected filled None] = [])
    by (apply compiled_children_empty; unfold is_connected;
        now rewrite input_connected_set_connected).
  destruct (maxInputs_reached block _).
  - rewrite update_first_at by assumption.
    now rewrite compiled_children_app, Hclear, app_nil_r.
  - rewrite <- app_assoc.
    change ([filled] ++ [DraggableBlock.growth_slot now])
      with (filled :: [DraggableBlock.growth_slot now]).
    rewrite update_first_at by assumption.
    rewrite compiled_children_app, compiled_children_cons, Hclear.
    cbn [app].
    rewrite (compiled_children_empty (DraggableBlock.growth_slot now) eq_refl).
    now rewrite !app_nil_r.
Qed.

Lemma attach_detach_compile_witness :
  exists r r',
    DraggableBlock.handleDrop Sample.and_max2 true "condition-2" Sample.rpc_999
      None 1700000000000 = Some r
    /\ DraggableBlock.handleRemoveCondition r true "condition-2" 1700000000001
       = Some r'
    /\ BlockToJson.blockToJson r' = BlockToJson.blockToJson Sample.and_max2.
Proof.
  apply (attach_detach_compile Sample.and_max2 "condition-2" Sample.rpc_999
           1700000000000 1700000000001
           [Sample.full_slot "condition-1" Sample.time_A]
           (Sample.empty_slot "condition-2"));
    [reflexivity | discriminate | reflexivity | reflexivity | reflexivity
    | reflexivity].
Defined.

(** ** Edits of slots, then compiling *)

Lemma find_insert {A : Type} (p : A -> bool) (l1 l2 : list A) (x : A) :
  p x = false -> find p (l1 ++ x :: l2) = find p (l1 ++ l2).
Proof.
  intros Hx. induction l1 as [|y r IH]; simpl; [now rewrite Hx|].
  now rewrite IH.
Qed.

Lemma compiled_children_insert (l1 l2 : list BlockInput) (x : BlockInput) :
  is_connected x = false ->
  compiled_children (l1 ++ x :: l2) = compiled_children (l1 ++ l2).
Proof.
  intros Hx.
  rewrite !compiled_children_app, compiled_children_cons.
  now rewrite (compiled_children_empty x Hx).
Qed.

Lemma each_connected_insert (process : Block -> Outcome (option TacoCondition))
      (l1 l2 : list BlockInput) (x : BlockInput) :
  is_connected x = false ->
  ProcessBlock.each_connected process (l1 ++ x :: l2)
  = ProcessBlock.each_connected process (l1 ++ l2).
Proof.
  unfold is_connected. intros Hx.
  induction l1 as [|y r IH]; simpl; [|now rewrite IH].
  now destruct (input_connected x).
Qed.

Lemma forEach_insert (JSON_parse : string -> option Json) (b : Block)
      (l1 l2 : list BlockInput) (x : BlockInput)
      (builder : ProcessBlock.ConditionBuilder) :
  ProcessBlock.slot_text x = None ->
  ProcessBlock.forEach_input JSON_parse b (l1 ++ x :: l2) builder
  = ProcessBlock.forEach_input JSON_parse b (l1 ++ l2) builder.
Proof.
  intros Hx. rewrite !forEach_app.
  destruct (ProcessBlock.forEach_input JSON_parse b l1 builder) as [b1|e];
    simpl; [|reflexivity].
  now rewrite (step_no_text JSON_parse b b1 x Hx).
Qed.

Lemma forEach_block (JSON_parse : string -> option Json) (b1 b2 : Block)
      (l : list BlockInput) (builder : ProcessBlock.ConditionBuilder) :
  prop prop_method b1 = prop prop_method b2 ->
  ProcessBlock.forEach_input JSON_parse b1 l builder
  = ProcessBlock.forEach_input JSON_parse b2 l builder.
Proof.
  intros Hp. apply forEach_ext; [assumption|].
  induction l; constructor; auto.
Qed.

(** What [handleAddParameter] hands on: the inputs with the new slot
    somewhere among them, and the properties with another count. *)
Lemma addParameter_inserted (block r : Block) :
  DraggableBlock.handleAddParameter block true true = Returned (Some r) ->
  exists l1 l2,
    block_inputs block = Some (l1 ++ l2)
    /\ inputs_of r = l1 ++ DraggableBlock.newParam block :: l2
    /\ block_type r = block_type block
    /\ compiled_properties r = compiled_properties block
    /\ has_properties r = true.
Proof.
  unfold DraggableBlock.handleAddParameter. simpl.
  destruct (block_inputs block) as [l|] eqn:Hl; [|discriminate].
  intros H. injection H as <-.
  assert (Hsplit : exists l1 l2,
             l = l1 ++ l2
             /\ match DraggableBlock.findIndex
                        (DraggableBlock.is_param (DraggableBlock.paramCount block - 1)) l
                with
                | Some k => DraggableBlock.splice_in (k + 1)
                              (DraggableBlock.newParam block) l
                | None => l ++ [DraggableBlock.newParam block]
                end = l1 ++ DraggableBlock.newParam block :: l2).
  { destruct (DraggableBlock.findIndex _ l) as [k|].
    - exists (firstn (k + 1) l), (skipn (k + 1) l).
      split; [symmetry; apply firstn_skipn|reflexivity].
    - exists l, []. split; [symmetry; apply app_nil_r|reflexivity]. }
  destruct Hsplit as (l1 & l2 & -> & ->).
  exists l1, l2. destruct block as [id t c lb i [p|] v tp]; simpl in Hl; subst i;
    repeat split.
Qed.

Lemma newParam_facts (block : Block) :
  is_connected (DraggableBlock.newParam block) = false
  /\ ProcessBlock.slot_text (DraggableBlock.newParam block) = None
  /\ (forall id, In id blockToJson_ids ->
                 has_id id (DraggableBlock.newParam block) = false).
Proof.
  repeat split. intros id Hin. unfold blockToJson_ids in Hin. simpl in Hin.
  destruct Hin as [<-|[<-|[<-|[<-|[<-|[]]]]]]; reflexivity.
Qed.

(** X11: a new parameter slot does not change what the block compiles
    to: [blockToJson] returns what it returned before, and so does
    [processBlock] on a block that had properties. *)
Theorem addParameter_compiles_alike (JSON_parse : string -> option Json)
        (block r : Block) :
  DraggableBlock.handleAddParameter block true true = Returned (Some r) ->
  BlockToJson.blockToJson r = BlockToJson.blockToJson block
  /\ (block_properties block <> None ->
      ProcessBlock.processBlock JSON_parse r
      = ProcessBlock.processBlock JSON_parse block).
Proof.
  intros H.
  destruct (addParameter_inserted block r H) as (l1 & l2 & Hl & Hr & Ht & Hp & Hh).
  destruct (newParam_facts block) as (Hc & Hs & Hid).
  pose proof (inputs_of_Some _ _ Hl) as Hl'.
  split.
  - apply blockToJson_ext; try assumption.
    + rewrite Hr, Hl'. now apply compiled_children_insert.
    + intros id Hin. rewrite Hr, Hl'. unfold slot_view, find_input.
      now rewrite (find_insert _ l1 l2 _ (Hid id Hin)).
  - intros Hsome. apply processBlock_ext; try assumption.
    + unfold has_properties in *. now destruct (block_properties block).
    + rewrite Hr, Hl'. now apply each_connected_insert.
    + rewrite Hr, Hl', forEach_insert by assumption.
      apply forEach_block. now injection Hp.
Qed.

Lemma addParameter_compiles_alike_witness :
  BlockToJson.blockToJson
    (mkBlock "contract-2" condition None (Some "Custom call")
       (Some [Sample.slot "chain" "1"; Sample.slot "param_0" "a";
              Sample.slot "param_1" "b";
              mkInput "param_2" [value] (Some "Parameter 3") None None
                      (Some "text") None;
              Sample.slot_cmp "expectedValue" "1" "=="])
       (Some (mkProperties None (Some "contract") (Some "f") None None None None
                           (Some 3) (Some true)))
       None (Some false))
  = BlockToJson.blockToJson Sample.with_params
  /\ ProcessBlock.processBlock Sample.no_JSON
       (mkBlock "contract-2" condition None (Some "Custom call")
          (Some [Sample.slot "chain" "1"; Sample.slot "param_0" "a";
                 Sample.slot "param_1" "b";
                 mkInput "param_2" [value] (Some "Parameter 3") None None
                         (Some "text") None;
                 Sample.slot_cmp "expectedValue" "1" "=="])
          (Some (mkProperties None (Some "contract") (Some "f") None None None None
                              (Some 3) (Some true)))
          None (Some false))
     = ProcessBlock.processBlock Sample.no_JSON Sample.with_params.
Proof.
  destruct (addParameter_compiles_alike Sample.no_JSON Sample.with_params _
              eq_refl) as [H1 H2].
  split; [exact H1 | apply H2; discriminate].
Defined.

Lemma input_connected_set_value i v :
  input_connected (set_value i v) = input_connected i.
Proof. now destruct i. Qed.

Lemma each_connected_prefix (process : Block -> Outcome (option TacoCondition))
      (pre l l' : list BlockInput) :
  ProcessBlock.each_connected process l = ProcessBlock.each_connected process l' ->
  ProcessBlock.each_connected process (pre ++ l)
  = ProcessBlock.each_connected process (pre ++ l').
Proof.
  intros H. induction pre as [|x r IH]; simpl; [assumption|]. now rewrite IH.
Qed.

Lemma has_id_eq (id : string) (i : BlockInput) :
  has_id id i = true -> input_id i = id.
Proof. unfold has_id. apply String.eqb_eq. Qed.

Lemma slot_view_other (id id' : string) (pre post : list BlockInput)
      (s s' : BlockInput) :
  has_id id s = true -> has_id id s' = true -> id' <> id ->
  slot_view id' (pre ++ s' :: post) = slot_view id' (pre ++ s :: post).
Proof.
  intros Hs Hs' Hne. unfold slot_view, find_input.
  assert (Hf : forall x, has_id id x = true -> has_id id' x = false).
  { intros x Hx. apply has_id_eq in Hx. unfold has_id. rewrite Hx.
    apply String.eqb_neq. congruence. }
  now rewrite !find_insert by (now apply Hf).
Qed.

Lemma edited_same_block (path : list string) (id : string) (v : option string)
      (b b' : Block) :
  edited path id v b b' ->
  block_type b' = block_type b
  /\ block_properties b' = block_properties b
  /\ block_value b' = block_value b.
Proof.
  intros H. destruct H; destruct b; repeat split.
Qed.

(** An edit of a slot that no compiler looks at leaves both compilers'
    results as they were, at any depth of the tree. *)
Lemma edited_compiles_alike (JSON_parse : string -> option Json)
      (path : list string) (id : string) (v : option string) (b b' : Block) :
  edited path id v b b' ->
  ~ In id compiled_ids ->
  BlockToJson.blockToJson b' = BlockToJson.blockToJson b
  /\ ProcessBlock.processBlock JSON_parse b' = ProcessBlock.processBlock JSON_parse b.
Proof.
  intros H Hid.
  induction H as [slotId v b pre s post Hin Hs Hpre
                 |p path slotId v b pre s post child child' Hin Hs Hpre Hc He IH].
  - (* the slot is here *)
    pose proof (@edited_here slotId v b pre s post Hin Hs Hpre) as E.
    destruct (edited_same_block _ _ _ _ _ E) as (Ht & Hp & _).
    apply compiled_properties_eq in Hp as [Hp Hh].
    assert (Hsid : ~ In (input_id s) compiled_ids)
      by (now rewrite (has_id_eq _ _ Hs)).
    split.
    + apply blockToJson_ext; try assumption; rewrite inputs_of_set_inputs,
        (inputs_of_Some _ _ Hin).
      * rewrite !compiled_children_app, compiled_children_cons,
          (compiled_children_cons s post).
        do 2 f_equal. now destruct s as [? ? ? ? ? ? [c|]].
      * intros id' Hin'. apply (slot_view_other slotId); try assumption.
        -- now rewrite has_id_set_value.
        -- intros ->. apply Hid. unfold compiled_ids, blockToJson_ids in *.
           simpl in *. tauto.
    + apply processBlock_ext; try assumption; rewrite inputs_of_set_inputs,
        (inputs_of_Some _ _ Hin).
      * apply each_connected_prefix. simpl.
        now rewrite input_connected_set_value.
      * rewrite !forEach_app.
        rewrite (forEach_block JSON_parse _ b pre) by (now injection Hp).
        destruct (ProcessBlock.forEach_input JSON_parse b pre _) as [b1|e];
          simpl; [|reflexivity].
        rewrite !step_other_id
          by (try assumption; now destruct s).
        apply forEach_block. now injection Hp.
  - (* the slot is in a connected block *)
    specialize (IH Hid). destruct IH as [IHb IHp].
    pose proof (@edited_below p path slotId v b pre s post child child'
                  Hin Hs Hpre Hc He) as E.
    destruct (edited_same_block _ _ _ _ _ E) as (Ht & Hp & _).
    destruct (edited_same_block _ _ _ _ _ He) as (_ & _ & Hv).
    apply compiled_properties_eq in Hp as [Hp Hh].
    split.
    + apply blockToJson_ext; try assumption; rewrite inputs_of_set_inputs,
        (inputs_of_Some _ _ Hin).
      * rewrite !compiled_children_app, compiled_children_cons,
          (compiled_children_cons s post).
        rewrite (compiled_children_one (set_connected s (Some child')) child')
          by apply input_connected_set_connected.
        now rewrite (compiled_children_one s child Hc), IHb.
      * intros id' _. unfold slot_view, find_input.
        destruct (has_id id' s) eqn:Hs'.
        -- assert (Hpre' : none_of (has_id id') pre).
           { unfold none_of in *. rewrite forallb_forall in *. intros x Hx.
             specialize (Hpre x Hx). apply negb_true_iff in Hpre.
             apply negb_true_iff. apply has_id_eq in Hs, Hs'.
             unfold has_id in *. now rewrite <- Hs', Hs. }
           rewrite !find_at by (try assumption; now rewrite ?has_id_set_connected).
           now destruct s.
        -- now rewrite !find_insert by (now rewrite ?has_id_set_connected).
    + apply processBlock_ext; try assumption; rewrite inputs_of_set_inputs,
        (inputs_of_Some _ _ Hin).
      * apply each_connected_prefix. simpl.
        rewrite input_connected_set_connected, Hc, IHp. reflexivity.
      * rewrite !forEach_app.
        rewrite (forEach_block JSON_parse _ b pre) by (now injection Hp).
        destruct (ProcessBlock.forEach_input JSON_parse b pre _) as [b1|e];
          simpl; [|reflexivity].
        rewrite (step_ext JSON_parse _ b b1 (set_connected s (Some child')) s).
        -- destruct (ProcessBlock.step JSON_parse b b1 s); simpl; [|reflexivity].
           apply forEach_block. now injection Hp.
        -- now injection Hp.
        -- unfold ProcessBlock.slot_text.
           rewrite input_connected_set_connected, Hc, Hv. now destruct s.
        -- now destruct s.
Qed.

(** X12: a value typed into a slot that neither compiler looks at (a
    parameter slot, for one) never reaches the condition: whenever
    [handleValueChange] updates a slot whose id is not among the ids the
    compilers read, at any depth, both compilers return what they
    returned before. *)
Theorem other_slots_are_not_compiled (JSON_parse : string -> option Json)
        (block : Block) (inputId value : string)
        (parentPath : option (list string)) (r : Block) :
  DraggableBlock.handleValueChange block true true inputId value parentPath
  = Some r ->
  ~ In inputId compiled_ids ->
  BlockToJson.blockToJson r = BlockToJson.blockToJson block
  /\ ProcessBlock.processBlock JSON_parse r
     = ProcessBlock.processBlock JSON_parse block.
Proof.
  intros H Hid.
  apply (edited_compiles_alike JSON_parse
           (match parentPath with Some path => path | None => [] end)
           inputId (Some value)); [|assumption].
  unfold DraggableBlock.handleValueChange in H. simpl in H.
  destruct parentPath as [[|p path]|].
  - now apply set_slot_value_edited.
  - now apply findAndUpdateInput_edited.
  - now apply set_slot_value_edited.
Qed.

Lemma other_slots_are_not_compiled_witness :
  BlockToJson.blockToJson
    (mkBlock "contract-2" condition None (Some "Custom call")
       (Some [Sample.slot "chain" "1"; Sample.slot "param_0" "0xabc";
              Sample.slot "param_1" "b"; Sample.slot_cmp "expectedValue" "1" "=="])
       (Some (mkProperties None (Some "contract") (Some "f") None None None None
                           (Some 2) (Some true)))
       None (Some false))
  = BlockToJson.blockToJson Sample.with_params
  /\ ProcessBlock.processBlock Sample.no_JSON
       (mkBlock "contract-2" condition None (Some "Custom call")
          (Some [Sample.slot "chain" "1"; Sample.slot "param_0" "0xabc";
                 Sample.slot "param_1" "b"; Sample.slot_cmp "expectedValue" "1" "=="])
          (Some (mkProperties None (Some "contract") (Some "f") None None None None
                              (Some 2) (Some true)))
          None (Some false))
     = ProcessBlock.processBlock Sample.no_JSON Sample.with_params.
Proof.
  apply (other_slots_are_not_compiled Sample.no_JSON Sample.with_params
           "param_0" "0xabc" None).
  - reflexivity.
  - unfold compiled_ids. simpl. intuition discriminate.
Defined.

Lemma parseInt_truthy (v : string) (z : Z) :
  JS.parseInt v = JS.Num z -> JS.truthy_string v = true.
Proof. destruct v; [discriminate|reflexivity]. Qed.

Lemma conditionToJson_supported (block : Block) (conditionType : string) :
  prop prop_conditionType block = Some conditionType ->
  In conditionType ["time"; "rpc"; "contract"] ->
  exists c,
    BlockToJson.conditionToJson block = Some c
    /\ condition_chain c = Some (BlockToJson.chain_of (inputs_of block))
    /\ condition_test c
       = Some (match conditionType with
               | "time"%string =>
                   match BlockToJson.numeric_test "minTimestamp" (inputs_of block) with
                   | Some t => t
                   | None => mkReturnValueTest ">=" (RvNum (JS.Num 0))
                   end
               | "rpc"%string =>
                   match BlockToJson.numeric_test "minBalance" (inputs_of block) with
                   | Some t => t
                   | None => mkReturnValueTest ">=" (RvStr "0")
                   end
               | _ =>
                   match BlockToJson.numeric_test "tokenAmount" (inputs_of block) with
                   | Some t => t
                   | None =>
                       match prop prop_returnValueTest block with
                       | Some t => t
                       | None => mkReturnValueTest ">=" (RvStr "0")
                       end
                   end
               end).
Proof.
  intros Hc Hin. unfold BlockToJson.conditionToJson. rewrite Hc.
  simpl in Hin. destruct Hin as [<-|[<-|[<-|[]]]]; simpl; eexists;
    repeat split.
Qed.

(** X13: a valid chain typed into the [chain] slot of a condition block
    is the chain of the condition that [blockToJson] returns for the
    updated block. *)
Theorem chain_edit_is_compiled (block : Block) (conditionType value : string)
        (z : Z) (r : Block) :
  block_type block = condition ->
  prop prop_conditionType block = Some conditionType ->
  In conditionType ["time"; "rpc"; "contract"] ->
  DraggableBlock.handleValueChange block true true "chain" value None = Some r ->
  JS.parseInt value = JS.Num z ->
  isValidChainId z = true ->
  exists c, BlockToJson.blockToJson r = Some c /\ condition_chain c = Some z.
Proof.
  intros Ht Hc Hin H Hz Hv.
  unfold DraggableBlock.handleValueChange, DraggableBlock.set_slot_value in H.
  simpl in H.
  destruct (find_input "chain" (inputs_of block)) as [s|] eqn:Hf; [|discriminate].
  injection H as <-.
  assert (Ht' : block_type (set_inputs block
                              (Some (update_first (has_id "chain")
                                       (fun input => set_value input (Some value))
                                       (inputs_of block)))) = condition)
    by (now destruct block).
  rewrite blockToJson_condition by assumption.
  destruct (conditionToJson_supported
              (set_inputs block
                 (Some (update_first (has_id "chain")
                          (fun input => set_value input (Some value))
                          (inputs_of block)))) conditionType)
    as (c & -> & Hchain & _); [now destruct block|assumption|].
  exists c. split; [reflexivity|]. rewrite Hchain, inputs_of_set_inputs.
  f_equal. unfold BlockToJson.chain_of.
  rewrite (find_input_updated "chain" _ _ s)
    by (try assumption; intros; apply has_id_set_value).
  replace (input_value (set_value s (Some value))) with (Some value)
    by (now destruct s).
  rewrite (parseInt_truthy _ _ Hz).
  unfold BlockToJson.parseChainId. now rewrite Hz, Hv.
Qed.

Lemma chain_edit_is_compiled_witness :
  exists c,
    BlockToJson.blockToJson
      (Sample.cond "time-2" (Sample.props "time" None None)
         [Sample.slot "chain" "137";
          Sample.slot_cmp "minTimestamp" "1700000000" ">"]) = Some c
    /\ condition_chain c = Some 137.
Proof.
  apply (chain_edit_is_compiled Sample.time_999 "time" "137" 137);
    [reflexivity | reflexivity | simpl; tauto | reflexivity | reflexivity
    | reflexivity].
Defined.

Lemma Forall2_update_first {A : Type} (R : A -> A -> Prop) (p : A -> bool)
      (f : A -> A) (l : list A) :
  (forall x, R x x) -> (forall x, R (f x) x) ->
  Forall2 R (update_first p f l) l.
Proof.
  intros Hr Hf. induction l as [|x r IH]; simpl; [constructor|].
  destruct (p x); constructor; auto.
  clear IH. induction r; constructor; auto.
Qed.

Lemma each_connected_update_first
      (process : Block -> Outcome (option TacoCondition))
      (p : BlockInput -> bool) (f : BlockInput -> BlockInput) (l : list BlockInput) :
  (forall i, input_connected (f i) = input_connected i) ->
  ProcessBlock.each_connected process (update_first p f l)
  = ProcessBlock.each_connected process l.
Proof.
  intros Hf. induction l as [|x r IH]; simpl; [reflexivity|].
  destruct (p x); simpl; [now rewrite Hf|now rewrite IH].
Qed.

(** X14: [processBlock] reads no comparator: the block that
    [handleComparatorChange] hands on compiles, under [processBlock], to
    what the block compiled to before. *)
Theorem comparator_not_read_by_processBlock (JSON_parse : string -> option Json)
        (block : Block) (inputId comparator : string) (r : Block) :
  DraggableBlock.handleComparatorChange block true true inputId comparator = Some r ->
  ProcessBlock.processBlock JSON_parse r = ProcessBlock.processBlock JSON_parse block.
Proof.
  unfold DraggableBlock.handleComparatorChange. simpl.
  destruct (find_input inputId (inputs_of block)); [|discriminate].
  intros H. injection H as <-.
  apply processBlock_ext; rewrite ?inputs_of_set_inputs.
  - now destruct block.
  - now destruct block.
  - now destruct block.
  - apply each_connected_update_first. intros i. now destruct i.
  - transitivity (ProcessBlock.forEach_input JSON_parse block
                    (update_first (has_id inputId)
                       (fun input => set_comparator input (Some comparator))
                       (inputs_of block)) ProcessBlock.empty_builder).
    + apply forEach_block. now destruct block.
    + apply forEach_ext; [reflexivity|].
      apply Forall2_update_first; [auto|]. intros i. now destruct i.
Qed.

Lemma comparator_not_read_by_processBlock_witness :
  ProcessBlock.processBlock Sample.no_JSON
    (Sample.cond "time-1" (Sample.props "time" None None)
       [Sample.slot "chain" "11155111";
        Sample.slot_cmp "minTimestamp" "1700000000" "<"])
  = ProcessBlock.processBlock Sample.no_JSON Sample.time_A.
Proof.
  apply (comparator_not_read_by_processBlock Sample.no_JSON Sample.time_A
           "minTimestamp" "<").
  reflexivity.
Defined.

(** X15: the comparator chosen for the numeric slot of a condition
    block ([minTimestamp] of a time block, [minBalance] of an rpc block,
    [tokenAmount] of a contract block) that holds a value is the
    comparator of the test that [blockToJson] returns for the updated
    block; the value of the test is [parseInt] of the slot value and the
    chain is the one compiled before. *)
Theorem comparator_edit_is_compiled (block : Block)
        (conditionType inputId comparator v : string) (old : option string) :
  block_type block = condition ->
  prop prop_conditionType block = Some conditionType ->
  In (conditionType, inputId) test_slots ->
  slot_view inputId (inputs_of block) = Some (v, old) ->
  JS.truthy_string comparator = true ->
  exists r c c',
    DraggableBlock.handleComparatorChange block true true inputId comparator = Some r
    /\ BlockToJson.blockToJson block = Some c
    /\ BlockToJson.blockToJson r = Some c'
    /\ condition_test c'
       = Some (mkReturnValueTest comparator (RvNum (JS.parseInt v)))
    /\ condition_chain c' = condition_chain c.
Proof.
  intros Ht Hc Hin Hview Hcmp.
  unfold DraggableBlock.handleComparatorChange. simpl.
  unfold slot_view in Hview.
  destruct (find_input inputId (inputs_of block)) as [s|] eqn:Hf; [|discriminate].
  set (r := set_inputs block
              (Some (update_first (has_id inputId)
                       (fun input => set_comparator input (Some comparator))
                       (inputs_of block)))).
  assert (Hct : In conditionType ["time"; "rpc"; "contract"]).
  { unfold test_slots in Hin. simpl in Hin.
    destruct Hin as [E|[E|[E|[]]]]; injection E as <- _; simpl; tauto. }
  assert (Htr : block_type r = condition) by (unfold r; now destruct block).
  assert (Hcr : prop prop_conditionType r = Some conditionType)
    by (unfold r; now destruct block).
  destruct (conditionToJson_supported block conditionType Hc Hct)
    as (c & Hbc & Hchain & _).
  destruct (conditionToJson_supported r conditionType Hcr Hct)
    as (c' & Hbc' & Hchain' & Htest').
  exists r, c, c'. rewrite !blockToJson_condition by assumption.
  split; [reflexivity|]. split; [assumption|]. split; [assumption|].
  assert (Hviews : forall id,
             slot_view id (inputs_of r)
             = if String.eqb id inputId
               then Some (v, Some comparator)
               else slot_view id (inputs_of block)).
  { intros id. unfold r. rewrite inputs_of_set_inputs.
    apply find_split in Hf as (pre & post & Hl & Hpre & Hs).
    rewrite Hl, update_first_at by assumption.
    destruct (String.eqb_spec id inputId) as [->|Hne].
    - unfold slot_view, find_input.
      rewrite find_at by (try assumption; now destruct s).
      unfold read_view in *. destruct s as [? ? ? [x|] ? ? ?]; simpl in *;
        [|discriminate].
      destruct (JS.truthy_string x); [|discriminate]. now injection Hview as -> _.
    - apply (slot_view_other inputId); try assumption. now destruct s. }
  split.
  - rewrite Htest'. f_equal. rewrite !numeric_test_view.
    unfold test_slots in Hin. simpl in Hin.
    destruct Hin as [E|[E|[E|[]]]]; injection E as <- <-;
      rewrite Hviews; simpl; now destruct comparator.
  - rewrite Hchain, Hchain'. f_equal. rewrite !chain_of_view, Hviews.
    unfold test_slots in Hin. simpl in Hin.
    destruct Hin as [E|[E|[E|[]]]]; injection E as _ <-; reflexivity.
Qed.

Lemma comparator_edit_is_compiled_witness :
  exists r c c',
    DraggableBlock.handleComparatorChange Sample.time_A true true
      "minTimestamp" "<" = Some r
    /\ BlockToJson.blockToJson Sample.time_A = Some c
    /\ BlockToJson.blockToJson r = Some c'
    /\ condition_test c'
       = Some (mkReturnValueTest "<" (RvNum (JS.parseInt "1700000000")))
    /\ condition_chain c' = condition_chain c.
Proof.
  apply (comparator_edit_is_compiled Sample.time_A "time" "minTimestamp" "<"
           "1700000000" (Some ">="));
    [reflexivity | reflexivity | simpl; tauto | reflexivity | reflexivity].
Defined.

(** X16: an edit addressed through a path from the block shown is the
    edit made in the connected block, handed up by the callback that the
    block gives to its child: both routes hand the same tree to
    [onBlockUpdate]. *)
Theorem path_edit_is_child_edit (block : Block) (inputId value p : string)
        (path : list string) (parentInput : BlockInput) (child : Block) :
  find_input p (inputs_of block) = Some parentInput ->
  input_connected parentInput = Some child ->
  DraggableBlock.handleValueChange block true true inputId value (Some (p :: path))
  = match DraggableBlock.handleValueChange child true true inputId value (Some path)
    with
    | Some child' => DraggableBlockRender.onChildUpdate block true p child'
    | None => None
    end.
Proof.
  intros Hf Hc.
  unfold DraggableBlock.handleValueChange, DraggableBlockRender.onChildUpdate.
  simpl. rewrite Hf, Hc.
  destruct path as [|q path]; reflexivity.
Qed.

Lemma path_edit_is_child_edit_witness :
  DraggableBlock.handleValueChange Sample.and_max2 true true "chain" "137"
    (Some ["condition-1"])
  = match DraggableBlock.handleValueChange Sample.time_A true true "chain" "137"
            (Some [])
    with
    | Some child' =>
        DraggableBlockRender.onChildUpdate Sample.and_max2 true "condition-1" child'
    | None => None
    end.
Proof.
  apply (path_edit_is_child_edit Sample.and_max2 "chain" "137" "condition-1" []
           (Sample.full_slot "condition-1" Sample.time_A) Sample.time_A);
    reflexivity.
Defined.

(** ** The root of the first [blocksToJson] *)

(** X6: in a workspace without operator blocks whose first block is a
    condition, the first [blocksToJson] compiles that block and ignores
    every block after it. *)
Theorem blocksToJson_first_condition (block : Block) (rest : list Block) :
  block_type block = condition ->
  Forall (fun b => block_type b <> operator) rest ->
  BlockToJson.blocksToJson (block :: rest) = BlockToJson.blockToJson block.
Proof.
  intros Ht Hrest. unfold BlockToJson.blocksToJson.
  assert (Hroot : BlockToJson.is_root (block :: rest) block = true).
  { unfold BlockToJson.is_root. cbn [existsb]. rewrite Ht. simpl.
    apply negb_true_iff.
    induction Hrest as [|b r Hb _ IH]; [reflexivity|].
    simpl. rewrite IH. now destruct (block_type b). }
  cbn [find]. now rewrite Hroot.
Qed.

Lemma blocksToJson_first_condition_witness :
  BlockToJson.blocksToJson [Sample.time_A; Sample.rpc_own_parameters; Sample.contract_C]
  = BlockToJson.blockToJson Sample.time_A.
Proof.
  apply (blocksToJson_first_condition Sample.time_A
           [Sample.rpc_own_parameters; Sample.contract_C]);
    [reflexivity | repeat constructor; discriminate].
Defined.

(** ** From the compiler to [createCondition] *)

Section Encrypting.

Variable TacoObject : Type.
Variable new_RpcCondition :
  Z -> string -> Json -> ReturnValueTest -> Outcome TacoObject.
Variable new_TimeCondition :
  Z -> string -> ReturnValueTest -> Outcome TacoObject.
Variable new_ContractCondition :
  string -> Z -> string -> Json -> option string -> ReturnValueTest
  -> Outcome TacoObject.
Variable new_CompoundCondition :
  string -> list TacoObject -> Outcome TacoObject.

(** X17: an rpc block whose properties name another method than
    [eth_getBalance] compiles under [blockToJson], to an rpc condition
    with that method, but [createCondition] throws on the result, whatever
    the constructors of the library do. *)
Theorem other_rpc_method_is_not_created (block : Block) (method : string) :
  block_type block = condition ->
  prop prop_conditionType block = Some "rpc" ->
  prop prop_method block = Some method ->
  JS.truthy_string method = true ->
  method <> "eth_getBalance"%string ->
  exists chain parameters t,
    BlockToJson.blockToJson block = Some (RpcCondition chain method parameters t)
    /\ CreateCondition.createCondition new_RpcCondition new_TimeCondition
         new_ContractCondition new_CompoundCondition
         (RpcCondition chain method parameters t)
       = Thrown "Unsupported condition type: rpc".
Proof.
  intros Ht Hc Hm Htruthy Hne.
  rewrite blockToJson_condition by assumption.
  unfold BlockToJson.conditionToJson. rewrite Hc. simpl.
  unfold BlockToJson.rpcCondition. rewrite Hm. unfold JS.or_else.
  rewrite Htruthy. do 3 eexists. split; [reflexivity|].
  simpl. apply String.eqb_neq in Hne. now rewrite Hne.
Qed.

(** X18: for an rpc block of the balance method, what [createCondition]
    does with the condition that [blockToJson] returns is one call of the
    constructor, with the chain compiled and the fixed parameters
    [":userAddress", "latest"]: the chain check does not throw, and
    parameters taken from the properties do not reach the constructor. *)
Theorem balance_condition_is_created (block : Block) :
  block_type block = condition ->
  prop prop_conditionType block = Some "rpc" ->
  (prop prop_method block = None
   \/ prop prop_method block = Some "eth_getBalance"%string) ->
  exists chain parameters t,
    BlockToJson.blockToJson block
    = Some (RpcCondition chain "eth_getBalance" parameters t)
    /\ CreateCondition.createCondition new_RpcCondition new_TimeCondition
         new_ContractCondition new_CompoundCondition
         (RpcCondition chain "eth_getBalance" parameters t)
       = new_RpcCondition chain "eth_getBalance" userAddress_latest t.
Proof.
  intros Ht Hc Hm.
  rewrite blockToJson_condition by assumption.
  unfold BlockToJson.conditionToJson. rewrite Hc. simpl.
  unfold BlockToJson.rpcCondition.
  replace (JS.or_else (prop prop_method block) "eth_getBalance")
    with "eth_getBalance"%string by (destruct Hm as [->| ->]; reflexivity).
  do 3 eexists. split; [reflexivity|].
  simpl.
  now rewrite (getValidChainId_allowed _ (chain_of_valid (inputs_of block))).
Qed.

End Encrypting.

Lemma other_rpc_method_is_not_created_witness :
  exists chain parameters t,
    BlockToJson.blockToJson
      (Sample.cond "rpc-3" (Sample.props "rpc" (Some "eth_blockNumber") None)
         [Sample.slot "chain" "1"])
    = Some (RpcCondition chain "eth_blockNumber" parameters t)
    /\ CreateCondition.createCondition
         (fun _ _ _ _ => Returned tt) (fun _ _ _ => Returned tt)
         (fun _ _ _ _ _ _ => Returned tt) (fun _ _ => Returned tt)
         (RpcCondition chain "eth_blockNumber" parameters t)
       = Thrown "Unsupported condition type: rpc".
Proof.
  apply (other_rpc_method_is_not_created unit
           (fun _ _ _ _ => Returned tt) (fun _ _ _ => Returned tt)
           (fun _ _ _ _ _ _ => Returned tt) (fun _ _ => Returned tt)
           (Sample.cond "rpc-3" (Sample.props "rpc" (Some "eth_blockNumber") None)
              [Sample.slot "chain" "1"]) "eth_blockNumber");
    [reflexivity | reflexivity | reflexivity | reflexivity | discriminate].
Defined.

Lemma balance_condition_is_created_witness :
  exists chain parameters t,
    BlockToJson.blockToJson Sample.rpc_own_parameters
    = Some (RpcCondition chain "eth_getBalance" parameters t)
    /\ CreateCondition.createCondition
         (fun c m p _ => Returned (c, m, p)) (fun c m _ => Returned (c, m, JNull))
         (fun _ c m p _ _ => Returned (c, m, p)) (fun o _ => Returned (0, o, JNull))
         (RpcCondition chain "eth_getBalance" parameters t)
       = Returned (chain, "eth_getBalance"%string, userAddress_latest).
Proof.
  apply (balance_condition_is_created (Z * string * Json)
           (fun c m p _ => Returned (c, m, p)) (fun c m _ => Returned (c, m, JNull))
           (fun _ c m p _ _ => Returned (c, m, p)) (fun o _ => Returned (0, o, JNull))
           Sample.rpc_own_parameters);
    [reflexivity | reflexivity | right; reflexivity].
Defined.

(** ** Edge cases of the handlers *)

(** X19: a drop on a slot that does not exist updates nothing: when the
    block addressed (the block shown, or the one connected at
    [parentInputId]) has no slot of that id, or when there is no such
    block, [handleDrop] returns without calling [onBlockUpdate], whatever
    is dropped. *)
Theorem drop_on_missing_slot (block : Block) (onBlockUpdate : bool)
        (inputId : string) (item : Block) (parentInputId : option string)
        (now : Z) :
  match owner block parentInputId with
  | Some ow => find_input inputId (inputs_of ow) = None
  | None => True
  end ->
  DraggableBlock.handleDrop block onBlockUpdate inputId item parentInputId now = None.
Proof.
  intros H. unfold DraggableBlock.handleDrop.
  destruct onBlockUpdate; [|reflexivity]. simpl.
  unfold owner in H.
  destruct parentInputId as [p|]; simpl in *.
  - destruct (JS.truthy_string p) eqn:Hp.
    + unfold DraggableBlock.in_connected, DraggableBlock.set_slot_value,
        DraggableBlock.drop_nested.
      destruct (find_input p (inputs_of block)) as [pi|];
        [|now destruct (BlockKind_eqb (block_type item) value)].
      destruct (input_connected pi) as [cb|];
        [|now destruct (BlockKind_eqb (block_type item) value)].
      rewrite H. now destruct (BlockKind_eqb (block_type item) value).
    + unfold DraggableBlock.set_slot_value, DraggableBlock.drop_operator.
      rewrite H.
      destruct (BlockKind_eqb (block_type item) value),
        (BlockKind_eqb (block_type block) operator),
        (BlockKind_eqb (block_type block) condition); reflexivity.
  - unfold DraggableBlock.set_slot_value, DraggableBlock.drop_operator.
    rewrite H.
    destruct (BlockKind_eqb (block_type item) value),
      (BlockKind_eqb (block_type block) operator),
      (BlockKind_eqb (block_type block) condition); reflexivity.
Qed.

Lemma drop_on_missing_slot_witness :
  DraggableBlock.handleDrop Sample.and_max2 true "condition-9" Sample.time_A
    None 1700000000000 = None.
Proof.
  apply (drop_on_missing_slot Sample.and_max2 true "condition-9" Sample.time_A
           None 1700000000000).
  reflexivity.
Defined.

(** X20: a value block dropped on a slot is never connected: the slot,
    also one of an operator, gets the value of the item, and nothing else
    of the tree changes. *)
Theorem value_drop_sets_value (block : Block) (inputId : string) (item : Block)
        (parentInputId : option string) (now : Z) (ow : Block) (s : BlockInput) :
  block_type item = value ->
  owner block parentInputId = Some ow ->
  find_input inputId (inputs_of ow) = Some s ->
  exists r,
    DraggableBlock.handleDrop block true inputId item parentInputId now = Some r
    /\ edited (if JS.truthy parentInputId
               then match parentInputId with Some p => [p] | None => [] end
               else [])
              inputId (block_value item) block r
    /\ erase_values r = erase_values block.
Proof.
  intros Hv Hown Hf.
  assert (Hset : exists ow',
             DraggableBlock.set_slot_value ow inputId (block_value item) = Some ow')
    by (unfold DraggableBlock.set_slot_value; rewrite Hf; eauto).
  destruct Hset as (ow' & Hset).
  pose proof (set_slot_value_edited _ _ _ _ Hset) as Hed.
  unfold DraggableBlock.handleDrop. rewrite Hv. simpl.
  unfold owner in Hown.
  assert (Hgoal : forall r path,
             edited path inputId (block_value item) block r ->
             edited path inputId (block_value item) block r
             /\ erase_values r = erase_values block)
    by (intros r path E; split; [exact E|eapply edited_erase_values; exact E]).
  destruct parentInputId as [p|]; simpl in *.
  - destruct (JS.truthy_string p) eqn:Hp.
    + unfold DraggableBlock.in_connected.
      destruct (find_input p (inputs_of block)) as [pi|] eqn:Hpf; [|discriminate].
      rewrite Hown, Hset. eexists. split; [reflexivity|].
      apply Hgoal.
      apply find_split in Hpf as (pre & post & Hl & Hpre & Hpi).
      rewrite Hl, update_first_at by assumption.
      eapply edited_below; eauto using block_inputs_nonempty.
    + injection Hown as <-. rewrite Hset. eexists. split; [reflexivity|].
      now apply Hgoal.
  - injection Hown as <-. rewrite Hset. eexists. split; [reflexivity|].
    now apply Hgoal.
Qed.

Lemma value_drop_sets_value_witness :
  exists r,
    DraggableBlock.handleDrop Sample.and_max2 true "condition-2"
      (mkBlock "v" value None (Some "Value") None None (Some "42") (Some true))
      None 1700000000000 = Some r
    /\ edited [] "condition-2" (Some "42") Sample.and_max2 r
    /\ erase_values r = erase_values Sample.and_max2.
Proof.
  apply (value_drop_sets_value Sample.and_max2 "condition-2"
           (mkBlock "v" value None (Some "Value") None None (Some "42") (Some true))
           None 1700000000000 Sample.and_max2 (Sample.empty_slot "condition-2"));
    reflexivity.
Defined.

Lemma leading_empty_connected (l : list BlockInput) :
  Forall (fun i => is_connected i = true) l -> leading_empty l = 0%nat.
Proof.
  intros H. destruct H as [|x r Hx _]; [reflexivity|].
  cbn [leading_empty]. now rewrite Hx.
Qed.

Lemma relabel_from_connected (l : list BlockInput) : forall n,
  Forall (fun i => is_connected i = true) l ->
  Forall (fun i => is_connected i = true) (relabel_from n l).
Proof.
  induction l as [|[id t lb v c it cn] r IH]; intros n H; simpl; [constructor|].
  inversion H; subst. constructor; [assumption|now apply IH].
Qed.

Lemma still_connected_all (l : list BlockInput) :
  Forall (fun i => is_connected i = true) (still_connected l).
Proof.
  induction l as [|x r IH]; simpl; [constructor|].
  destruct (input_connected x) eqn:E; [|assumption].
  constructor; [|assumption]. unfold is_connected. now rewrite E.
Qed.

(** X21: whatever slot is named, also one that does not exist, the
    operator that [handleRemoveCondition] hands on has as inputs the
    slots that still hold a connected block once the first slot of that id
    has lost its own, relabelled "Condition 1", "Condition 2", ..., and
    then the new empty slot [condition-<now>]: connected slots first and
    exactly one empty slot at the end, also when the operator had no empty
    slot before, or several. *)
Theorem removal_leaves_one_growth_slot (block : Block) (inputId : string)
        (now : Z) (l : list BlockInput) :
  block_type block = operator ->
  block_inputs block = Some l ->
  exists r,
    DraggableBlock.handleRemoveCondition block true inputId now = Some r
    /\ inputs_of r
       = relabel_from 1 (still_connected (disconnected inputId l))
         ++ [empty_growth_slot now]
    /\ one_growth_slot (inputs_of r)
    /\ trailing_empty (inputs_of r) = 1%nat.
Proof.
  intros Hop Hin.
  rewrite (handleRemoveCondition_rebuilt block inputId now l Hop Hin).
  eexists. split; [reflexivity|]. rewrite inputs_of_set_inputs.
  assert (Hkept : Forall (fun i => is_connected i = true)
                         (relabel_from 1 (still_connected (disconnected inputId l))))
    by (apply relabel_from_connected, still_connected_all).
  split; [reflexivity|]. split.
  - exists (relabel_from 1 (still_connected (disconnected inputId l))),
      (empty_growth_slot now).
    repeat split. exact Hkept.
  - unfold trailing_empty. rewrite rev_app_distr.
    cbn [rev app leading_empty].
    change (is_connected (empty_growth_slot now)) with false.
    cbv iota. now rewrite leading_empty_connected by (now apply Forall_rev).
Qed.

Lemma removal_leaves_one_growth_slot_witness :
  exists r,
    DraggableBlock.handleRemoveCondition
      (Sample.oper "or-2" (Sample.op_props "or" None)
         [Sample.empty_slot "x"; Sample.full_slot "a" Sample.time_A;
          Sample.empty_slot "y"; Sample.full_slot "b" Sample.contract_C])
      true "no-such-slot" 42 = Some r
    /\ inputs_of r
       = [mkInput "a" [condition; operator] (Some "Condition 1") None None None
                  (Some Sample.time_A);
          mkInput "b" [condition; operator] (Some "Condition 2") None None None
                  (Some Sample.contract_C);
          mkInput "condition-42" [condition; operator] (Some "Add Condition")
                  None None None None]
    /\ one_growth_slot (inputs_of r)
    /\ trailing_empty (inputs_of r) = 1%nat.
Proof.
  apply (removal_leaves_one_growth_slot
           (Sample.oper "or-2" (Sample.op_props "or" None)
              [Sample.empty_slot "x"; Sample.full_slot "a" Sample.time_A;
               Sample.empty_slot "y"; Sample.full_slot "b" Sample.contract_C])
           "no-such-slot" 42
           [Sample.empty_slot "x"; Sample.full_slot "a" Sample.time_A;
            Sample.empty_slot "y"; Sample.full_slot "b" Sample.contract_C]);
    reflexivity.
Defined.

(** ** Parameter slots, one call after the other *)

Lemma param_ids_app (l1 l2 : list BlockInput) :
  param_ids (l1 ++ l2) = param_ids l1 ++ param_ids l2.
Proof. unfold param_ids. now rewrite filter_app, map_app. Qed.

Lemma numbered_S (n : nat) :
  numbered (S n)
  = numbered n ++ [("param_" ++ JS.string_of_Z (Z.of_nat n))%string].
Proof. unfold numbered. now rewrite seq_S, map_app. Qed.

(** X22: [handleAddParameter] keeps the numbering of the parameter
    slots: on a block whose parameter slots are [param_0] to
    [param_<n-1>], at least one, with [parameterCount] n, the block handed
    on has the parameter slots [param_0] to [param_<n>] and the count
    n+1, so the next call continues the sequence. *)
Theorem addParameter_keeps_numbering (block : Block) (l : list BlockInput) (m : nat) :
  block_inputs block = Some l ->
  param_ids l = numbered (S m) ->
  Z.of_nat (S m) = DraggableBlock.paramCount block ->
  exists r,
    DraggableBlock.handleAddParameter block true true = Returned (Some r)
    /\ param_ids (inputs_of r) = numbered (S (S m))
    /\ DraggableBlock.paramCount r = Z.of_nat (S (S m)).
Proof.
  intros Hin Hids Hn.
  destruct (findIndex_last_param l 0 m Hids) as (l0 & p & l2 & Hl & Hp & Hl2 & Hf).
  unfold DraggableBlock.handleAddParameter. rewrite Hin. simpl.
  replace (DraggableBlock.paramCount block - 1) with (Z.of_nat (0 + m)) by lia.
  rewrite Hf, Hl.
  replace (l0 ++ p :: l2) with ((l0 ++ [p]) ++ l2) by (now rewrite <- app_assoc).
  replace (List.length l0 + 1)%nat with (List.length (l0 ++ [p]))
    by (rewrite length_app; reflexivity).
  rewrite splice_in_at.
  eexists. split; [reflexivity|]. split.
  - replace (inputs_of _) with ((l0 ++ [p]) ++ DraggableBlock.newParam block :: l2)
      by (now destruct block).
    rewrite param_ids_app.
    change (DraggableBlock.newParam block :: l2)
      with ([DraggableBlock.newParam block] ++ l2).
    rewrite (param_ids_app [DraggableBlock.newParam block] l2), Hl2, app_nil_r.
    assert (Hfront : param_ids (l0 ++ [p]) = numbered (S m)).
    { rewrite <- Hids, Hl.
      replace (l0 ++ p :: l2) with ((l0 ++ [p]) ++ l2) by (now rewrite <- app_assoc).
      now rewrite (param_ids_app (l0 ++ [p]) l2), Hl2, app_nil_r. }
    rewrite Hfront, (numbered_S (S m)). f_equal.
    unfold param_ids, DraggableBlock.newParam. cbn [filter].
    replace (is_param_slot _) with true
      by (symmetry; unfold is_param_slot; cbn;
          now destruct (JS.string_of_Z (DraggableBlock.paramCount block))).
    cbn [map input_id]. now rewrite <- Hn.
  - unfold DraggableBlock.paramCount at 1.
    replace (prop prop_parameterCount _)
      with (Some (DraggableBlock.paramCount block + 1)) by (now destruct block).
    unfold JS.truthy_Z.
    destruct (Z.eqb_spec (DraggableBlock.paramCount block + 1) 0); simpl; lia.
Qed.

Lemma addParameter_keeps_numbering_witness :
  exists r,
    DraggableBlock.handleAddParameter Sample.with_params true true
    = Returned (Some r)
    /\ param_ids (inputs_of r) = numbered 3
    /\ DraggableBlock.paramCount r = Z.of_nat 3.
Proof.
  apply (addParameter_keeps_numbering Sample.with_params
           [Sample.slot "chain" "1"; Sample.slot "param_0" "a"; Sample.slot "param_1" "b";
            Sample.slot_cmp "expectedValue" "1" "=="] 1);
    reflexivity.
Defined.

(** ** Ids made from [Date.now()] *)

Lemma strip_hex_uint (d : Decimal.uint) :
  JS.strip_hex (NilEmpty.string_of_uint d) = (10, NilEmpty.string_of_uint d).
Proof.
  destruct d as [|d|d|d|d|d|d|d|d|d|d]; try reflexivity. destruct d; reflexivity.
Qed.

(** [parseInt] reads back the text of every integer. *)
Lemma parseInt_string_of_Z (z : Z) :
  JS.parseInt (JS.string_of_Z z) = JS.Num z.
Proof.
  destruct z as [|p|p]; [reflexivity| |].
  - unfold JS.string_of_Z. cbn [Z.to_int NilZero.string_of_int].
    rewrite string_of_pos.
    rewrite parseInt_uint by apply DecimalPos.Unsigned.to_uint_nonnil.
    now rewrite DecimalPos.Unsigned.of_to.
  - unfold JS.string_of_Z. cbn [Z.to_int NilZero.string_of_int].
    rewrite string_of_pos. unfold JS.parseInt.
    cbn [JS.trimStart]. change (JS.is_ws "-") with false. cbv iota.
    rewrite strip_hex_uint.
    rewrite parse_digits_start by apply DecimalPos.Unsigned.to_uint_nonnil.
    now rewrite DecimalPos.Unsigned.of_to.
Qed.

Lemma string_of_Z_inj (a b : Z) :
  JS.string_of_Z a = JS.string_of_Z b -> a = b.
Proof.
  intros H. apply (f_equal JS.parseInt) in H.
  rewrite !parseInt_string_of_Z in H. congruence.
Qed.

Lemma append_inj (s a b : string) : (s ++ a = s ++ b)%string -> a = b.
Proof.
  induction s as [|c s IH]; simpl; [auto|]. intros H. injection H as H. auto.
Qed.

(** X23: the ids made from [Date.now()] tell two slots, or two copies of
    a palette block, apart exactly when the timestamps differ: two growth
    slots made in the same millisecond share their id, and so do two
    drags of one palette block; a block dragged from the workspace keeps
    its id. *)
Theorem ids_follow_timestamps (block : Block) (now now' : Z) :
  (input_id (DraggableBlock.growth_slot now)
   = input_id (DraggableBlock.growth_slot now') <-> now = now')
  /\ (block_id (DraggableBlockRender.dragItem block false now)
      = block_id (DraggableBlockRender.dragItem block false now') <-> now = now')
  /\ block_id (DraggableBlockRender.dragItem block true now) = block_id block.
Proof.
  split; [|split].
  - split; [|now intros ->].
    unfold DraggableBlock.growth_slot. cbn [input_id]. intros H.
    apply (append_inj "condition-") in H. now apply string_of_Z_inj.
  - split; [|now intros ->].
    unfold DraggableBlockRender.dragItem. cbn [block_id]. intros H.
    apply append_inj in H. apply (append_inj "-") in H.
    now apply string_of_Z_inj.
  - reflexivity.
Qed.

(** ** Where the two compilers agree *)

(** X25: on a time block with the two slots of the palette, a [chain]
    slot that holds an allowed chain and a [minTimestamp] slot that holds
    a number and the comparator [">="] (or none), both compilers return
    the same time condition. *)
Theorem compilers_agree_on_time (JSON_parse : string -> option Json)
        (block : Block) (chainInput timestampInput : BlockInput)
        (chainText timestampText : string) (z t : Z) :
  block_type block = condition ->
  prop prop_conditionType block = Some "time" ->
  prop prop_method block <> Some "eth_getBalance"%string ->
  block_inputs block = Some [chainInput; timestampInput] ->
  input_id chainInput = "chain"%string ->
  input_value chainInput = Some chainText ->
  JS.parseInt chainText = JS.Num z ->
  isValidChainId z = true ->
  input_id timestampInput = "minTimestamp"%string ->
  input_value timestampInput = Some timestampText ->
  JS.parseInt timestampText = JS.Num t ->
  JS.or_else (input_comparator timestampInput) ">=" = ">="%string ->
  BlockToJson.blockToJson block
  = Some (TimeCondition z "blocktime" (mkReturnValueTest ">=" (RvNum (JS.Num t))))
  /\ ProcessBlock.processBlock JSON_parse block
     = Returned (Some (TimeCondition z "blocktime"
                         (mkReturnValueTest ">=" (RvNum (JS.Num t))))).
Proof.
  intros Ht Hc Hm Hin Hci Hcv Hz Hv Hti Htv Hpt Hcmp.
  pose proof (inputs_of_Some _ _ Hin) as Hl.
  pose proof (parseInt_truthy _ _ Hz) as Hzt.
  pose proof (parseInt_truthy _ _ Hpt) as Htt.
  split.
  - rewrite blockToJson_condition by assumption.
    unfold BlockToJson.conditionToJson. rewrite Hc. simpl.
    unfold BlockToJson.timeCondition, BlockToJson.chain_of,
      BlockToJson.numeric_test, find_input, has_id. rewrite Hl. cbn [find].
    rewrite Hci, Hti. simpl.
    rewrite Hcv, Hzt, Htv, Htt, Hcmp, Hpt.
    unfold BlockToJson.parseChainId. now rewrite Hz, Hv.
  - rewrite processBlock_condition
      by (try rewrite Ht; try discriminate; eapply condition_has_properties;
          eassumption).
    unfold ProcessBlock.processCondition. rewrite Hl.
    assert (Hsc : ProcessBlock.slot_text chainInput = Some chainText)
      by (unfold ProcessBlock.slot_text; rewrite Hcv; simpl; rewrite Hzt; simpl;
          now rewrite Hzt).
    assert (Hst : ProcessBlock.slot_text timestampInput = Some timestampText)
      by (unfold ProcessBlock.slot_text; rewrite Htv; simpl; rewrite Htt; simpl;
          now rewrite Htt).
    cbn [ProcessBlock.forEach_input]. unfold ProcessBlock.step.
    rewrite Hsc, Hst, Hci, Hti. simpl. rewrite Hz, Hv. simpl. rewrite Hpt. simpl.
    unfold ProcessBlock.emit, ProcessBlock.is_eth_getBalance. simpl.
    rewrite Hc. simpl.
    assert (Hz0 : JS.truthy_Z z = true).
    { unfold JS.truthy_Z. destruct (Z.eqb_spec z 0) as [->|]; [discriminate|reflexivity]. }
    rewrite Hz0.
    destruct (prop prop_method block) as [m|]; [|reflexivity].
    destruct (String.eqb_spec m "eth_getBalance") as [->|]; [congruence|reflexivity].
Qed.

Lemma compilers_agree_on_time_witness :
  BlockToJson.blockToJson Sample.time_A
  = Some (TimeCondition 11155111 "blocktime"
            (mkReturnValueTest ">=" (RvNum (JS.Num 1700000000))))
  /\ ProcessBlock.processBlock Sample.no_JSON Sample.time_A
     = Returned (Some (TimeCondition 11155111 "blocktime"
                         (mkReturnValueTest ">=" (RvNum (JS.Num 1700000000))))).
Proof.
  apply (compilers_agree_on_time Sample.no_JSON Sample.time_A
           (Sample.slot "chain" "11155111")
           (Sample.slot_cmp "minTimestamp" "1700000000" ">=")
           "11155111" "1700000000");
    (reflexivity || discriminate).
Defined.

(** ** A workspace block moved into an operator *)

Lemma block_id_dropped (item : Block) :
  block_id (DraggableBlock.dropped item) = block_id item.
Proof. destruct item as [id t c lb [l|] p v tp]; reflexivity. Qed.

Lemma block_type_set_inputs (b : Block) (l : option (list BlockInput)) :
  block_type (set_inputs b l) = block_type b.
Proof. now destruct b. Qed.

(** The operator that a drop hands on holds the dropped copy. *)
Lemma drop_operator_connects (block : Block) (inputId : string) (item : Block)
      (now : Z) (r b : Block) :
  DraggableBlock.drop_operator block inputId item now = Some r ->
  block_id item = block_id b ->
  block_type r = block_type block
  /\ existsb (ProcessBlock.connects b) (inputs_of r) = true.
Proof.
  unfold DraggableBlock.drop_operator. intros H Hid.
  destruct (find_input inputId (inputs_of block)) as [x|] eqn:Hx; [|discriminate].
  injection H as <-.
  rewrite block_type_set_inputs, inputs_of_set_inputs. split; [reflexivity|].
  apply find_split in Hx as (pre & post & Hl & Hpre & Hhas).
  rewrite Hl.
  rewrite (update_first_at _ _ _ _ _ Hpre Hhas).
  rewrite (update_first_at _ _ _ _ _ Hpre
             (eq_trans (has_id_set_connected _ _ _) Hhas)).
  assert (Hx : ProcessBlock.connects b
                 (set_label (set_connected x (Some (DraggableBlock.dropped item)))
                    (Some (DraggableBlock.condition_label
                             (DraggableBlock.connected_count
                                (pre ++ set_connected x
                                          (Some (DraggableBlock.dropped item))
                                        :: post)))))
               = true).
  { unfold ProcessBlock.connects.
    rewrite input_connected_set_label, input_connected_set_connected,
      block_id_dropped, Hid.
    apply String.eqb_refl. }
  unfold DraggableBlock.grow.
  match goal with
  | |- context [if ?c then _ else _] => destruct c
  end;
    rewrite !existsb_app; cbn [existsb]; rewrite Hx;
    now rewrite ?orb_true_r, ?orb_true_l.
Qed.

(** X26: a block dragged from the workspace into a slot of an operator
    is no root any more: as long as the updated operator is among the
    blocks of the workspace, the second [blocksToJson] does not count the
    block left behind as top-level and the first does not pick it as
    root, so it is compiled as an operand only. *)
Theorem moved_block_is_not_top_level (block b : Block) (inputId : string)
        (now now' : Z) (r : Block) (blocks : list Block) :
  block_type block = operator ->
  block_type b <> value ->
  DraggableBlock.handleDrop block true inputId
    (DraggableBlockRender.dragItem b true now) None now' = Some r ->
  In r blocks ->
  ProcessBlock.is_top_level blocks b = false
  /\ BlockToJson.is_root blocks b = false.
Proof.
  intros Hop Hb Hdrop Hin.
  assert (Hd : DraggableBlock.drop_operator block inputId
                 (DraggableBlockRender.dragItem b true now) now' = Some r).
  { unfold DraggableBlock.handleDrop in Hdrop.
    change (block_type (DraggableBlockRender.dragItem b true now))
      with (block_type b) in Hdrop.
    rewrite Hop in Hdrop.
    destruct (block_type b); [exact Hdrop | exact Hdrop | congruence]. }
  destruct (drop_operator_connects _ _ _ _ _ b Hd eq_refl) as [Hty Hc].
  split.
  - unfold ProcessBlock.is_top_level. apply negb_false_iff.
    apply existsb_exists. exists r. now split.
  - unfold BlockToJson.is_root. apply andb_false_iff. right.
    apply negb_false_iff. apply existsb_exists. exists r.
    split; [exact Hin|]. rewrite Hty, Hop. exact Hc.
Qed.

Lemma moved_block_is_not_top_level_witness :
  ProcessBlock.is_top_level
    [Sample.oper "and-2" (Sample.op_props "and" None)
       [mkInput "condition-1" [condition; operator] (Some "Condition 1")
                None None None (Some (DraggableBlock.dropped Sample.time_A));
        DraggableBlock.growth_slot 7];
     Sample.time_A]
    Sample.time_A = false
  /\ BlockToJson.is_root
       [Sample.oper "and-2" (Sample.op_props "and" None)
          [mkInput "condition-1" [condition; operator] (Some "Condition 1")
                   None None None (Some (DraggableBlock.dropped Sample.time_A));
           DraggableBlock.growth_slot 7];
        Sample.time_A]
       Sample.time_A = false.
Proof.
  apply (moved_block_is_not_top_level Sample.and_empty Sample.time_A
           "condition-1" 3 7
           (Sample.oper "and-2" (Sample.op_props "and" None)
              [mkInput "condition-1" [condition; operator] (Some "Condition 1")
                       None None None (Some (DraggableBlock.dropped Sample.time_A));
               DraggableBlock.growth_slot 7]));
    [reflexivity | discriminate | reflexivity | left; reflexivity].
Defined.
